(** * guimera-p4: the indexing pipeline and its quality-assurance validator

    A shallow embedding of the JavaScript classes
      - [QualityAssuranceValidator]  (backend/quality-assurance/qa-validator.js),
      - [SimpleIndexingReporter], [ProgressiveIndexer] and [IndexingTracker]
        (the three classes of the monitoring / progressive-indexer sources),
    followed by the properties the specification states about them.

    Conventions of the embedding.
      - A JavaScript string is a Rocq [string]; one [ascii] stands for one
        code unit, so the model covers code units below 256 (Latin-1).
      - A JavaScript number holding a count is a [Z]; a number holding a
        ratio, a score or a cost is an exact rational [Q].  No property
        below depends on the rounding of doubles.
      - [undefined]/[null] property values are [None].
      - A [Set] is an insertion-ordered list without repetitions
        ([Js.set_add] and friends), a [Map] keyed by strings is a [gmap].
      - [async] methods are run to completion one after the other (the
        sources [await] every call), so a method is a state transformer
        that either returns or throws. *)

From Stdlib Require Import String Ascii List ZArith QArith Qminmax Lia Lqa Bool.
From Stdlib Require Import DecimalString DecimalPos DecimalN.
From stdpp Require Import gmap strings list.

Local Open Scope string_scope.

(* ===================================================================== *)
(** * Part I: definitions                                                  *)
(* ===================================================================== *)

(** ** JavaScript primitives used by the sources *)
Module Js.

Definition code (c : ascii) : nat := nat_of_ascii c.

(** [\s] restricted to code units below 256. *)
Definition isWhiteSpace (c : ascii) : bool :=
  (Nat.leb 9 (code c) && Nat.leb (code c) 13)
  || Nat.eqb (code c) 32 || Nat.eqb (code c) 160.

(** [\d] *)
Definition isDigit (c : ascii) : bool :=
  Nat.leb 48 (code c) && Nat.leb (code c) 57.

(** [[.!?]] *)
Definition isSentenceEnd (c : ascii) : bool :=
  Nat.eqb (code c) 46 || Nat.eqb (code c) 33 || Nat.eqb (code c) 63.

(** [s.split(/C+/)] for a character class [C]: the pieces between the
    maximal runs of separator characters, with an empty first (last)
    piece when the string starts (ends) with a separator, and [[""]]
    for the empty string. *)
Fixpoint splitRuns (isSep : ascii -> bool) (s : string) (cur : string)
         (afterSep : bool) : list string :=
  match s with
  | EmptyString => [cur]
  | String c rest =>
      if isSep c then
        if afterSep then splitRuns isSep rest cur true
        else cur :: splitRuns isSep rest "" true
      else splitRuns isSep rest (cur ++ String c "") false
  end.

Definition split (isSep : ascii -> bool) (s : string) : list string :=
  splitRuns isSep s "" false.

Fixpoint allChars (p : ascii -> bool) (s : string) : bool :=
  match s with
  | EmptyString => true
  | String c rest => p c && allChars p rest
  end.

(** [/^\d+$/.test(word)] *)
Definition isAllDigits (word : string) : bool :=
  negb (String.eqb word "") && allChars isDigit word.

Definition lowerChar (c : ascii) : ascii :=
  let n := code c in
  if (Nat.leb 65 n && Nat.leb n 90)
     || (Nat.leb 192 n && Nat.leb n 222 && negb (Nat.eqb n 215))
  then ascii_of_nat (n + 32) else c.

Fixpoint toLowerCase (s : string) : string :=
  match s with
  | EmptyString => EmptyString
  | String c rest => String (lowerChar c) (toLowerCase rest)
  end.

Fixpoint includes (s sub : string) : bool :=
  String.prefix sub s
  || match s with
     | EmptyString => false
     | String _ rest => includes rest sub
     end.

(** [!s] for a possibly missing string: missing or empty. *)
Definition falsyStr (s : option string) : bool :=
  match s with
  | None => true
  | Some t => String.eqb t ""
  end.

(** [x || dflt] on a possibly missing string *)
Definition orStr (s : option string) (dflt : string) : string :=
  if falsyStr s then dflt else default dflt s.

(** *** [Set] of strings, in insertion order *)
Definition set_has (x : string) (s : list string) : bool :=
  bool_decide (x ∈ s).

Definition set_add (x : string) (s : list string) : list string :=
  if set_has x s then s else s ++ [x].

Definition set_delete (x : string) (s : list string) : list string :=
  filter (fun y => y ≠ x) s.

(** [new Set(array)] *)
Definition set_of_list (l : list string) : list string :=
  fold_left (fun s x => set_add x s) l [].

(** *** Numbers *)
Definition Qltb (a b : Q) : bool := negb (Qle_bool b a).

(** Template-literal rendering of a non-negative integer. *)
Definition showN (n : N) : string := NilZero.string_of_uint (N.to_uint n).

(** [array.slice(0, n)] and [array.slice(n)] are [firstn] and [skipn]. *)
End Js.

(** ** QualityAssuranceValidator *)
Module QA.
Import Js.
Local Open Scope Q_scope.

(** [this.thresholds] *)
Definition similarityThreshold : Q := 85 # 100.
Definition qualityScoreMin : Q := 7 # 10.
Definition searchRelevanceMin : Q := 6 # 10.
Definition maxChunkLength : nat := 2000.
Definition minChunkLength : nat := 50.

(** The metadata stored with a vector ([match.metadata]); every
    property may be missing. *)
Record Metadata := {
  content : option string;
  url : option string;
  source : option string;
  title : option string;
  chunkIndex : option Z;
  headings : option (list string);
  language : option string;
  indexedAt : option string
}.

Record Match := { match_id : string; metadata : Metadata }.

Record Assessment := {
  score : Q;
  issues : list string;
  recommendations : list string
}.

(** One [if (cond) { issues.push(..); recommendations.push(..); score -= p }]. *)
Definition flag (cond : bool) (issue : string) (advice : option string)
           (penalty : Q) (a : Assessment) : Assessment :=
  if cond then
    {| score := score a - penalty;
       issues := issues a ++ [issue];
       recommendations :=
         match advice with
         | Some r => recommendations a ++ [r]
         | None => recommendations a
         end |}
  else a.

Definition ratio (n d : nat) : Q := inject_Z (Z.of_nat n) / inject_Z (Z.of_nat d).

Definition meaningful (word : string) : bool :=
  Nat.ltb 3 (String.length word) && negb (isAllDigits word).

(** The block guarded by [if (chunk.content)]. *)
Definition contentChecks (text : string) (a : Assessment) : Assessment :=
  let words := split isWhiteSpace text in
  let uniqueWords := set_of_list words in
  let uniqueRatio := ratio (length uniqueWords) (length words) in
  let a := flag (Qltb uniqueRatio (3 # 10)) "Highly repetitive content" None (3 # 10) a in
  let meaningfulWordCount := length (List.filter meaningful words) in
  let a := flag (Qltb (ratio meaningfulWordCount (length words)) (4 # 10))
                "Low meaningful content ratio" None (2 # 10) a in
  let sentences := split isSentenceEnd text in
  let avgSentenceLength := ratio (String.length text) (length sentences) in
  flag (Qltb avgSentenceLength (10 # 1))
       "Very short sentences, possibly fragmented content" None (1 # 10) a.

Definition strLength (s : option string) : nat :=
  match s with Some t => String.length t | None => 0 end.

Definition assessContentQuality (chunk : Metadata) : Assessment :=
  let a := {| score := 1; issues := []; recommendations := [] |} in
  let a := flag (falsyStr (content chunk)
                 || Nat.ltb (strLength (content chunk)) minChunkLength)
                "Content too short"
                (Some "Consider increasing minimum content length threshold")
                (3 # 10) a in
  let a := flag (negb (falsyStr (content chunk))
                 && Nat.ltb maxChunkLength (strLength (content chunk)))
                "Content too long"
                (Some "Consider reducing chunk size or improving splitting")
                (2 # 10) a in
  let a := match content chunk with
           | Some text => if falsyStr (Some text) then a else contentChecks text a
           | None => a
           end in
  let a := flag (falsyStr (title chunk) || Nat.ltb (strLength (title chunk)) 10)
                "Missing or poor title" None (1 # 10) a in
  let a := flag (match headings chunk with
                 | None => true
                 | Some hs => Nat.eqb (length hs) 0
                 end)
                "No structural headings found"
                (Some "Improve content extraction to capture headings")
                (1 # 10) a in
  let a := flag (falsyStr (language chunk)
                 || match language chunk with
                    | Some l => String.eqb l "unknown"
                    | None => false
                    end)
                "Language not detected" None (1 # 10) a in
  {| score := Qmax 0 (score a);
     issues := issues a;
     recommendations := recommendations a |}.

(** The penalty attached to each issue text of [assessContentQuality]. *)
Definition penaltyOf (issue : string) : Q :=
  if String.eqb issue "Content too short" then 3 # 10
  else if String.eqb issue "Content too long" then 2 # 10
  else if String.eqb issue "Highly repetitive content" then 3 # 10
  else if String.eqb issue "Low meaningful content ratio" then 2 # 10
  else 1 # 10.

Definition totalPenalty (found : list string) : Q :=
  fold_right (fun i acc => penaltyOf i + acc) 0 found.

(** An entry of [this.results.contentVerification]: exactly the
    properties of the object literal pushed by [verifyContentQuality]. *)
Record VerificationRecord := {
  vr_id : string;
  vr_url : option string;
  vr_source : option string;
  vr_title : option string;
  vr_chunkIndex : option Z;
  vr_contentLength : nat;
  vr_qualityScore : Q;
  vr_issues : list string;
  vr_recommendations : list string;
  vr_language : option string;
  vr_hasHeadings : bool;
  vr_timestamp : option string
}.

(** [record.content] on such an entry: the literal defines no [content]
    property (only [contentLength]), so the read yields [undefined]. *)
Definition vr_content (r : VerificationRecord) : option string := None.

Definition verifyRecord (m : Match) : VerificationRecord :=
  let chunk := metadata m in
  let qualityAssessment := assessContentQuality chunk in
  {| vr_id := match_id m;
     vr_url := url chunk;
     vr_source := source chunk;
     vr_title := title chunk;
     vr_chunkIndex := chunkIndex chunk;
     vr_contentLength := strLength (content chunk);
     vr_qualityScore := score qualityAssessment;
     vr_issues := issues qualityAssessment;
     vr_recommendations := recommendations qualityAssessment;
     vr_language := language chunk;
     vr_hasHeadings := match headings chunk with
                       | Some hs => Nat.ltb 0 (length hs)
                       | None => false
                       end;
     vr_timestamp := indexedAt chunk |}.

(** [verifyContentQuality]: [matches] is what the vector store returned
    for the sampling query; one record is pushed per match. *)
Definition verifyContentQuality (matches : list Match)
           (contentVerification : list VerificationRecord)
  : list VerificationRecord :=
  contentVerification ++ map verifyRecord matches.

(** [calculateContentSimilarity], on the [content] properties of its two
    arguments. *)
Definition calculateContentSimilarity (content1 content2 : option string) : Q :=
  let text1 := toLowerCase (orStr content1 "") in
  let text2 := toLowerCase (orStr content2 "") in
  if String.eqb text1 "" || String.eqb text2 "" then 0
  else
    let words1 := set_of_list (split isWhiteSpace text1) in
    let words2 := set_of_list (split isWhiteSpace text2) in
    let intersection := set_of_list (List.filter (fun x => set_has x words2) words1) in
    let union := set_of_list (words1 ++ words2) in
    ratio (length intersection) (length union).

Inductive DuplicateType := SamePage | CrossPage.

Record ChunkRef := {
  ref_id : string; ref_url : option string; ref_title : option string }.

Record Duplicate := {
  dup_chunk1 : ChunkRef;
  dup_chunk2 : ChunkRef;
  dup_similarity : Q;
  dup_type : DuplicateType;
  dup_source1 : option string;
  dup_source2 : option string;
  dup_i : nat;
  dup_j : nat
}.

Definition refOf (r : VerificationRecord) : ChunkRef :=
  {| ref_id := vr_id r; ref_url := vr_url r; ref_title := vr_title r |}.

(** The inner [for (j = i + 1; ...)] loop; [js] are the indices still to
    visit.  [dup_i], [dup_j] remember the positions of the pair. *)
Fixpoint innerLoop (recs : list VerificationRecord) (i : nat)
         (chunk1 : VerificationRecord) (js : list nat)
         (processed : list nat) (duplicates : list Duplicate)
  : list nat * list Duplicate :=
  match js with
  | [] => (processed, duplicates)
  | j :: js' =>
      if bool_decide (j ∈ processed) then
        innerLoop recs i chunk1 js' processed duplicates
      else
        match recs !! j with
        | None => innerLoop recs i chunk1 js' processed duplicates
        | Some chunk2 =>
            let similarity :=
              calculateContentSimilarity (vr_content chunk1) (vr_content chunk2) in
            if Qltb similarityThreshold similarity then
              innerLoop recs i chunk1 js' (processed ++ [j])
                (duplicates ++
                 [{| dup_chunk1 := refOf chunk1;
                     dup_chunk2 := refOf chunk2;
                     dup_similarity := similarity;
                     dup_type := if bool_decide (vr_url chunk1 = vr_url chunk2)
                                 then SamePage else CrossPage;
                     dup_source1 := vr_source chunk1;
                     dup_source2 := vr_source chunk2;
                     dup_i := i; dup_j := j |}])
            else innerLoop recs i chunk1 js' processed duplicates
        end
  end.

Fixpoint outerLoop (recs : list VerificationRecord) (idxs : list nat)
         (processed : list nat) (duplicates : list Duplicate)
  : list Duplicate :=
  match idxs with
  | [] => duplicates
  | i :: idxs' =>
      if bool_decide (i ∈ processed) then outerLoop recs idxs' processed duplicates
      else
        match recs !! i with
        | None => outerLoop recs idxs' processed duplicates
        | Some chunk1 =>
            let '(processed', duplicates') :=
              innerLoop recs i chunk1 (seq (S i) (length recs - S i))
                        processed duplicates in
            outerLoop recs idxs' processed' duplicates'
        end
  end.

(** [analyzeDuplication]: the value stored in [this.results.deduplication]. *)
Definition analyzeDuplication (contentVerification : list VerificationRecord)
  : list Duplicate :=
  outerLoop contentVerification (seq 0 (length contentVerification)) [] [].

End QA.

(** ** Exceptions and the state-and-exception monad of the [async] methods *)
Module Eff.

(** A thrown [Error] object: its constructor name and its [message]. *)
Record Exn := { exn_name : string; exn_message : string }.

(** Reading a property of [undefined]. *)
Definition typeErrorUndefined (prop : string) : Exn :=
  {| exn_name := "TypeError";
     exn_message :=
       "Cannot read properties of undefined (reading '" ++ prop ++ "')" |}.

(** How a call ends: it returns, it throws, or it never ends. *)
Inductive Outcome (A : Type) : Type :=
| Return (a : A)
| Throw (e : Exn)
| Diverge.
Arguments Return {A} a.
Arguments Throw {A} e.
Arguments Diverge {A}.

Definition M (S A : Type) : Type := S -> Outcome A * S.

Definition ret {S A} (a : A) : M S A := fun s => (Return a, s).

Definition bind {S A B} (c : M S A) (k : A -> M S B) : M S B :=
  fun s =>
    match c s with
    | (Return a, s') => k a s'
    | (Throw e, s') => (Throw e, s')
    | (Diverge, s') => (Diverge, s')
    end.

Definition throw {S A} (e : Exn) : M S A := fun s => (Throw e, s).

(** [try { c } catch (error) { h error }] *)
Definition try_catch {S A} (c : M S A) (h : Exn -> M S A) : M S A :=
  fun s =>
    match c s with
    | (Throw e, s') => h e s'
    | r => r
    end.

Definition get {S} : M S S := fun s => (Return s, s).
Definition modify {S} (f : S -> S) : M S unit := fun s => (Return tt, f s).

End Eff.

Notation "x <- c ;; k" := (Eff.bind c (fun x => k))
  (at level 100, c at next level, right associativity).
Notation "c ;; k" := (Eff.bind c (fun _ => k))
  (at level 100, right associativity).

(** ** SimpleIndexingReporter *)
Module Reporter.
Import Js Eff.

(** The values of [status] named in [recordUrl]. *)
Inductive UrlStatus :=
| discovered | queued | processing | indexed | failed | skipped.

#[global] Instance UrlStatus_eq_dec : EqDecision UrlStatus.
Proof. solve_decision. Defined.

(** Entries of [this.data.sessions], [this.data.urls], [this.data.errors]
    (their [timestamp] properties are left out). *)
Record SessionRecord := {
  sr_sessionId : string;
  sr_source : string;
  sr_status : string;
  sr_pagesDiscovered : Z;
  sr_pagesIndexed : Z;
  sr_pagesFailed : Z;
  sr_chunksCreated : Z;
  sr_cost : Q
}.

Record UrlRecord := {
  ur_sessionId : string;
  ur_url : string;
  ur_status : UrlStatus;
  ur_title : string;
  ur_chunks : Z;
  ur_tokens : Z;
  ur_processingTime : Z;
  ur_error : string;
  ur_cost : Q;
  ur_quality : string
}.

Record ErrorRecord := {
  er_sessionId : string;
  er_url : option string;
  er_error : string;
  er_errorType : string;
  er_attempt : Z
}.

Record Data := {
  sessions : list SessionRecord;
  urls : list UrlRecord;
  errors : list ErrorRecord
}.

(** [constructor] *)
Definition empty : Data := {| sessions := []; urls := []; errors := [] |}.

(** The argument objects as the callers build them; a property the
    caller's literal does not define is [None]. *)
Record UrlData := {
  ud_sessionId : string;
  ud_url : string;
  ud_status : UrlStatus;
  ud_processingTimeMs : option Z;
  ud_error : option string
}.

Record ErrorData := {
  ed_sessionId : string;
  ed_errorType : option string;
  ed_message : option string;
  ed_url : option string;
  ed_error : option string;
  ed_attempt : option Z
}.

(** [x || 0] *)
Definition orZero (x : option Z) : Z := default 0%Z x.

Definition recordSession (sessionId source status : string) (d : Data) : Data :=
  {| sessions := sessions d ++
       [{| sr_sessionId := sessionId; sr_source := source; sr_status := status;
           sr_pagesDiscovered := 0; sr_pagesIndexed := 0; sr_pagesFailed := 0;
           sr_chunksCreated := 0; sr_cost := 0 |}];
     urls := urls d;
     errors := errors d |}.

Definition recordUrl (urlData : UrlData) (d : Data) : Data :=
  {| sessions := sessions d;
     urls := urls d ++
       [{| ur_sessionId := ud_sessionId urlData;
           ur_url := ud_url urlData;
           ur_status := ud_status urlData;
           ur_title := "";
           ur_chunks := 0;
           ur_tokens := 0;
           ur_processingTime := orZero (ud_processingTimeMs urlData);
           ur_error := orStr (ud_error urlData) "";
           ur_cost := 0;
           ur_quality := "" |}];
     errors := errors d |}.

(** [categorizeError(error)] with [error] a string. *)
Definition categorizeError (error : string) : string :=
  let message := toLowerCase error in
  if includes message "timeout" then "timeout"
  else if includes message "404" || includes message "not found" then "not_found"
  else if includes message "403" || includes message "forbidden" then "forbidden"
  else if includes message "robots" then "robots_blocked"
  else if includes message "duplicate" then "duplicate"
  else if includes message "quality" then "low_quality"
  else if includes message "network" then "network"
  else if includes message "parse" then "parsing"
  else "unknown".

(** [recordError(errorData)]: the pushed literal evaluates
    [this.categorizeError(errorData.error)], and [categorizeError] starts
    with [error.toLowerCase()]; with [errorData.error] undefined that
    call throws before anything is pushed. *)
Definition recordError (errorData : ErrorData) (d : Data) : Outcome unit * Data :=
  match ed_error errorData with
  | None => (Throw (typeErrorUndefined "toLowerCase"), d)
  | Some error =>
      (Return tt,
       {| sessions := sessions d;
          urls := urls d;
          errors := errors d ++
            [{| er_sessionId := ed_sessionId errorData;
                er_url := ed_url errorData;
                er_error := error;
                er_errorType := categorizeError error;
                er_attempt := match ed_attempt errorData with
                              | Some a => if Z.eqb a 0 then 1%Z else a
                              | None => 1%Z
                              end |}] |})
  end.

(** [generateSummary]: the counts by status. *)
Definition countStatus (st : UrlStatus) (d : Data) : nat :=
  length (List.filter (fun u => bool_decide (ur_status u = st)) (urls d)).

End Reporter.

(** ** ProgressiveIndexer *)
Module Indexer.
Import Js Eff.

(** [this.options] *)
Record Options := {
  maxPages : nat;
  batchSize : nat;
  delayMs : Z;
  retryAttempts : Z;
  costBudget : Q;
  testMode : bool
}.

(** What [extractContent] returns. *)
Record Content := {
  c_title : string;
  c_text : string;
  c_language : string;
  c_author : string;
  c_publishedDate : option string;
  c_description : option string;
  c_headings : list string
}.

Definition Embedding : Type := list Q.

Record VectorMetadata := {
  vm_content : string;
  vm_url : string;
  vm_title : string;
  vm_source : string;
  vm_sourceType : string;
  vm_priority : Z;
  vm_chunkIndex : nat;
  vm_totalChunks : nat;
  vm_indexedAt : N;
  vm_language : string;
  vm_author : string;
  vm_publishedDate : option string;
  vm_headings : list string;
  vm_sessionId : string;
  vm_phase : Z
}.

Record Vector := {
  v_id : string;
  v_values : option Embedding;
  v_metadata : VectorMetadata
}.

(** The collaborators of the indexer.  Every observation of the outside
    world is numbered by the count of observations made before it (the
    [tick] of the state), so a collaborator may answer differently each
    time it is asked. *)
Record World := {
  now : nat -> N;                                         (* Date.now() *)
  goto : nat -> string -> Outcome unit;                   (* page.goto *)
  evaluate : nat -> string -> Outcome (option Content);   (* page.evaluate *)
  splitText : nat -> string -> Outcome (list string);     (* textSplitter.splitText *)
  embeddingsCreate : nat -> list string -> Outcome (list Embedding);
                                        (* openai.embeddings.create, then .data.map *)
  upsert : nat -> list Vector -> Outcome unit             (* index.upsert *)
}.

(** The calls made to the collaborators, in order. *)
Inductive Event :=
| EvGoto (url : string)
| EvEvaluate (url : string)
| EvSplit (text : string)
| EvEmbed (chunks : list string)
| EvUpsert (ids : list string)
| EvRecordError (errorType : string) (url : option string)
| EvDelay (ms : Z).

#[global] Instance Event_eq_dec : EqDecision Event.
Proof. solve_decision. Defined.

Record StatError := { se_url : string; se_error : string }.

(** [this.stats] *)
Record Stats := {
  urlsDiscovered : Z;
  urlsProcessed : Z;
  urlsSuccessful : Z;
  urlsFailed : Z;
  chunksCreated : Z;
  totalCost : Q;
  errors : list StatError
}.

(** The indexer object, the vector index it writes to and the log of
    its calls. *)
Record State := {
  stats : Stats;
  processedUrls : list string;
  reporter : Reporter.Data;
  store : gmap string Vector;
  tick : nat;
  trace : list Event
}.

(** [constructor] *)
Definition initialStats : Stats :=
  {| urlsDiscovered := 0; urlsProcessed := 0; urlsSuccessful := 0;
     urlsFailed := 0; chunksCreated := 0; totalCost := 0; errors := [] |}.

Definition initial (index : gmap string Vector) : State :=
  {| stats := initialStats; processedUrls := []; reporter := Reporter.empty;
     store := index; tick := 0; trace := [] |}.

(** Field updates *)
Definition setStats (f : Stats -> Stats) (s : State) : State :=
  {| stats := f (stats s); processedUrls := processedUrls s;
     reporter := reporter s; store := store s; tick := tick s; trace := trace s |}.

Definition setProcessedUrls (f : list string -> list string) (s : State) : State :=
  {| stats := stats s; processedUrls := f (processedUrls s);
     reporter := reporter s; store := store s; tick := tick s; trace := trace s |}.

Definition setReporter (r : Reporter.Data) (s : State) : State :=
  {| stats := stats s; processedUrls := processedUrls s;
     reporter := r; store := store s; tick := tick s; trace := trace s |}.

Definition setStore (m : gmap string Vector) (s : State) : State :=
  {| stats := stats s; processedUrls := processedUrls s;
     reporter := reporter s; store := m; tick := tick s; trace := trace s |}.

Definition observed (evs : list Event) (s : State) : State :=
  {| stats := stats s; processedUrls := processedUrls s;
     reporter := reporter s; store := store s; tick := S (tick s);
     trace := trace s ++ evs |}.

Definition logged (ev : Event) (s : State) : State :=
  {| stats := stats s; processedUrls := processedUrls s;
     reporter := reporter s; store := store s; tick := tick s;
     trace := trace s ++ [ev] |}.

Definition incSuccessful (st : Stats) : Stats :=
  {| urlsDiscovered := urlsDiscovered st; urlsProcessed := urlsProcessed st;
     urlsSuccessful := urlsSuccessful st + 1; urlsFailed := urlsFailed st;
     chunksCreated := chunksCreated st; totalCost := totalCost st;
     errors := errors st |}.

Definition incFailed (st : Stats) : Stats :=
  {| urlsDiscovered := urlsDiscovered st; urlsProcessed := urlsProcessed st;
     urlsSuccessful := urlsSuccessful st; urlsFailed := urlsFailed st + 1;
     chunksCreated := chunksCreated st; totalCost := totalCost st;
     errors := errors st |}.

Definition incProcessed (st : Stats) : Stats :=
  {| urlsDiscovered := urlsDiscovered st; urlsProcessed := urlsProcessed st + 1;
     urlsSuccessful := urlsSuccessful st; urlsFailed := urlsFailed st;
     chunksCreated := chunksCreated st; totalCost := totalCost st;
     errors := errors st |}.

Definition addChunksAndCost (n : Z) (c : Q) (st : Stats) : Stats :=
  {| urlsDiscovered := urlsDiscovered st; urlsProcessed := urlsProcessed st;
     urlsSuccessful := urlsSuccessful st; urlsFailed := urlsFailed st;
     chunksCreated := chunksCreated st + n; totalCost := (totalCost st + c)%Q;
     errors := errors st |}.

Definition pushError (e : StatError) (st : Stats) : Stats :=
  {| urlsDiscovered := urlsDiscovered st; urlsProcessed := urlsProcessed st;
     urlsSuccessful := urlsSuccessful st; urlsFailed := urlsFailed st;
     chunksCreated := chunksCreated st; totalCost := totalCost st;
     errors := errors st ++ [e] |}.

(** [estimateCost(chunks)] *)
Definition estimateCost (chunks : list string) : Q :=
  let tokensPerChunk := 500%Z in
  let totalTokens := (Z.of_nat (length chunks) * tokensPerChunk)%Z in
  let costPer1kTokens := (13 # 100000)%Q in
  ((inject_Z totalTokens / inject_Z 1000) * costPer1kTokens)%Q.

(** [createBatches(array, batchSize)]: the loop [for (i = 0; i <
    array.length; i += batchSize)] pushes [array.slice(i, i + batchSize)];
    [fuel] bounds its iterations and [None] says the bound was hit (with
    [batchSize = 0] the loop never advances). *)
Fixpoint createBatchesFrom {A} (fuel : nat) (array : list A) (batchSize : nat)
  : option (list (list A)) :=
  match array with
  | [] => Some []
  | _ :: _ =>
      match fuel with
      | O => None
      | S fuel' =>
          match createBatchesFrom fuel' (skipn batchSize array) batchSize with
          | Some batches => Some (firstn batchSize array :: batches)
          | None => None
          end
      end
  end.

Definition createBatches {A} (array : list A) (batchSize : nat)
  : option (list (list A)) :=
  createBatchesFrom (length array) array batchSize.

(** The template literal [`guimera-p1-${Date.now()}-${i}`]. *)
Definition vectorId (t : N) (i : nat) : string :=
  "guimera-p1-" ++ showN t ++ "-" ++ showN (N.of_nat i).

(** Modelled from the spec: the vector index behind [index.upsert], an
    external service.  "Idempotent by id: re-upserting the same id
    overwrites it." *)
Definition upsertAll (vectors : list Vector) (index : gmap string Vector)
  : gmap string Vector :=
  fold_left (fun m v => <[v_id v := v]> m) vectors index.

Section Methods.
Variable w : World.
Variable options : Options.
Variable sessionId : string.

Local Abbreviation Task := (M State).

(** One observation of a collaborator: its answer at the current
    tick, the tick advanced, the call logged. *)
Definition observe {A} (evs : list Event) (answer : nat -> Outcome A) : Task A :=
  fun s => (answer (tick s), observed evs s).

Definition dateNow : Task N := observe [] (fun k => Return (now w k)).

(** [delay(ms)] *)
Definition delay (ms : Z) : Task unit :=
  fun s => (Return tt, logged (EvDelay ms) s).

Definition reporterRecordUrl (url : string) (status : Reporter.UrlStatus)
           (processingTimeMs : option Z) (error : option string) : Task unit :=
  modify (fun s =>
    setReporter
      (Reporter.recordUrl
         {| Reporter.ud_sessionId := sessionId;
            Reporter.ud_url := url;
            Reporter.ud_status := status;
            Reporter.ud_processingTimeMs := processingTimeMs;
            Reporter.ud_error := error |}
         (reporter s)) s).

(** [this.reporter.recordError({ sessionId, errorType, message, url })]:
    the literals of this class define no [error] and no [attempt]
    property. *)
Definition reporterRecordError (errorType : string) (message : string)
           (url : option string) : Task unit :=
  fun s =>
    let s1 := logged (EvRecordError errorType url) s in
    let '(r, d) :=
      Reporter.recordError
        {| Reporter.ed_sessionId := sessionId;
           Reporter.ed_errorType := Some errorType;
           Reporter.ed_message := Some message;
           Reporter.ed_url := url;
           Reporter.ed_error := None;
           Reporter.ed_attempt := None |}
        (reporter s1) in
    (r, setReporter d s1).

(** [extractContent(page, url)] *)
Definition extractContent (url : string) : Task (option Content) :=
  observe [EvEvaluate url] (fun k => evaluate w k url).

(** [createEmbeddings(chunks, url)] *)
Definition createEmbeddings (chunks : list string) (url : string)
  : Task (list Embedding) :=
  try_catch
    (if testMode options then
       ret (map (fun _ => repeat (0%Q) 3072) chunks)
     else
       observe [EvEmbed chunks] (fun k => embeddingsCreate w k chunks))
    (fun error =>
       reporterRecordError "OPENAI_EMBEDDING_ERROR" (exn_message error) (Some url) ;;
       throw error).

(** The [chunks.map((chunk, i) => ({ id: ..., ... }))] of [indexChunks];
    each element reads the clock for its [id] and for [indexedAt]. *)
Fixpoint buildVectors (chunks : list string) (i : nat) (totalChunks : nat)
         (embeddings : list Embedding) (content : Content) (url : string)
  : Task (list Vector) :=
  match chunks with
  | [] => ret []
  | chunk :: rest =>
      t <- dateNow ;;
      indexedAt <- dateNow ;;
      let v :=
        {| v_id := vectorId t i;
           v_values := embeddings !! i;
           v_metadata :=
             {| vm_content := chunk;
                vm_url := url;
                vm_title := c_title content;
                vm_source := "guimera.info";
                vm_sourceType := "main_site";
                vm_priority := 1;
                vm_chunkIndex := i;
                vm_totalChunks := totalChunks;
                vm_indexedAt := indexedAt;
                vm_language := orStr (Some (c_language content)) "ca";
                vm_author := c_author content;
                vm_publishedDate := c_publishedDate content;
                vm_headings := c_headings content;
                vm_sessionId := sessionId;
                vm_phase := 1 |} |} in
      vs <- buildVectors rest (S i) totalChunks embeddings content url ;;
      ret (v :: vs)
  end.

(** [index.upsert(vectors)] *)
Definition indexUpsert (vectors : list Vector) : Task unit :=
  fun s =>
    let s' := observed [EvUpsert (map v_id vectors)] s in
    match upsert w (tick s) vectors with
    | Return _ => (Return tt, setStore (upsertAll vectors (store s')) s')
    | r => (r, s')
    end.

(** [indexChunks(chunks, embeddings, content, url)] *)
Definition indexChunks (chunks : list string) (embeddings : list Embedding)
           (content : Content) (url : string) : Task unit :=
  try_catch
    (if testMode options then ret tt
     else
       vectors <- buildVectors chunks 0 (length chunks) embeddings content url ;;
       indexUpsert vectors)
    (fun error =>
       reporterRecordError "PINECONE_INDEXING_ERROR" (exn_message error) (Some url) ;;
       throw error).

(** The [try] block of [processUrl] after [page.goto]. *)
Definition afterGoto (url : string) : Task bool :=
  content <- extractContent url ;;
  match content with
  | None =>
      reporterRecordError "INSUFFICIENT_CONTENT"
        ("Content too short: " ++ showN 0 ++ " chars") (Some url) ;;
      ret false
  | Some content =>
      if Nat.ltb (String.length (c_text content)) 100 then
        reporterRecordError "INSUFFICIENT_CONTENT"
          ("Content too short: "
           ++ showN (N.of_nat (String.length (c_text content))) ++ " chars")
          (Some url) ;;
        ret false
      else
        chunks <- observe [EvSplit (c_text content)]
                    (fun k => splitText w k (c_text content)) ;;
        if Nat.eqb (length chunks) 0 then
          reporterRecordError "NO_CHUNKS_CREATED"
            "Text splitter returned empty chunks" (Some url) ;;
          ret false
        else
          embeddings <- createEmbeddings chunks url ;;
          if Nat.eqb (length embeddings) 0 then
            reporterRecordError "EMBEDDING_FAILED"
              "Failed to create embeddings" (Some url) ;;
            ret false
          else
            indexChunks chunks embeddings content url ;;
            modify (setStats (addChunksAndCost (Z.of_nat (length chunks))
                                               (estimateCost chunks))) ;;
            ret true
  end.

(** The [try] block of [processUrl]. *)
Definition processUrlBody (url : string) : Task bool :=
  observe [EvGoto url] (fun k => goto w k url) ;;
  afterGoto url.

(** [processUrl(page, url, attempt)].  The recursive call of the
    [catch] block is taken at most [retryAttempts - attempt] times,
    which [retriesLeft] counts down. *)
Fixpoint processUrlFrom (retriesLeft : nat) (url : string) (attempt : Z)
  : Task bool :=
  try_catch (processUrlBody url)
    (fun error =>
       if (attempt <? retryAttempts options)%Z then
         match retriesLeft with
         | S k =>
             delay (2000 * attempt) ;;
             processUrlFrom k url (attempt + 1)
         | O => throw error
         end
       else throw error).

Definition processUrl (url : string) (attempt : Z) : Task bool :=
  processUrlFrom (Z.to_nat (retryAttempts options - attempt)) url attempt.

(** The body of the [for] loop of [processBatch] for one [url] that is
    not in [processedUrls]. *)
Definition processOne (url : string) (batchNum urlNum : Z) : Task unit :=
  startTime <- dateNow ;;
  reporterRecordUrl url Reporter.processing None None ;;
  try_catch
    (success <- processUrl url 1 ;;
     t <- dateNow ;;
     let processingTime := (Z.of_N t - Z.of_N startTime)%Z in
     (if success : bool then
        modify (setStats incSuccessful) ;;
        reporterRecordUrl url Reporter.indexed (Some processingTime) None
      else
        modify (setStats incFailed) ;;
        reporterRecordUrl url Reporter.failed (Some processingTime) None) ;;
     modify (setProcessedUrls (set_add url)) ;;
     modify (setStats incProcessed))
    (fun error =>
       t <- dateNow ;;
       let processingTime := (Z.of_N t - Z.of_N startTime)%Z in
       modify (setStats incFailed) ;;
       modify (setStats incProcessed) ;;
       reporterRecordError "URL_PROCESSING_ERROR" (exn_message error) (Some url) ;;
       reporterRecordUrl url Reporter.failed (Some processingTime)
                         (Some (exn_message error)) ;;
       modify (setStats (pushError {| se_url := url;
                                      se_error := exn_message error |}))) ;;
  delay 1000.

(** [processBatch(page, urls, batchNum)], from position [urlNum - 1]. *)
Fixpoint processBatchFrom (urls : list string) (batchNum urlNum : Z) : Task unit :=
  match urls with
  | [] => ret tt
  | url :: rest =>
      s <- get ;;
      if set_has url (processedUrls s) then
        processBatchFrom rest batchNum (urlNum + 1)
      else
        processOne url batchNum urlNum ;;
        processBatchFrom rest batchNum (urlNum + 1)
  end.

Definition processBatch (urls : list string) (batchNum : Z) : Task unit :=
  processBatchFrom urls batchNum 1.

(** The [for] loop of [processBatches] from batch index [i];
    [total] is [batches.length]. *)
Fixpoint processBatchesFrom (batches : list (list string)) (i : Z) (total : Z)
  : Task unit :=
  match batches with
  | [] => ret tt
  | batch :: rest =>
      let batchNum := (i + 1)%Z in
      processBatch batch batchNum ;;
      s <- get ;;
      if Qltb (costBudget options) (totalCost (stats s)) then
        ret tt                                             (* break *)
      else
        (if (i <? total - 1)%Z then delay (delayMs options) else ret tt) ;;
        processBatchesFrom rest (i + 1) total
  end.

(** [processBatches(page, urls)] *)
Definition processBatches (urls : list string) : Task unit :=
  match createBatches urls (batchSize options) with
  | Some batches => processBatchesFrom batches 0 (Z.of_nat (length batches))
  | None => fun s => (Diverge, s)
  end.

End Methods.
End Indexer.

(** ** IndexingTracker *)
Module Tracker.
Import Js Eff.

(** [session.stats] *)
Record SessionStats := {
  pagesDiscovered : Z;
  pagesProcessed : Z;
  pagesIndexed : Z;
  pagesFailed : Z;
  pagesSkipped : Z;
  chunksCreated : Z;
  tokensProcessed : Z;
  avgProcessingTime : Q;
  errorsEncountered : Z
}.

(** [session.costs] *)
Record Costs := {
  embeddingTokens : Z;
  embeddingCost : Q;
  apiCalls : Z;
  totalCost : Q
}.

(** Values of [indexedPages] and [failedUrls]; a [quality] of [None]
    stands for the string ['unknown'], a time for an ISO timestamp. *)
Record IndexedPage := {
  ip_chunks : Z;
  ip_tokens : Z;
  ip_timestamp : N;
  ip_title : string;
  ip_contentLength : Z;
  ip_quality : option Q
}.

Record FailedInfo := {
  fi_error : string;
  fi_attempts : Z;
  fi_lastAttempt : N;
  fi_errorType : string
}.

Record SessionError := {
  se_url : string;
  se_error : string;
  se_timestamp : N;
  se_attempt : Z
}.

Record Warning := {
  wn_url : string;
  wn_type : string;
  wn_reason : string;
  wn_score : Q;
  wn_timestamp : N
}.

Record Session := {
  sessionId : string;
  sourceKey : string;
  startTime : N;
  endTime : option N;
  status : string;
  discoveredUrls : list string;
  queuedUrls : list string;
  processedUrls : list string;
  failedUrls : gmap string FailedInfo;
  skippedUrls : gmap string string;
  indexedPages : gmap string IndexedPage;
  duplicatePages : list string;
  lowQualityPages : list string;
  stats : SessionStats;
  errors : list SessionError;
  warnings : list Warning;
  costs : Costs
}.

Record SourceProgress := {
  sp_sessions : Z;
  sp_totalPages : Z;
  sp_lastUpdate : option N
}.

Record GlobalStats := {
  totalPagesDiscovered : Z;
  totalPagesIndexed : Z;
  totalPagesFailed : Z;
  totalChunksCreated : Z;
  sourcesProgress : gmap string SourceProgress;
  lastUpdate : option N
}.

(** [this.state]; the files written by [saveState], [logEvent] and the
    report generators are not part of it. *)
Record State := {
  sessions : gmap string Session;
  globalStats : GlobalStats;
  currentSession : option string
}.

(** [constructor] *)
Definition initial : State :=
  {| sessions := ∅;
     globalStats :=
       {| totalPagesDiscovered := 0; totalPagesIndexed := 0;
          totalPagesFailed := 0; totalChunksCreated := 0;
          sourcesProgress := ∅; lastUpdate := None |};
     currentSession := None |}.

(** The session literal of [startIndexingSession]. *)
Definition newSession (sid src : string) (now : N) : Session :=
  {| sessionId := sid;
     sourceKey := src;
     startTime := now;
     endTime := None;
     status := "running";
     discoveredUrls := [];
     queuedUrls := [];
     processedUrls := [];
     failedUrls := ∅;
     skippedUrls := ∅;
     indexedPages := ∅;
     duplicatePages := [];
     lowQualityPages := [];
     stats :=
       {| pagesDiscovered := 0; pagesProcessed := 0; pagesIndexed := 0;
          pagesFailed := 0; pagesSkipped := 0; chunksCreated := 0;
          tokensProcessed := 0; avgProcessingTime := 0; errorsEncountered := 0 |};
     errors := [];
     warnings := [];
     costs := {| embeddingTokens := 0; embeddingCost := 0; apiCalls := 0;
                 totalCost := 0 |} |}.

(** Field updates of a session *)
Definition setUrls (d q p : list string) (s : Session) : Session :=
  {| sessionId := sessionId s; sourceKey := sourceKey s; startTime := startTime s;
     endTime := endTime s; status := status s;
     discoveredUrls := d; queuedUrls := q; processedUrls := p;
     failedUrls := failedUrls s; skippedUrls := skippedUrls s;
     indexedPages := indexedPages s; duplicatePages := duplicatePages s;
     lowQualityPages := lowQualityPages s; stats := stats s;
     errors := errors s; warnings := warnings s; costs := costs s |}.

Definition setMaps (f : gmap string FailedInfo) (k : gmap string string)
           (i : gmap string IndexedPage) (s : Session) : Session :=
  {| sessionId := sessionId s; sourceKey := sourceKey s; startTime := startTime s;
     endTime := endTime s; status := status s;
     discoveredUrls := discoveredUrls s; queuedUrls := queuedUrls s;
     processedUrls := processedUrls s;
     failedUrls := f; skippedUrls := k; indexedPages := i;
     duplicatePages := duplicatePages s;
     lowQualityPages := lowQualityPages s; stats := stats s;
     errors := errors s; warnings := warnings s; costs := costs s |}.

Definition setStats (st : SessionStats) (s : Session) : Session :=
  {| sessionId := sessionId s; sourceKey := sourceKey s; startTime := startTime s;
     endTime := endTime s; status := status s;
     discoveredUrls := discoveredUrls s; queuedUrls := queuedUrls s;
     processedUrls := processedUrls s;
     failedUrls := failedUrls s; skippedUrls := skippedUrls s;
     indexedPages := indexedPages s; duplicatePages := duplicatePages s;
     lowQualityPages := lowQualityPages s; stats := st;
     errors := errors s; warnings := warnings s; costs := costs s |}.

Definition setCosts (c : Costs) (s : Session) : Session :=
  {| sessionId := sessionId s; sourceKey := sourceKey s; startTime := startTime s;
     endTime := endTime s; status := status s;
     discoveredUrls := discoveredUrls s; queuedUrls := queuedUrls s;
     processedUrls := processedUrls s;
     failedUrls := failedUrls s; skippedUrls := skippedUrls s;
     indexedPages := indexedPages s; duplicatePages := duplicatePages s;
     lowQualityPages := lowQualityPages s; stats := stats s;
     errors := errors s; warnings := warnings s; costs := c |}.

Definition setIssues (e : list SessionError) (wn : list Warning)
           (dup low : list string) (s : Session) : Session :=
  {| sessionId := sessionId s; sourceKey := sourceKey s; startTime := startTime s;
     endTime := endTime s; status := status s;
     discoveredUrls := discoveredUrls s; queuedUrls := queuedUrls s;
     processedUrls := processedUrls s;
     failedUrls := failedUrls s; skippedUrls := skippedUrls s;
     indexedPages := indexedPages s; duplicatePages := dup;
     lowQualityPages := low; stats := stats s;
     errors := e; warnings := wn; costs := costs s |}.

Definition setEnd (t : N) (st : string) (s : Session) : Session :=
  {| sessionId := sessionId s; sourceKey := sourceKey s; startTime := startTime s;
     endTime := Some t; status := st;
     discoveredUrls := discoveredUrls s; queuedUrls := queuedUrls s;
     processedUrls := processedUrls s;
     failedUrls := failedUrls s; skippedUrls := skippedUrls s;
     indexedPages := indexedPages s; duplicatePages := duplicatePages s;
     lowQualityPages := lowQualityPages s; stats := stats s;
     errors := errors s; warnings := warnings s; costs := costs s |}.

(** [this.state.sessions.set(sessionId, session)], also the way the
    in-place mutation of a stored session shows in the table. *)
Definition putSession (sid : string) (s : Session) (t : State) : State :=
  {| sessions := <[sid := s]> (sessions t);
     globalStats := globalStats t;
     currentSession := currentSession t |}.

(** [startIndexingSession(sourceKey, config)] at clock reading [now];
    returns the session id. *)
Definition startIndexingSession (src : string) (now : N) (t : State)
  : string * State :=
  let sid := src ++ "_" ++ showN now in
  (sid,
   {| sessions := <[sid := newSession sid src now]> (sessions t);
      globalStats := globalStats t;
      currentSession := Some sid |}).

(** [updateGlobalStats(session)] *)
Definition updateGlobalStats (s : Session) (now : N) (g : GlobalStats)
  : GlobalStats :=
  let progress :=
    default {| sp_sessions := 0; sp_totalPages := 0; sp_lastUpdate := None |}
            (sourcesProgress g !! sourceKey s) in
  {| totalPagesDiscovered := totalPagesDiscovered g;
     totalPagesIndexed := totalPagesIndexed g + pagesIndexed (stats s);
     totalPagesFailed := totalPagesFailed g + pagesFailed (stats s);
     totalChunksCreated := totalChunksCreated g + chunksCreated (stats s);
     sourcesProgress :=
       <[sourceKey s :=
           {| sp_sessions := sp_sessions progress + 1;
              sp_totalPages := sp_totalPages progress + pagesIndexed (stats s);
              sp_lastUpdate := Some (default (startTime s) (endTime s)) |}]>
         (sourcesProgress g);
     lastUpdate := Some now |}.

(** [endIndexingSession(sessionId, status)] *)
Definition endIndexingSession (sid : string) (st : string) (now : N) (t : State)
  : State :=
  match sessions t !! sid with
  | None => t
  | Some session =>
      let session' := setEnd now st session in
      {| sessions := <[sid := session']> (sessions t);
         globalStats := updateGlobalStats session' now (globalStats t);
         currentSession :=
           if bool_decide (currentSession t = Some sid) then None
           else currentSession t |}
  end.

(** The [for (const url of urls)] loop of [recordDiscoveredUrls] on the
    two sets and [newUrls]. *)
Fixpoint discoverLoop (urls : list string) (discovered queued newUrls : list string)
  : list string * list string * list string :=
  match urls with
  | [] => (discovered, queued, newUrls)
  | url :: rest =>
      if set_has url discovered then discoverLoop rest discovered queued newUrls
      else discoverLoop rest (set_add url discovered) (set_add url queued)
                        (newUrls ++ [url])
  end.

Definition addDiscovered (n : Z) (st : SessionStats) : SessionStats :=
  {| pagesDiscovered := pagesDiscovered st + n; pagesProcessed := pagesProcessed st;
     pagesIndexed := pagesIndexed st; pagesFailed := pagesFailed st;
     pagesSkipped := pagesSkipped st; chunksCreated := chunksCreated st;
     tokensProcessed := tokensProcessed st;
     avgProcessingTime := avgProcessingTime st;
     errorsEncountered := errorsEncountered st |}.

(** [recordDiscoveredUrls(sessionId, urls, source)]; returns
    [newUrls.length], or nothing for an unknown session. *)
Definition recordDiscoveredUrls (sid : string) (urls : list string) (t : State)
  : option Z * State :=
  match sessions t !! sid with
  | None => (None, t)
  | Some session =>
      let '(d, q, newUrls) :=
        discoverLoop urls (discoveredUrls session) (queuedUrls session) [] in
      let session' :=
        setStats (addDiscovered (Z.of_nat (length newUrls)) (stats session))
                 (setUrls d q (processedUrls session) session) in
      (Some (Z.of_nat (length newUrls)), putSession sid session' t)
  end.

(** [recordProcessingStart(sessionId, url)] *)
Definition recordProcessingStart (sid url : string) (t : State) : State :=
  match sessions t !! sid with
  | None => t
  | Some session =>
      putSession sid
        (setUrls (discoveredUrls session) (set_delete url (queuedUrls session))
                 (processedUrls session) session) t
  end.

(** The [result] object of [recordProcessingSuccess]. *)
Record Result := {
  r_chunks : option Z;
  r_tokens : option Z;
  r_title : option string;
  r_contentLength : option Z;
  r_quality : option Q;
  r_embeddingCost : option Q;
  r_embeddingTokens : option Z;
  r_apiCalls : option Z
}.

(** [x || d] on numbers: [d] when [x] is missing or zero. *)
Definition orZ (x : option Z) (d : Z) : Z :=
  match x with
  | Some v => if Z.eqb v 0 then d else v
  | None => d
  end.

Definition truthyQ (x : option Q) : option Q :=
  match x with
  | Some v => if Qeq_bool v 0 then None else Some v
  | None => None
  end.

Definition successStats (result : Result) (st : SessionStats) : SessionStats :=
  {| pagesDiscovered := pagesDiscovered st;
     pagesProcessed := pagesProcessed st + 1;
     pagesIndexed := pagesIndexed st + 1;
     pagesFailed := pagesFailed st;
     pagesSkipped := pagesSkipped st;
     chunksCreated := chunksCreated st + orZ (r_chunks result) 0;
     tokensProcessed := tokensProcessed st + orZ (r_tokens result) 0;
     avgProcessingTime := avgProcessingTime st;
     errorsEncountered := errorsEncountered st |}.

Definition successCosts (result : Result) (c : Costs) : Costs :=
  match truthyQ (r_embeddingCost result) with
  | Some cost =>
      {| embeddingTokens := embeddingTokens c + orZ (r_embeddingTokens result) 0;
         embeddingCost := (embeddingCost c + cost)%Q;
         apiCalls := apiCalls c + orZ (r_apiCalls result) 1;
         totalCost := (totalCost c + cost)%Q |}
  | None => c
  end.

(** [recordProcessingSuccess(sessionId, url, result)]; a missing
    [result] makes [result.chunks] throw right after
    [processedUrls.add(url)]. *)
Definition recordProcessingSuccess (sid url : string) (result : option Result)
           (now : N) (t : State) : Outcome unit * State :=
  match sessions t !! sid with
  | None => (Return tt, t)
  | Some session =>
      let session1 :=
        setUrls (discoveredUrls session) (queuedUrls session)
                (set_add url (processedUrls session)) session in
      match result with
      | None => (Throw (typeErrorUndefined "chunks"), putSession sid session1 t)
      | Some result =>
          let page :=
            {| ip_chunks := orZ (r_chunks result) 0;
               ip_tokens := orZ (r_tokens result) 0;
               ip_timestamp := now;
               ip_title := orStr (r_title result) "";
               ip_contentLength := orZ (r_contentLength result) 0;
               ip_quality := truthyQ (r_quality result) |} in
          let session2 :=
            setMaps (failedUrls session1) (skippedUrls session1)
                    (<[url := page]> (indexedPages session1)) session1 in
          let session3 := setStats (successStats result (stats session2)) session2 in
          let session4 := setCosts (successCosts result (costs session3)) session3 in
          (Return tt, putSession sid session4 t)
      end
  end.

(** The [error] argument of [recordProcessingFailure]: an object with a
    [message] property and a [toString()], a plain string, or
    [undefined]/[null]. *)
Inductive ErrorArg :=
| ErrObject (message : option string) (toString : string)
| ErrString (text : string)
| ErrNullish.

(** [error.message || error] rendered as text *)
Definition errorText (error : ErrorArg) : string :=
  match error with
  | ErrObject message toString => orStr message toString
  | ErrString text => text
  | ErrNullish => ""
  end.

(** [categorizeError(error)] of this class *)
Definition categorizeError (error : ErrorArg) : string :=
  let message := errorText error in
  if includes message "timeout" then "timeout"
  else if includes message "404" || includes message "not found" then "not_found"
  else if includes message "403" || includes message "forbidden" then "forbidden"
  else if includes message "robots.txt" then "robots_blocked"
  else if includes message "content too short" then "low_quality"
  else if includes message "duplicate" then "duplicate"
  else if includes message "network" || includes message "ENOTFOUND" then "network"
  else if includes message "parse" || includes message "selector" then "parsing"
  else "unknown".

Definition failureStats (st : SessionStats) : SessionStats :=
  {| pagesDiscovered := pagesDiscovered st;
     pagesProcessed := pagesProcessed st + 1;
     pagesIndexed := pagesIndexed st;
     pagesFailed := pagesFailed st + 1;
     pagesSkipped := pagesSkipped st;
     chunksCreated := chunksCreated st;
     tokensProcessed := tokensProcessed st;
     avgProcessingTime := avgProcessingTime st;
     errorsEncountered := errorsEncountered st + 1 |}.

(** [recordProcessingFailure(sessionId, url, error, attempt)]; with
    [error] undefined, [error.message] throws right after
    [processedUrls.add(url)]. *)
Definition recordProcessingFailure (sid url : string) (error : ErrorArg)
           (attempt : Z) (now : N) (t : State) : Outcome unit * State :=
  match sessions t !! sid with
  | None => (Return tt, t)
  | Some session =>
      let session1 :=
        setUrls (discoveredUrls session) (queuedUrls session)
                (set_add url (processedUrls session)) session in
      match error with
      | ErrNullish => (Throw (typeErrorUndefined "message"), putSession sid session1 t)
      | _ =>
          let info :=
            {| fi_error := errorText error;
               fi_attempts := attempt;
               fi_lastAttempt := now;
               fi_errorType := categorizeError error |} in
          let session2 :=
            setMaps (<[url := info]> (failedUrls session1)) (skippedUrls session1)
                    (indexedPages session1) session1 in
          let session3 := setStats (failureStats (stats session2)) session2 in
          let session4 :=
            setIssues (errors session3 ++
                         [{| se_url := url; se_error := errorText error;
                             se_timestamp := now; se_attempt := attempt |}])
                      (warnings session3) (duplicatePages session3)
                      (lowQualityPages session3) session3 in
          (Return tt, putSession sid session4 t)
      end
  end.

Definition skippedStats (st : SessionStats) : SessionStats :=
  {| pagesDiscovered := pagesDiscovered st;
     pagesProcessed := pagesProcessed st;
     pagesIndexed := pagesIndexed st;
     pagesFailed := pagesFailed st;
     pagesSkipped := pagesSkipped st + 1;
     chunksCreated := chunksCreated st;
     tokensProcessed := tokensProcessed st;
     avgProcessingTime := avgProcessingTime st;
     errorsEncountered := errorsEncountered st |}.

(** [recordSkippedUrl(sessionId, url, reason)] *)
Definition recordSkippedUrl (sid url reason : string) (t : State) : State :=
  match sessions t !! sid with
  | None => t
  | Some session =>
      let session1 :=
        setUrls (discoveredUrls session) (set_delete url (queuedUrls session))
                (processedUrls session) session in
      let session2 :=
        setMaps (failedUrls session1) (<[url := reason]> (skippedUrls session1))
                (indexedPages session1) session1 in
      putSession sid (setStats (skippedStats (stats session2)) session2) t
  end.

(** [recordDuplicateContent(sessionId, url, similarUrl)] *)
Definition recordDuplicateContent (sid url : string) (t : State) : State :=
  match sessions t !! sid with
  | None => t
  | Some session =>
      putSession sid
        (setIssues (errors session) (warnings session)
                   (set_add url (duplicatePages session))
                   (lowQualityPages session) session) t
  end.

(** [recordLowQualityContent(sessionId, url, reason, score)] *)
Definition recordLowQualityContent (sid url reason : string) (score : Q)
           (now : N) (t : State) : State :=
  match sessions t !! sid with
  | None => t
  | Some session =>
      putSession sid
        (setIssues (errors session)
                   (warnings session ++
                      [{| wn_url := url; wn_type := "low_quality";
                          wn_reason := reason; wn_score := score;
                          wn_timestamp := now |}])
                   (duplicatePages session)
                   (set_add url (lowQualityPages session)) session) t
  end.

(** The state-changing calls of the tracker's API. *)
Inductive Op :=
| StartIndexingSession (sourceKey : string) (now : N)
| EndIndexingSession (sid status : string) (now : N)
| RecordDiscoveredUrls (sid : string) (urls : list string)
| RecordProcessingStart (sid url : string)
| RecordProcessingSuccess (sid url : string) (result : option Result) (now : N)
| RecordProcessingFailure (sid url : string) (error : ErrorArg) (attempt : Z) (now : N)
| RecordSkippedUrl (sid url reason : string)
| RecordDuplicateContent (sid url : string)
| RecordLowQualityContent (sid url reason : string) (score : Q) (now : N).

(** The state after a call (whether it returned or threw). *)
Definition step (op : Op) (t : State) : State :=
  match op with
  | StartIndexingSession src now => snd (startIndexingSession src now t)
  | EndIndexingSession sid st now => endIndexingSession sid st now t
  | RecordDiscoveredUrls sid urls => snd (recordDiscoveredUrls sid urls t)
  | RecordProcessingStart sid url => recordProcessingStart sid url t
  | RecordProcessingSuccess sid url result now =>
      snd (recordProcessingSuccess sid url result now t)
  | RecordProcessingFailure sid url error attempt now =>
      snd (recordProcessingFailure sid url error attempt now t)
  | RecordSkippedUrl sid url reason => recordSkippedUrl sid url reason t
  | RecordDuplicateContent sid url => recordDuplicateContent sid url t
  | RecordLowQualityContent sid url reason score now =>
      recordLowQualityContent sid url reason score now t
  end.

Definition run (ops : list Op) (t : State) : State :=
  fold_left (fun t op => step op t) ops t.

End Tracker.

(** ** Notions used to state the properties of the indexer *)
Module IndexerSpec.
Import Js Eff Indexer.
Local Open Scope list_scope.

(** Events other than a page load. *)
Definition notGoto (e : Event) : Prop :=
  match e with EvGoto _ => False | _ => True end.

(** The number of [page.goto(url)] calls in a log: the attempts made on
    [url]. *)
Definition gotos (url : string) (evs : list Event) : nat :=
  count_occ Event_eq_dec evs (EvGoto url).
Arguments gotos : simpl never.

(** What [processUrl] and the steps below it never touch: the
    reporter's data, [processedUrls] and the per-URL counters. *)
Record kept (s s' : State) : Prop := {
  kept_reporter : reporter s' = reporter s;
  kept_processedUrls : processedUrls s' = processedUrls s;
  kept_urlsDiscovered : urlsDiscovered (stats s') = urlsDiscovered (stats s);
  kept_urlsProcessed : urlsProcessed (stats s') = urlsProcessed (stats s);
  kept_urlsSuccessful : urlsSuccessful (stats s') = urlsSuccessful (stats s);
  kept_urlsFailed : urlsFailed (stats s') = urlsFailed (stats s);
  kept_errors : errors (stats s') = errors (stats s)
}.

(** [s'] comes from [s] by steps that keep the above and log only
    events satisfying [P]. *)
Definition grows (P : Event -> Prop) (s s' : State) : Prop :=
  kept s s' /\ exists evs, trace s' = trace s ++ evs /\ Forall P evs.

Definition framed (P : Event -> Prop) {A} (c : M State A) : Prop :=
  forall s, grows P s (snd (c s)).

(** The steps that, in addition, leave the index, the chunk count and
    the cost alone. *)
Definition idle (s s' : State) : Prop :=
  kept s s' /\ store s' = store s
  /\ chunksCreated (stats s') = chunksCreated (stats s)
  /\ totalCost (stats s') = totalCost (stats s).

(** The record pushed by [recordUrl({ sessionId, url, status: 'processing' })]. *)
Definition processingRecord (sessionId url : string) : Reporter.UrlRecord :=
  {| Reporter.ur_sessionId := sessionId;
     Reporter.ur_url := url;
     Reporter.ur_status := Reporter.processing;
     Reporter.ur_title := "";
     Reporter.ur_chunks := 0;
     Reporter.ur_tokens := 0;
     Reporter.ur_processingTime := 0;
     Reporter.ur_error := "";
     Reporter.ur_cost := 0;
     Reporter.ur_quality := "" |}.

(** The state in which [processBatch] calls [processUrl]: the clock has
    been read and the [processing] record pushed. *)
Definition entered (sessionId url : string) (s : State) : State :=
  setReporter
    (Reporter.recordUrl
       {| Reporter.ud_sessionId := sessionId;
          Reporter.ud_url := url;
          Reporter.ud_status := Reporter.processing;
          Reporter.ud_processingTimeMs := None;
          Reporter.ud_error := None |}
       (reporter (observed [] s)))
    (observed [] s).

(** The state in which the [catch] block of [processBatch] is left by
    the exception of its own [recordError] call; [s2] is the state in
    which [processUrl] threw. *)
Definition aborted (url : string) (s2 : State) : State :=
  logged (EvRecordError "URL_PROCESSING_ERROR" (Some url))
    (setStats incProcessed (setStats incFailed (observed [] s2))).

(** The ids given to [n] chunks when the clock is first read at tick
    [k]: chunk [j] reads the clock at tick [k + 2 * j]. *)
Definition idsFrom (w : World) (k n : nat) : list string :=
  map (fun j => vectorId (now w (k + 2 * j)) j) (seq 0 n).

(** The batches that a run of the loop of [processBatches] starts, each
    with the state in which it is started and its number: the loop
    replayed, stopping where it stops (an exception, or the budget
    check after a batch). *)
Fixpoint batchStarts (w : World) (options : Options) (sessionId : string)
         (batches : list (list string)) (i total : Z) (s : State)
  : list (State * list string * Z) :=
  match batches with
  | [] => []
  | batch :: rest =>
      (s, batch, (i + 1)%Z) ::
      match processBatch w options sessionId batch (i + 1) s with
      | (Return _, s1) =>
          if Qltb (costBudget options) (totalCost (stats s1)) then []
          else batchStarts w options sessionId rest (i + 1) total
                 (if (i <? total - 1)%Z
                  then logged (EvDelay (delayMs options)) s1 else s1)
      | _ => []
      end
  end.

(** The same for [processBatches(page, urls)]. *)
Definition startedBatches (w : World) (options : Options) (sessionId : string)
           (urls : list string) (s : State) : list (State * list string * Z) :=
  match createBatches urls (batchSize options) with
  | Some batches =>
      batchStarts w options sessionId batches 0 (Z.of_nat (length batches)) s
  | None => []
  end.

(** The events of an attempt on a page that is too short. *)
Definition quiet (e : Event) : Prop :=
  match e with
  | EvGoto _ | EvEvaluate _ | EvRecordError _ _ | EvDelay _ => True
  | EvSplit _ | EvEmbed _ | EvUpsert _ => False
  end.

End IndexerSpec.

(** ** A sample site *)
Module IndexerSamples.
Import Js Eff Indexer.
Local Open Scope list_scope.

Definition longText : string :=
  "Guimera es un poble de la comarca de l'Urgell, a la vall del riu Corb, "
  ++ "conegut pel seu nucli medieval i pel castell que el corona.".

Definition shortText : string := "Benvinguts a Guimera".

Definition pageOf (text : string) : Content :=
  {| c_title := "Guimera";
     c_text := text;
     c_language := "ca";
     c_author := "Guimera Official";
     c_publishedDate := None;
     c_description := None;
     c_headings := ["Guimera"] |}.

Definition timedOut : Exn :=
  {| exn_name := "TimeoutError";
     exn_message := "page.goto: Timeout 30000ms exceeded." |}.

(** A site whose pages load, except those in [down]; the pages in
    [short] hold [shortText], the others [longText].  The splitter
    returns the text as one chunk, the embedding service one vector per
    chunk, the index accepts every upsert, and the clock advances one
    millisecond per reading. *)
Definition site (down short : list string) : World :=
  {| now := fun k => (1700000000000 + N.of_nat k)%N;
     goto := fun _ url => if set_has url down then Throw timedOut else Return tt;
     evaluate := fun _ url =>
       Return (Some (pageOf (if set_has url short then shortText else longText)));
     splitText := fun _ text => Return [text];
     embeddingsCreate := fun _ chunks => Return (map (fun _ => [1%Q; 0%Q]) chunks);
     upsert := fun _ _ => Return tt |}.

(** The configuration of the repository's own test run, outside test
    mode. *)
Definition sampleOptions : Options :=
  {| maxPages := 10; batchSize := 5; delayMs := 1000; retryAttempts := 2;
     costBudget := 1; testMode := false |}.

(** The same with test mode on. *)
Definition testOptions : Options :=
  {| maxPages := 10; batchSize := 5; delayMs := 1000; retryAttempts := 2;
     costBudget := 1; testMode := true |}.

(** A budget that the first batch of two pages exceeds. *)
Definition tightOptions : Options :=
  {| maxPages := 10; batchSize := 2; delayMs := 1000; retryAttempts := 2;
     costBudget := 1 # 10000; testMode := false |}.

Definition sampleSession : string := "guimera-phase1-1700000000000".

Definition pageA : string := "https://www.guimera.info/".
Definition pageB : string := "https://www.guimera.info/castell".
Definition pageC : string := "https://www.guimera.info/museu".
Definition pageD : string := "https://www.guimera.info/historia".
Definition pageE : string := "https://www.guimera.info/contacte".

Definition fivePages : list string := [pageA; pageB; pageC; pageD; pageE].

End IndexerSamples.

(** ** Auxiliary notions and sample inputs used in Part II *)
Module QASamples.
Import Js QA.
Local Open Scope Q_scope.

(** The running score is [1] minus the penalties of the issues pushed
    so far. *)
Definition tallied (a : Assessment) : Prop :=
  score a == 1 - totalPenalty (issues a).

Definition sampleText : string := "El castell de Guimera domina la vall del riu Corb".

Definition sampleMatch (id : string) : Match :=
  {| match_id := id;
     metadata :=
       {| content := Some sampleText;
          url := Some "https://www.guimera.info/castell";
          source := Some "guimera.info";
          title := Some "El castell de Guimera";
          chunkIndex := Some 0%Z;
          headings := Some ["El castell"];
          language := Some "ca";
          indexedAt := None |} |}.

End QASamples.

(** ** Invariants of the tracker and a sample history *)
Module TrackerSpec.
Import Js Tracker.

(** The counting invariant of a session. *)
Definition counted (s : Session) : Prop :=
  pagesProcessed (stats s) = (pagesIndexed (stats s) + pagesFailed (stats s))%Z.

(** The discovery invariant of a session: both sets hold each URL at
    most once, every queued URL has been discovered, and
    [pagesDiscovered] is the size of the discovered set. *)
Definition deduplicated (s : Session) : Prop :=
  NoDup (discoveredUrls s)
  /\ NoDup (queuedUrls s)
  /\ (forall u, u ∈ queuedUrls s -> u ∈ discoveredUrls s)
  /\ pagesDiscovered (stats s) = Z.of_nat (length (discoveredUrls s)).

Definition sessionOk (s : Session) : Prop := counted s /\ deduplicated s.

Definition trackerOk (t : State) : Prop :=
  forall sid s, sessions t !! sid = Some s -> sessionOk s.

(** A sample history: one session, three discovery calls that repeat
    URLs, two pages processed (one indexed, one failed), one skipped. *)
Definition sampleSid : string := "guimera.info_1700000000000".

Definition sampleResult : Result :=
  {| r_chunks := Some 3%Z; r_tokens := Some 1500%Z; r_title := Some "Guimera";
     r_contentLength := Some 2400%Z; r_quality := None;
     r_embeddingCost := Some (195 # 1000000); r_embeddingTokens := Some 1500%Z;
     r_apiCalls := None |}.

Definition sampleHistory : list Op :=
  [ StartIndexingSession "guimera.info" 1700000000000;
    RecordDiscoveredUrls sampleSid ["https://www.guimera.info/"; "https://www.guimera.info/castell"];
    RecordDiscoveredUrls sampleSid ["https://www.guimera.info/castell"; "https://www.guimera.info/museu"];
    RecordProcessingStart sampleSid "https://www.guimera.info/";
    RecordProcessingSuccess sampleSid "https://www.guimera.info/" (Some sampleResult) 1700000000100;
    RecordProcessingStart sampleSid "https://www.guimera.info/castell";
    RecordProcessingFailure sampleSid "https://www.guimera.info/castell"
      (ErrObject (Some "timeout of 30000ms exceeded") "Error: timeout") 3 1700000000200;
    RecordSkippedUrl sampleSid "https://www.guimera.info/museu" "content too short" ].

End TrackerSpec.

(** ** QualityAssuranceValidator: relevance, summary figures and status *)
Module QAReport.
Import Js QA.
Local Open Scope Q_scope.

(** The [queryTerms.forEach] of [assessSearchRelevance]: 0.7 for a term
  found in the title, else 0.5 for a term found in the content. *)
Definition termScore (title content : string) (score : Q) (term : string) : Q :=
if includes title term then score + (7 # 10)
else if includes content term then score + (5 # 10)
else score.

Definition Qmin1 (x : Q) : Q := Qmin 1 x.

(** [assessSearchRelevance(query, metadata)] *)
Definition assessSearchRelevance (query : string) (metadata : Metadata) : Q :=
let queryTerms := split isWhiteSpace (toLowerCase query) in
let content := toLowerCase (orStr (QA.content metadata) "") in
let title := toLowerCase (orStr (QA.title metadata) "") in
let score := fold_left (termScore title content) queryTerms 0 in
let maxScore := length queryTerms in
Qmin1 (score / inject_Z (Z.of_nat maxScore)).

(** [records.reduce((sum, item) => sum + item.qualityScore, 0) /
  records.length], as computed by [verifyContentQuality] and
  [generateQASummary]; [None] stands for the [NaN] of an empty sample. *)
Definition avgQuality (records : list VerificationRecord) : option Q :=
match records with
| [] => None
| _ => Some (fold_left (fun sum item => sum + vr_qualityScore item) records 0
             / inject_Z (Z.of_nat (length records)))
end.

(** [records.filter(item => item.qualityScore < qualityScoreMin).length] *)
Definition lowQualityCount (records : list VerificationRecord) : nat :=
length (List.filter (fun item => Qltb (vr_qualityScore item) qualityScoreMin) records).

Inductive OverallStatus := NeedsImprovement | Acceptable | Good | Excellent.

(** [a >= b] on numbers *)
Definition Qgeb (a b : Q) : bool := Qle_bool b a.

(** [determineOverallStatus(avgQuality, duplicateRate, avgSearchRelevance)] *)
Definition determineOverallStatus (avgQuality duplicateRate avgSearchRelevance : Q)
: OverallStatus :=
if Qgeb avgQuality (8 # 10) && Qltb duplicateRate 5
   && Qgeb avgSearchRelevance (7 # 10) then Excellent
else if Qgeb avgQuality (7 # 10) && Qltb duplicateRate 10
        && Qgeb avgSearchRelevance (6 # 10) then Good
else if Qgeb avgQuality (6 # 10) && Qltb duplicateRate 20
        && Qgeb avgSearchRelevance (5 # 10) then Acceptable
else NeedsImprovement.

(** The statuses from worst to best. *)
Definition rank (st : OverallStatus) : nat :=
match st with
| NeedsImprovement => 0 | Acceptable => 1 | Good => 2 | Excellent => 3
end.

(** Successive [verifyContentQuality] calls on one validator: each call
  pushes onto the same [contentVerification] array. *)
Definition verifyRuns (runs : list (list Match)) : list VerificationRecord :=
fold_left (fun acc matches => verifyContentQuality matches acc) runs [].

(** The issue texts of [assessContentQuality] other than the two about
  the length of the content. *)
Definition laterIssues : list string :=
["Highly repetitive content";
 "Low meaningful content ratio";
 "Very short sentences, possibly fragmented content";
 "Missing or poor title";
 "No structural headings found";
 "Language not detected"].

(** The tests of the two length checks of [assessContentQuality]. *)
Definition tooShort (chunk : Metadata) : bool :=
falsyStr (QA.content chunk) || Nat.ltb (strLength (QA.content chunk)) minChunkLength.

Definition tooLong (chunk : Metadata) : bool :=
negb (falsyStr (QA.content chunk))
&& Nat.ltb maxChunkLength (strLength (QA.content chunk)).

(** Each recommendation is pushed together with an issue. *)
Definition advised (a : Assessment) : Prop :=
(length (recommendations a) <= length (issues a))%nat.

Definition scoreInUnit (r : VerificationRecord) : Prop :=
0 <= vr_qualityScore r /\ vr_qualityScore r <= 1.

End QAReport.

(** ** Notions used to state what a whole run of the indexer does *)
Module RunSpec.
Import Js Eff Indexer IndexerSpec.
Local Open Scope list_scope.

(** What a successful attempt on a URL changes: the chunks of the page
    are counted and paid for, the index may have received new ids (none
    in test mode), and nothing else of the indexer's own data moves. *)
Record indexedOne (options : Options) (s s' : State) : Prop := {
  io_kept : kept s s';
  io_counted :
    exists chunks : list string,
      chunks ≠ []
      /\ chunksCreated (stats s') = (chunksCreated (stats s) + Z.of_nat (length chunks))%Z
      /\ totalCost (stats s') = (totalCost (stats s) + estimateCost chunks)%Q;
  io_store : dom (store s) ⊆ dom (store s');
  io_dry : testMode options = true -> store s' = store s
}.

(** How a call of [processUrl] (or of one of its attempts) can end. *)
Definition attemptOutcome (options : Options) (s : State) (r : Outcome bool)
           (s' : State) : Prop :=
  match r with
  | Return true => indexedOne options s s'
  | Return false => False
  | Throw _ | Diverge => idle s s'
  end.

(** The steps that leave the index, the counters and the reporter
    alone, however they end. *)
Definition harmless {A} (c : M State A) : Prop :=
  forall s, idle s (snd (c s)).

(** The state in which the body of the loop of [processBatch] ends
    when [processUrl] has returned [success] in state [s2]: the clock
    is read, the counter and the URL record follow [success], the URL
    joins [processedUrls], and the loop pauses for a second. *)
Definition completed (w : World) (sessionId url : string) (startTime : N)
           (success : bool) (s2 : State) : State :=
  let s3 := observed [] s2 in
  let s4 := setStats (if success then incSuccessful else incFailed) s3 in
  let s5 :=
    setReporter
      (Reporter.recordUrl
         {| Reporter.ud_sessionId := sessionId;
            Reporter.ud_url := url;
            Reporter.ud_status := if success then Reporter.indexed else Reporter.failed;
            Reporter.ud_processingTimeMs :=
              Some (Z.of_N (now w (tick s2)) - Z.of_N startTime)%Z;
            Reporter.ud_error := None |}
         (reporter s4)) s4 in
  logged (EvDelay 1000)
    (setStats incProcessed (setProcessedUrls (set_add url) s5)).

(** Events that do not reach the embedding service or the index. *)
Definition offline (e : Event) : Prop :=
  match e with
  | EvEmbed _ | EvUpsert _ => False
  | _ => True
  end.

(** The URL records a run writes: for its own session, with status
    [processing] or [indexed], without an error text and without a
    chunk count. *)
Definition runRecord (sessionId : string) (r : Reporter.UrlRecord) : Prop :=
  Reporter.ur_sessionId r = sessionId
  /\ (Reporter.ur_status r = Reporter.processing
      \/ Reporter.ur_status r = Reporter.indexed)
  /\ Reporter.ur_error r = ""
  /\ Reporter.ur_chunks r = 0%Z.

Definition isIndexed (r : Reporter.UrlRecord) : bool :=
  bool_decide (Reporter.ur_status r = Reporter.indexed).

(** A site on which every step of [processUrl] succeeds, whenever it is
    taken: pages load and hold at least 100 characters, the splitter
    returns at least one chunk, the embedding service at least one
    vector for at least one chunk, and the index accepts the upsert. *)
Record healthy (w : World) : Prop := {
  h_goto : forall k url, goto w k url = Return tt;
  h_evaluate :
    forall k url, exists c,
      evaluate w k url = Return (Some c) /\ 100 <= String.length (c_text c);
  h_split :
    forall k text, exists chunks,
      splitText w k text = Return chunks /\ chunks ≠ [];
  h_embed :
    forall k chunks, chunks ≠ [] -> exists embeddings,
      embeddingsCreate w k chunks = Return embeddings /\ embeddings ≠ [];
  h_upsert : forall k vectors, upsert w k vectors = Return tt
}.

(** The calls that processing [url] can make: it loads and evaluates
    that page only, reports errors for that URL only, and reaches the
    embedding service and the index outside test mode only. *)
Definition emits (options : Options) (url : string) (e : Event) : Prop :=
  match e with
  | EvGoto u | EvEvaluate u => u = url
  | EvRecordError _ u => u = Some url
  | EvEmbed _ | EvUpsert _ => testMode options = false
  | EvSplit _ | EvDelay _ => True
  end.

(** The most page loads [processUrl(page, url)] makes: one per
    attempt, [retryAttempts] attempts, and one attempt in any case. *)
Definition maxLoads (options : Options) : nat :=
  Z.to_nat (Z.max 1 (retryAttempts options)).

(** The log of one [processUrl(page, url)] call. *)
Definition attemptTrace (options : Options) (url : string) (s1 s2 : State) : Prop :=
  exists evs,
    trace s2 = trace s1 ++ evs
    /\ Forall (emits options url) evs
    /\ 1 <= gotos url evs <= maxLoads options.

(** *** What a run does to the state

    Each of the relations below holds between the state [s] in which
    a run ([processBatch], [processBatches]) starts, the way [r] it
    ends and the state [s'] it ends in. *)

(** The counters of [this.stats]. *)
Definition countersMove (s : State) (r : Outcome unit) (s' : State) : Prop :=
  urlsDiscovered (stats s') = urlsDiscovered (stats s)
  /\ errors (stats s') = errors (stats s)
  /\ (urlsProcessed (stats s') - urlsProcessed (stats s)
      = (urlsSuccessful (stats s') - urlsSuccessful (stats s))
        + (urlsFailed (stats s') - urlsFailed (stats s)))%Z
  /\ (urlsSuccessful (stats s') - urlsSuccessful (stats s)
      = Z.of_nat (length (processedUrls s')) - Z.of_nat (length (processedUrls s)))%Z
  /\ match r with
     | Throw e =>
         e = typeErrorUndefined "toLowerCase"
         /\ urlsFailed (stats s') = (urlsFailed (stats s) + 1)%Z
     | _ => urlsFailed (stats s') = urlsFailed (stats s)
     end.

(** The reporter's data. *)
Definition recordsMove (sessionId : string) (s : State) (r : Outcome unit)
           (s' : State) : Prop :=
  Reporter.sessions (reporter s') = Reporter.sessions (reporter s)
  /\ Reporter.errors (reporter s') = Reporter.errors (reporter s)
  /\ exists new,
       Reporter.urls (reporter s') = Reporter.urls (reporter s) ++ new
       /\ Forall (runRecord sessionId) new
       /\ processedUrls s'
          = processedUrls s ++ map Reporter.ur_url (List.filter isIndexed new).

(** The index, the chunk count and the cost. *)
Definition indexGrows (s : State) (r : Outcome unit) (s' : State) : Prop :=
  dom (store s) ⊆ dom (store s')
  /\ (chunksCreated (stats s) <= chunksCreated (stats s'))%Z
  /\ (totalCost (stats s) <= totalCost (stats s'))%Q
  /\ (urlsSuccessful (stats s') - urlsSuccessful (stats s)
      <= chunksCreated (stats s') - chunksCreated (stats s))%Z.

(** Test mode. *)
Definition dryRun (s : State) (r : Outcome unit) (s' : State) : Prop :=
  store s' = store s
  /\ exists evs, trace s' = trace s ++ evs /\ Forall offline evs.

(** The loads of the page [u]. *)
Definition loadsBounded (options : Options) (u : string)
           (s : State) (r : Outcome unit) (s' : State) : Prop :=
  (u ∈ processedUrls s ->
   u ∈ processedUrls s' /\ gotos u (trace s') = gotos u (trace s))
  /\ gotos u (trace s) <= gotos u (trace s') <= gotos u (trace s) + maxLoads options
  /\ (r = Return tt -> u ∉ processedUrls s' -> gotos u (trace s') = gotos u (trace s)).

(** [urls] added one by one to a [Set]. *)
Definition addAll (urls : list string) (set : list string) : list string :=
  fold_left (fun acc u => set_add u acc) urls set.

End RunSpec.

(** ** Further sample sites *)
Module RunSamples.
Import Js Eff Indexer IndexerSamples.
Local Open Scope list_scope.

Definition rateLimited : Exn :=
  {| exn_name := "RateLimitError";
     exn_message := "429 You exceeded your current quota" |}.

(** The sample site with an embedding service that refuses every
    request. *)
Definition site_without_embeddings : World :=
  {| now := now (site [] []);
     goto := goto (site [] []);
     evaluate := evaluate (site [] []);
     splitText := splitText (site [] []);
     embeddingsCreate := fun _ _ => Throw rateLimited;
     upsert := upsert (site [] []) |}.

End RunSamples.

(** ** SimpleIndexingReporter: the summary *)
Module ReporterReport.
Import Js Eff Reporter.
Local Open Scope list_scope.

(** What [generateSummary] returns; [totalCost] and [successRate] are
    the numbers before [toFixed] renders them, the rate in percent. *)
Record Summary := {
  totalSessions : nat;
  activeSessions : nat;
  totalIndexed : nat;
  totalFailed : nat;
  totalQueued : nat;
  totalChunks : Z;
  totalCost : Q;
  successRate : Q
}.

(** [generateSummary()] *)
Definition generateSummary (d : Data) : Summary :=
  let totalIndexed := countStatus indexed d in
  let totalFailed := countStatus failed d in
  {| totalSessions := length (sessions d);
     activeSessions :=
       length (List.filter (fun s => String.eqb (sr_status s) "running") (sessions d));
     totalIndexed := totalIndexed;
     totalFailed := totalFailed;
     totalQueued := countStatus queued d;
     totalChunks := fold_left (fun sum u => (sum + ur_chunks u)%Z) (urls d) 0%Z;
     totalCost := fold_left (fun sum s => (sum + sr_cost s)%Q) (sessions d) 0%Q;
     successRate :=
       if Nat.ltb 0 (totalIndexed + totalFailed) then
         (inject_Z (Z.of_nat totalIndexed)
          / inject_Z (Z.of_nat (totalIndexed + totalFailed)) * 100)%Q
       else 0%Q |}.

(** [truncateUrl(url, maxLength)] and [truncateText(text, maxLength)]:
    the two methods have the same body. *)
Definition truncateText (text : option string) (maxLength : nat) : string :=
  match text with
  | None => ""
  | Some t =>
      if String.eqb t "" then ""
      else if Nat.ltb maxLength (String.length t)
           then String.substring 0 maxLength t ++ "..."
           else t
  end.

Definition truncateUrl (url : option string) (maxLength : nat) : string :=
  truncateText url maxLength.

End ReporterReport.

(** ** ProgressiveIndexer: the discovery of the URLs *)
Module Discovery.
Import Js Eff Indexer.
Local Open Scope list_scope.

Definition baseUrl : string := "https://www.guimera.info".

(** [s.endsWith(suffix)] *)
Definition endsWith (s suffix : string) : bool :=
  Nat.leb (String.length suffix) (String.length s)
  && String.eqb
       (String.substring (String.length s - String.length suffix)
                         (String.length suffix) s)
       suffix.

(** [href.match(/\.(jpg|jpeg|png|gif|pdf|zip)$/i)] is not [null] *)
Definition isMedia (href : string) : bool :=
  existsb (fun ext => endsWith (toLowerCase href) ("." ++ ext))
          ["jpg"; "jpeg"; "png"; "gif"; "pdf"; "zip"].

(** [arr.indexOf(x)], counted from [i] *)
Fixpoint indexOfFrom (x : string) (arr : list string) (i : Z) : Z :=
  match arr with
  | [] => (-1)%Z
  | y :: rest => if String.eqb y x then i else indexOfFrom x rest (i + 1)
  end.

Definition indexOf (x : string) (arr : list string) : Z := indexOfFrom x arr 0.

(** [l.filter((x, index) => p(x, index))], with [i] the index of the
    head of [l] *)
Fixpoint filterIndexed {A} (p : A -> Z -> bool) (l : list A) (i : Z) : list A :=
  match l with
  | [] => []
  | x :: rest =>
      if p x i then x :: filterIndexed p rest (i + 1)
      else filterIndexed p rest (i + 1)
  end.

(** [arr.filter((href, index, arr) => arr.indexOf(href) === index)] *)
Definition firstOccurrences (arr : list string) : list string :=
  filterIndexed (fun href index => Z.eqb (indexOf href arr) index) arr 0.

(** The chain of [filter] calls and the [slice] of the function that
    [discoverPhase1Urls] evaluates in the page; [mapped] is what its
    [map] call gives for the links of the page, the absolute URL of a
    link to the domain or [null]. *)
Definition selectLinks (maxPages : nat) (mapped : list (option string))
  : list string :=
  let notNull := omap id mapped in
  let noFragment := List.filter (fun href => negb (includes href "#")) notNull in
  let noMedia := List.filter (fun href => negb (isMedia href)) noFragment in
  firstn maxPages (firstOccurrences noMedia).

(** [this.stats.urlsDiscovered = n] *)
Definition setDiscovered (n : Z) (st : Stats) : Stats :=
  {| urlsDiscovered := n; urlsProcessed := urlsProcessed st;
     urlsSuccessful := urlsSuccessful st; urlsFailed := urlsFailed st;
     chunksCreated := chunksCreated st; totalCost := totalCost st;
     errors := errors st |}.

(** The record pushed by [recordUrl({ sessionId, url, status: 'discovered' })]. *)
Definition discoveredRecord (sessionId url : string) : Reporter.UrlRecord :=
  {| Reporter.ur_sessionId := sessionId;
     Reporter.ur_url := url;
     Reporter.ur_status := Reporter.discovered;
     Reporter.ur_title := "";
     Reporter.ur_chunks := 0;
     Reporter.ur_tokens := 0;
     Reporter.ur_processingTime := 0;
     Reporter.ur_error := "";
     Reporter.ur_cost := 0;
     Reporter.ur_quality := "" |}.

Section Methods.
Variable w : World.
Variable options : Options.
Variable sessionId : string.

(** What the [map] call over the links of the loaded page gives,
    when the page is evaluated at a given tick. *)
Variable links : nat -> Outcome (list (option string)).

(** The loop [for (const url of urls)] of [discoverPhase1Urls]. *)
Fixpoint recordDiscovered (urls : list string) : M State unit :=
  match urls with
  | [] => ret tt
  | url :: rest =>
      reporterRecordUrl sessionId url Reporter.discovered None None ;;
      recordDiscovered rest
  end.

(** [discoverPhase1Urls(page)] *)
Definition discoverPhase1Urls : M State (list string) :=
  try_catch
    (observe [EvGoto baseUrl] (fun k => goto w k baseUrl) ;;
     mapped <- observe [EvEvaluate baseUrl] links ;;
     let urls := selectLinks (maxPages options) mapped in
     recordDiscovered urls ;;
     modify (setStats (setDiscovered (Z.of_nat (length urls)))) ;;
     ret urls)
    (fun error =>
       reporterRecordError sessionId "URL_DISCOVERY_FAILED" (exn_message error)
                           (Some baseUrl) ;;
       ret []).

End Methods.

(** Sample links: a page of the site twice, an anchor, an image (in
    capitals), a link to another domain (mapped to [null]) and two more
    pages. *)
Definition sampleLinks : list (option string) :=
  [ Some "https://www.guimera.info/castell";
    Some "https://www.guimera.info/castell#horaris";
    Some "https://www.guimera.info/fotos/castell.JPG";
    None;
    Some "https://www.guimera.info/castell";
    Some "https://www.guimera.info/museu";
    Some "https://www.guimera.info/contacte" ].

End Discovery.

(** ** IndexingTracker: queries, analyses and further invariants *)
Module TrackerReport.
Import Js Eff Tracker.
Local Open Scope list_scope.

(** [arr.slice(start)]: a negative [start] counts from the end. *)
Definition sliceFrom {A} (start : Z) (arr : list A) : list A :=
  let len := Z.of_nat (length arr) in
  let k := if (start <? 0)%Z then Z.max (len + start) 0 else Z.min start len in
  skipn (Z.to_nat k) arr.

(** [getRecentErrors(limit)] *)
Definition getRecentErrors (limit : Z) (t : State) : list SessionError :=
  match currentSession t with
  | None => []
  | Some sid =>
      match sessions t !! sid with
      | None => []
      | Some session => sliceFrom (- limit) (errors session)
      end
  end.

(** [Array.from(session.indexedPages.values())]; the analyses below
    do not depend on the order of the pages. *)
Definition pages (session : Session) : list IndexedPage :=
  map snd (map_to_list (indexedPages session)).

(** [distribution] of [analyzeQualityScores] *)
Record Distribution := { high : nat; medium : nat; low : nat }.

(** [analyzeQualityScores(session)]: the average (before [toFixed])
    and the distribution, [None] for the empty object returned when no
    page has a numeric quality. *)
Definition analyzeQualityScores (session : Session) : Q * option Distribution :=
  let scores := omap ip_quality (pages session) in
  match scores with
  | [] => (0%Q, None)
  | _ =>
      ((fold_left Qplus scores 0 / inject_Z (Z.of_nat (length scores)))%Q,
       Some {| high := length (List.filter (fun s => Qle_bool (8 # 10) s) scores);
               medium := length (List.filter
                                   (fun s => Qle_bool (5 # 10) s && Qltb s (8 # 10))
                                   scores);
               low := length (List.filter (fun s => Qltb s (5 # 10)) scores) |})
  end.

(** [chunkCounts.sort((a, b) => a - b)]: the counts in ascending
    order. *)
Fixpoint insertAscending (x : Z) (l : list Z) : list Z :=
  match l with
  | [] => [x]
  | y :: rest => if (x <=? y)%Z then x :: y :: rest else y :: insertAscending x rest
  end.

Definition sortAscending (l : list Z) : list Z := fold_right insertAscending [] l.

Fixpoint ascending (l : list Z) : Prop :=
  match l with
  | [] => True
  | x :: rest => Forall (Z.le x) rest /\ ascending rest
  end.

(** What [analyzeContentDistribution(session)] returns, but for
    [avg]. *)
Record ContentDistribution := { cd_min : Z; cd_max : Z; cd_median : Z }.

Definition analyzeContentDistribution (session : Session) : ContentDistribution :=
  let chunkCounts := sortAscending (map ip_chunks (pages session)) in
  {| cd_min := default 0%Z (chunkCounts !! 0);
     cd_max := default 0%Z (last chunkCounts);
     cd_median := default 0%Z (chunkCounts !! (length chunkCounts / 2)) |}.

(** *** Further invariants of a session *)

(** Failures and errors are counted together, the two cost totals move
    together, and the maps and sets hold no more entries than the
    counters say. *)
Record booked (s : Session) : Prop := {
  b_failed : pagesFailed (stats s) = errorsEncountered (stats s);
  b_errors : errorsEncountered (stats s) = Z.of_nat (length (errors s));
  b_costs : totalCost (costs s) = embeddingCost (costs s);
  b_failedUrls : forall u, is_Some (failedUrls s !! u) -> u ∈ processedUrls s;
  b_indexedPages : forall u, is_Some (indexedPages s !! u) -> u ∈ processedUrls s;
  b_processedUrls : NoDup (processedUrls s);
  b_failedSize : (Z.of_nat (size (failedUrls s)) <= pagesFailed (stats s))%Z;
  b_indexedSize : (Z.of_nat (size (indexedPages s)) <= pagesIndexed (stats s))%Z;
  b_skippedSize : (Z.of_nat (size (skippedUrls s)) <= pagesSkipped (stats s))%Z;
  b_warnings : length (lowQualityPages s) <= length (warnings s);
  b_quality :
    forall u p q, indexedPages s !! u = Some p -> ip_quality p = Some q ->
                  ~ (q == 0)%Q
}.

Definition allBooked (t : State) : Prop :=
  forall sid s, sessions t !! sid = Some s -> booked s.

(** A URL that has been discovered and is no longer waiting. *)
Definition settled (u : string) (s : Session) : Prop :=
  u ∈ discoveredUrls s /\ u ∉ queuedUrls s.

Definition startsSession (op : Op) : bool :=
  match op with StartIndexingSession _ _ => true | _ => false end.

Definition endsSession (op : Op) : bool :=
  match op with EndIndexingSession _ _ _ => true | _ => false end.

End TrackerReport.

(** ** QualityAssuranceValidator: search testing and the summary *)
Module QASummary.
Import Js QA QAReport.
Local Open Scope Q_scope.

(** A JavaScript number that need not be finite. *)
Inductive Num := Fin (q : Q) | NaN | PosInf.

(** [a < b], [a >= b] and [a + b] *)
Definition ltN (a b : Num) : bool :=
  match a, b with
  | Fin x, Fin y => Qltb x y
  | Fin _, PosInf => true
  | _, _ => false
  end.

Definition geN (a b : Num) : bool :=
  match a, b with
  | Fin x, Fin y => Qgeb x y
  | PosInf, Fin _ | PosInf, PosInf => true
  | _, _ => false
  end.

Definition addN (a b : Num) : Num :=
  match a, b with
  | Fin x, Fin y => Fin (x + y)
  | NaN, _ | _, NaN => NaN
  | _, _ => PosInf
  end.

(** [a / n] for a sum [a] of non-negative numbers and a length [n]:
    [0 / 0] is [NaN], [x / 0] is [Infinity] for a positive [x]. *)
Definition divN (a : Num) (n : nat) : Num :=
  match a with
  | Fin x =>
      match n with
      | O => if Qeq_bool x 0 then NaN else PosInf
      | _ => Fin (x / inject_Z (Z.of_nat n))
      end
  | other => other
  end.

(** [list.reduce((sum, r) => sum + r, 0)] *)
Definition sumN (l : list Num) : Num := fold_left addN l (Fin 0).

(** The test queries of [testSearchQuality]. *)
Definition testQueries : list string :=
  ["Guimer" ++ String (ascii_of_nat 224) " hist" ++ String (ascii_of_nat 242) "ria";
   "Josep Corbella";
   "educaci" ++ String (ascii_of_nat 243) " infantil";
   "festes populars";
   "tradicions catalanes";
   "escola";
   "cultura local";
   "patrimoni"].

(** An entry of [this.results.searchTesting]: its [success] and
    [avgRelevance] properties. *)
Record SearchEntry := {
  se_query : string;
  se_success : bool;
  se_avgRelevance : Num
}.

(** [testSearchQuery(query)], given the matches that the vector store
    returns for the query. *)
Definition testSearchQuery (query : string) (matches : list Metadata) : SearchEntry :=
  let results := map (assessSearchRelevance query) matches in
  {| se_query := query;
     se_success := true;
     se_avgRelevance := divN (sumN (map Fin results)) (length results) |}.

(** [testSearchQuality]: the value stored in
    [this.results.searchTesting].  [search query] is what the embedding
    service and the vector store answer for [query], [None] when one of
    them throws. *)
Definition testSearchQuality (search : string -> option (list Metadata))
  : list SearchEntry :=
  map (fun query =>
         match search query with
         | Some matches => testSearchQuery query matches
         | None =>
             {| se_query := query; se_success := false; se_avgRelevance := Fin 0 |}
         end)
      testQueries.

(** The argument of [generateRecommendations]; the object literal that
    [generateQASummary] passes defines no [totalChunksAnalyzed]. *)
Record RecStats := {
  st_avgQuality : Num;
  st_lowQualityCount : nat;
  st_duplicateRate : Num;
  st_avgSearchRelevance : Num;
  st_metadataIssuesCount : nat;
  st_totalChunksAnalyzed : option nat
}.

(** A recommendation, without its [issue] text (which renders the
    numbers). *)
Record Recommendation := {
  rec_category : string;
  rec_priority : string;
  rec_recommendation : string
}.

Definition pushIf (cond : bool) (r : Recommendation) (l : list Recommendation)
  : list Recommendation :=
  if cond then l ++ [r] else l.

Definition improveExtraction : Recommendation :=
  {| rec_category := "Content Quality"; rec_priority := "High";
     rec_recommendation :=
       "Review and improve content extraction logic, consider adjusting chunk size parameters" |}.

Definition filterLowQuality : Recommendation :=
  {| rec_category := "Content Quality"; rec_priority := "Medium";
     rec_recommendation :=
       "Implement pre-processing filters to exclude low-quality content" |}.

Definition deduplicate : Recommendation :=
  {| rec_category := "Deduplication"; rec_priority := "High";
     rec_recommendation :=
       "Implement deduplication during indexing process to reduce storage costs and improve search quality" |}.

Definition reviewEmbeddings : Recommendation :=
  {| rec_category := "Search Quality"; rec_priority := "High";
     rec_recommendation :=
       "Review embedding model choice and consider implementing hybrid search with keyword matching" |}.

Definition improveMetadata : Recommendation :=
  {| rec_category := "Metadata"; rec_priority := "Medium";
     rec_recommendation :=
       "Improve metadata validation and extraction during indexing" |}.

(** [stats.totalChunksAnalyzed * 0.1] *)
Definition tenth (n : option nat) : Num :=
  match n with
  | Some k => Fin (inject_Z (Z.of_nat k) * (1 # 10))
  | None => NaN
  end.

(** [generateRecommendations(stats)] *)
Definition generateRecommendations (stats : RecStats) : list Recommendation :=
  let l := pushIf (ltN (st_avgQuality stats) (Fin (8 # 10))) improveExtraction [] in
  let l := pushIf (ltN (tenth (st_totalChunksAnalyzed stats))
                       (Fin (inject_Z (Z.of_nat (st_lowQualityCount stats)))))
                  filterLowQuality l in
  let l := pushIf (ltN (Fin 10) (st_duplicateRate stats)) deduplicate l in
  let l := pushIf (ltN (st_avgSearchRelevance stats) (Fin (6 # 10))) reviewEmbeddings l in
  pushIf (Nat.ltb 0 (st_metadataIssuesCount stats)) improveMetadata l.

(** [determineOverallStatus] on numbers that need not be finite. *)
Definition determineOverallStatusN (avgQuality duplicateRate avgSearchRelevance : Num)
  : OverallStatus :=
  if geN avgQuality (Fin (8 # 10)) && ltN duplicateRate (Fin 5)
     && geN avgSearchRelevance (Fin (7 # 10)) then Excellent
  else if geN avgQuality (Fin (7 # 10)) && ltN duplicateRate (Fin 10)
          && geN avgSearchRelevance (Fin (6 # 10)) then Good
  else if geN avgQuality (Fin (6 # 10)) && ltN duplicateRate (Fin 20)
          && geN avgSearchRelevance (Fin (5 # 10)) then Acceptable
  else NeedsImprovement.

(** [deduplication.length / (contentVerification.length / 2) * 100] *)
Definition duplicateRate (duplicates records : nat) : Num :=
  match records with
  | O => if Nat.eqb duplicates 0 then NaN else PosInf
  | _ => Fin (inject_Z (Z.of_nat duplicates)
              / (inject_Z (Z.of_nat records) / 2) * 100)
  end.

(** The numbers that [generateQASummary] computes from the results of
    the earlier steps. *)
Definition summaryStats (contentVerification : list VerificationRecord)
           (deduplication : list Duplicate) (metadataIssues : nat)
           (searchTesting : list SearchEntry) : RecStats :=
  let successful := List.filter se_success searchTesting in
  {| st_avgQuality := match avgQuality contentVerification with
                      | Some q => Fin q
                      | None => NaN
                      end;
     st_lowQualityCount := lowQualityCount contentVerification;
     st_duplicateRate := duplicateRate (length deduplication)
                                       (length contentVerification);
     st_avgSearchRelevance :=
       divN (sumN (map se_avgRelevance successful)) (length successful);
     st_metadataIssuesCount := metadataIssues;
     st_totalChunksAnalyzed := None |}.

(** [summary.overview.overallStatus] and [summary.recommendations] of
    [generateQASummary]. *)
Definition overallStatus (stats : RecStats) : OverallStatus :=
  determineOverallStatusN (st_avgQuality stats) (st_duplicateRate stats)
                          (st_avgSearchRelevance stats).

End QASummary.

(* ===================================================================== *)
(** * Part II: properties                                                  *)
(* ===================================================================== *)

(** ** Sets in insertion order *)
Module JsFacts.
Import Js.

Lemma set_has_true x s : set_has x s = true <-> x ∈ s.
Proof. unfold set_has. apply bool_decide_eq_true. Qed.

Lemma set_has_false x s : set_has x s = false <-> x ∉ s.
Proof. unfold set_has. apply bool_decide_eq_false. Qed.

Lemma elem_of_set_add x y s : x ∈ set_add y s <-> x = y \/ x ∈ s.
Proof.
  unfold set_add. destruct (set_has y s) eqn:E.
  - apply set_has_true in E. split; [auto | intros [-> | H]; assumption].
  - rewrite elem_of_app, list_elem_of_singleton. tauto.
Qed.

Lemma NoDup_set_add x s : NoDup s -> NoDup (set_add x s).
Proof.
  intros H. unfold set_add. destruct (set_has x s) eqn:E; [assumption |].
  apply set_has_false in E. apply NoDup_app. split; [assumption |].
  split; [| apply NoDup_singleton].
  intros y Hy Hy'. apply list_elem_of_singleton in Hy'. subst. contradiction.
Qed.

Lemma NoDup_set_delete x s : NoDup s -> NoDup (set_delete x s).
Proof. intros H. unfold set_delete. by apply NoDup_filter. Qed.

Lemma elem_of_set_delete x y s : x ∈ set_delete y s <-> x ≠ y /\ x ∈ s.
Proof. unfold set_delete. rewrite list_elem_of_filter. tauto. Qed.

Lemma set_add_length_new x s : x ∉ s -> length (set_add x s) = S (length s).
Proof.
  intros H. apply set_has_false in H. unfold set_add. rewrite H.
  rewrite length_app. simpl. lia.
Qed.

Lemma set_of_list_from_NoDup l acc :
  NoDup acc -> NoDup (fold_left (fun s x => set_add x s) l acc).
Proof.
  revert acc. induction l as [| x l IH]; intros acc H; simpl; [assumption |].
  apply IH. by apply NoDup_set_add.
Qed.

Lemma NoDup_set_of_list l : NoDup (set_of_list l).
Proof. apply set_of_list_from_NoDup. constructor. Qed.

Lemma elem_of_fold_set_add l acc x :
  x ∈ fold_left (fun s y => set_add y s) l acc <-> x ∈ l \/ x ∈ acc.
Proof.
  revert acc. induction l as [| y l IH]; intros acc; simpl.
  - rewrite elem_of_nil. tauto.
  - rewrite IH, elem_of_set_add, elem_of_cons. tauto.
Qed.

Lemma elem_of_set_of_list l x : x ∈ set_of_list l <-> x ∈ l.
Proof. unfold set_of_list. rewrite elem_of_fold_set_add, elem_of_nil. tauto. Qed.

(** A NoDup list holds each of its members exactly once. *)
Lemma count_occ_NoDup_1 (x : string) (s : list string) :
  NoDup s -> x ∈ s -> count_occ string_dec s x = 1.
Proof.
  intros Hnd Hin. apply list_elem_of_In in Hin.
  apply NoDup_ListNoDup in Hnd.
  pose proof (proj1 (List.NoDup_count_occ string_dec s) Hnd x) as Hle.
  pose proof (proj1 (count_occ_In string_dec s x) Hin). lia.
Qed.

Lemma splitRuns_nonempty isSep s cur b : splitRuns isSep s cur b ≠ [].
Proof.
  revert cur b. induction s as [| c s IH]; intros cur b; simpl; [discriminate |].
  destruct (isSep c); [destruct b |]; try apply IH. discriminate.
Qed.

Lemma split_nonempty isSep s : split isSep s ≠ [].
Proof. apply splitRuns_nonempty. Qed.

End JsFacts.

(** ** Quality-assurance validator *)
Module QAFacts.
Import Js QA JsFacts QASamples.
Local Open Scope Q_scope.

Lemma totalPenalty_snoc l i : totalPenalty (l ++ [i]) == totalPenalty l + penaltyOf i.
Proof.
  induction l as [| j l IH]; simpl.
  - ring.
  - rewrite IH. ring.
Qed.

Lemma penaltyOf_nonneg i : 0 <= penaltyOf i.
Proof. unfold penaltyOf. repeat case_match; unfold Qle; simpl; lia. Qed.

Lemma totalPenalty_nonneg l : 0 <= totalPenalty l.
Proof.
  induction l as [| j l IH]; simpl; [apply Qle_refl |].
  pose proof (penaltyOf_nonneg j). lra.
Qed.

Lemma flag_tallied cond issue advice penalty a :
  penaltyOf issue == penalty -> tallied a ->
  tallied (flag cond issue advice penalty a).
Proof.
  unfold tallied, flag. intros Hp Ha. destruct cond; [| assumption].
  simpl. rewrite totalPenalty_snoc, Ha, Hp. ring.
Qed.

Lemma contentChecks_tallied text a : tallied a -> tallied (contentChecks text a).
Proof.
  intros Ha. unfold contentChecks.
  repeat (apply flag_tallied; [reflexivity |]). assumption.
Qed.


(** [analyzeDuplication] reads [content] from the verification records,
    which do not carry it: every similarity it computes is 0. *)
Lemma similarity_of_records r1 r2 :
  calculateContentSimilarity (vr_content r1) (vr_content r2) = 0.
Proof. reflexivity. Qed.

Lemma innerLoop_flags_nothing recs i c js processed dups :
  innerLoop recs i c js processed dups = (processed, dups).
Proof.
  revert processed dups. induction js as [| j js IH]; intros; simpl; [reflexivity |].
  destruct (bool_decide (j ∈ processed)); [apply IH |].
  destruct (recs !! j); apply IH.
Qed.

Lemma outerLoop_flags_nothing recs idxs processed dups :
  outerLoop recs idxs processed dups = dups.
Proof.
  revert processed dups. induction idxs as [| i idxs IH]; intros; simpl; [reflexivity |].
  destruct (bool_decide (i ∈ processed)); [apply IH |].
  destruct (recs !! i); [| apply IH].
  rewrite innerLoop_flags_nothing. apply IH.
Qed.

Lemma analyzeDuplication_flags_nothing recs : analyzeDuplication recs = [].
Proof. apply outerLoop_flags_nothing. Qed.

(** The similarity itself, computed on two equal non-empty texts, is 1. *)
Lemma similarity_identical text :
  toLowerCase text ≠ "" ->
  calculateContentSimilarity (Some text) (Some text) == 1.
Proof.
  intros Hne. unfold calculateContentSimilarity.
  assert (Ho : orStr (Some text) "" = text).
  { unfold orStr, falsyStr. destruct (String.eqb text "") eqn:E; [| reflexivity].
    apply String.eqb_eq in E. by subst. }
  rewrite Ho. destruct (String.eqb (toLowerCase text) "") eqn:E'.
  { apply String.eqb_eq in E'. congruence. }
  cbn [orb].
  set (ws := set_of_list (split isWhiteSpace (toLowerCase text))).
  assert (Hnd : NoDup ws) by apply NoDup_set_of_list.
  assert (Hne' : ws ≠ []).
  { intros Hnil.
    pose proof (split_nonempty isWhiteSpace (toLowerCase text)) as Hs.
    destruct (split isWhiteSpace (toLowerCase text)) as [| x l] eqn:El; [congruence |].
    assert (x ∈ ws) by (apply elem_of_set_of_list; try rewrite El; left).
    rewrite Hnil in H. by apply elem_of_nil in H. }
  assert (Hi : length (set_of_list (List.filter (fun x => set_has x ws) ws)) = length ws).
  { apply Permutation_length, NoDup_Permutation; [apply NoDup_set_of_list | assumption |].
    intros x. rewrite elem_of_set_of_list. split.
    - intros H. apply list_elem_of_In, List.filter_In in H.
      apply list_elem_of_In. tauto.
    - intros H. apply list_elem_of_In, List.filter_In.
      split; [by apply list_elem_of_In | by apply set_has_true]. }
  assert (Hu : length (set_of_list (ws ++ ws)) = length ws).
  { apply Permutation_length, NoDup_Permutation; [apply NoDup_set_of_list | assumption |].
    intros x. rewrite elem_of_set_of_list, elem_of_app. tauto. }
  rewrite Hi, Hu. unfold ratio.
  apply Qmult_inv_r. destruct ws; [congruence |].
  unfold Qeq. simpl. lia.
Qed.

(** C1 (failing input). Two sampled chunks with the same text: the
    similarity of the two texts is 1, above the 0.85 threshold, yet
    [analyzeDuplication] run on the records of [verifyContentQuality]
    flags no pair. *)
Theorem analyzeDuplication_misses_identical_chunks :
  let m1 := sampleMatch "guimera-p1-1700000000000-0" in
  let m2 := sampleMatch "guimera-p1-1700000000000-1" in
  content (metadata m1) = content (metadata m2)
  /\ calculateContentSimilarity (content (metadata m1)) (content (metadata m2)) == 1
  /\ similarityThreshold < 1
  /\ analyzeDuplication (verifyContentQuality [m1; m2] []) = [].
Proof.
  cbv zeta. split; [reflexivity |]. split; [| split].
  - apply similarity_identical. vm_compute. discriminate.
  - reflexivity.
  - apply analyzeDuplication_flags_nothing.
Qed.

End QAFacts.

(** ** Progressive indexer: the building blocks *)
Module IndexerFacts.
Import Js Eff Indexer.
Local Open Scope list_scope.

Lemma setReporter_same s : setReporter (reporter s) s = s.
Proof. by destruct s. Qed.

Lemma delay_bind {A} ms (c : M State A) s :
  (delay ms ;; c) s = c (logged (EvDelay ms) s).
Proof. reflexivity. Qed.

Section WithWorld.
Variable w : World.
Variable options : Options.
Variable sessionId : string.

(** Every [reporter.recordError] call of the indexer throws: the
    argument carries [message] where the reporter reads [error]. *)
Lemma reporterRecordError_throws errorType message url s :
  reporterRecordError sessionId errorType message url s
  = (Throw (typeErrorUndefined "toLowerCase"),
     logged (EvRecordError errorType url) s).
Proof.
  by destruct s.
Qed.

(** The recursion of [processUrl] is the one of the source. *)
Lemma processUrl_unfold url attempt s :
  processUrl w options sessionId url attempt s
  = try_catch (processUrlBody w options sessionId url)
      (fun error =>
         if (attempt <? retryAttempts options)%Z then
           delay (2000 * attempt) ;;
           processUrl w options sessionId url (attempt + 1)
         else throw error) s.
Proof.
  unfold processUrl.
  destruct (Z.to_nat (retryAttempts options - attempt)) as [| k] eqn:Ek;
    cbn [processUrlFrom]; unfold try_catch;
    destruct (processUrlBody w options sessionId url s) as [[b | e |] s1];
    try reflexivity.
  - destruct (attempt <? retryAttempts options)%Z eqn:Elt; [| reflexivity].
    apply Z.ltb_lt in Elt. lia.
  - destruct (attempt <? retryAttempts options)%Z eqn:Elt; [| reflexivity].
    replace (Z.to_nat (retryAttempts options - (attempt + 1))) with k by lia.
    reflexivity.
Qed.

(** C8. With [testMode] on, [createEmbeddings] returns one vector per
    chunk text, position by position, each the 3072-dimension zero
    vector, and leaves the state as it was: no call to the embedding
    service is made or logged. *)
Theorem createEmbeddings_testMode_zero_vectors
        (chunks : list string) (url : string) (s : State) :
  testMode options = true ->
  exists vectors,
    createEmbeddings w options sessionId chunks url s = (Return vectors, s)
    /\ length vectors = length chunks
    /\ (forall i, i < length chunks -> vectors !! i = Some (repeat 0%Q 3072))
    /\ Forall (fun v => length v = 3072 /\ Forall (fun x => x = 0%Q) v) vectors.
Proof.
  intros Htest. exists (map (fun _ => repeat 0%Q 3072) chunks).
  split; [| split; [| split]].
  - unfold createEmbeddings, try_catch. rewrite Htest. reflexivity.
  - apply length_map.
  - intros i Hi. rewrite list_lookup_fmap.
    destruct (chunks !! i) eqn:E; [reflexivity |].
    apply lookup_ge_None in E. lia.
  - apply Forall_forall. intros v Hv. apply list_elem_of_fmap in Hv.
    destruct Hv as [c [-> _]]. split; [apply repeat_length |].
    apply Forall_forall. intros x Hx. apply list_elem_of_In in Hx.
    by apply repeat_spec in Hx.
Qed.

End WithWorld.

Lemma createEmbeddings_testMode_witness :
  testMode IndexerSamples.testOptions = true
  /\ exists vectors,
       createEmbeddings (IndexerSamples.site [] []) IndexerSamples.testOptions
         IndexerSamples.sampleSession ["Guimera"; "Vall del Corb"]
         IndexerSamples.pageA (initial ∅)
       = (Return vectors, initial ∅)
       /\ length vectors = 2
       /\ (forall i, i < 2 -> vectors !! i = Some (repeat 0%Q 3072))
       /\ Forall (fun v => length v = 3072 /\ Forall (fun x => x = 0%Q) v) vectors.
Proof.
  split; [reflexivity |].
  apply (createEmbeddings_testMode_zero_vectors
           (IndexerSamples.site [] []) IndexerSamples.testOptions
           IndexerSamples.sampleSession ["Guimera"; "Vall del Corb"]
           IndexerSamples.pageA (initial ∅)).
  reflexivity.
Defined.

End IndexerFacts.

(** ** Progressive indexer: what a URL's processing touches *)
Module FrameFacts.
Import Js Eff Indexer IndexerSpec IndexerFacts.
Local Open Scope list_scope.

Lemma kept_refl s : kept s s.
Proof. by constructor. Qed.

Lemma kept_trans s1 s2 s3 : kept s1 s2 -> kept s2 s3 -> kept s1 s3.
Proof. intros [] []. constructor; congruence. Qed.

Section Frames.
Variable w : World.
Variable options : Options.
Variable sessionId : string.
Variable P : Event -> Prop.

Lemma grows_refl s : grows P s s.
Proof.
  split; [apply kept_refl |]. exists []. by rewrite app_nil_r.
Qed.

Lemma grows_trans s1 s2 s3 : grows P s1 s2 -> grows P s2 s3 -> grows P s1 s3.
Proof.
  intros [K1 [e1 [T1 F1]]] [K2 [e2 [T2 F2]]]. split; [by eapply kept_trans |].
  exists (e1 ++ e2). rewrite T2, T1, app_assoc. split; [done |].
  by apply Forall_app.
Qed.

Lemma framed_ret {A} (a : A) : framed P (ret a : M State A).
Proof. intros s. apply grows_refl. Qed.

Lemma framed_throw {A} e : framed P (throw e : M State A).
Proof. intros s. apply grows_refl. Qed.

Lemma framed_bind {A B} (c : M State A) (k : A -> M State B) :
  framed P c -> (forall a, framed P (k a)) -> framed P (bind c k).
Proof.
  intros Hc Hk s. specialize (Hc s). unfold bind.
  destruct (c s) as [[a | e |] s1]; simpl in *; try assumption.
  eapply grows_trans; [exact Hc | apply Hk].
Qed.

Lemma framed_try_catch {A} (c : M State A) (h : Exn -> M State A) :
  framed P c -> (forall e, framed P (h e)) -> framed P (try_catch c h).
Proof.
  intros Hc Hh s. specialize (Hc s). unfold try_catch.
  destruct (c s) as [[a | e |] s1]; simpl in *; try assumption.
  eapply grows_trans; [exact Hc | apply Hh].
Qed.

Lemma framed_observe {A} evs (answer : nat -> Outcome A) :
  Forall P evs -> framed P (observe evs answer).
Proof.
  intros HP s. split; [by constructor |]. by exists evs.
Qed.

Lemma framed_dateNow : framed P (dateNow w).
Proof. apply framed_observe. constructor. Qed.

Lemma framed_delay ms : P (EvDelay ms) -> framed P (delay ms).
Proof.
  intros HP s. split; [by constructor |]. exists [EvDelay ms].
  split; [done |]. by constructor.
Qed.

Lemma framed_recordError errorType message url :
  P (EvRecordError errorType url) ->
  framed P (reporterRecordError sessionId errorType message url).
Proof.
  intros HP s. rewrite reporterRecordError_throws. simpl.
  split; [by constructor |]. exists [EvRecordError errorType url].
  split; [done |]. by constructor.
Qed.

Lemma framed_addChunksAndCost n c :
  framed P (modify (setStats (addChunksAndCost n c))).
Proof.
  intros s. split; [by constructor |]. exists []. by rewrite app_nil_r.
Qed.

(** [P] holds of every event other than a page load. *)
Hypothesis P_notGoto : forall e, notGoto e -> P e.

Lemma framed_createEmbeddings chunks url :
  framed P (createEmbeddings w options sessionId chunks url).
Proof.
  unfold createEmbeddings. apply framed_try_catch.
  - destruct (testMode options); [apply framed_ret |].
    apply framed_observe. constructor; [by apply P_notGoto | constructor].
  - intros e. apply framed_bind; [| intros _; apply framed_throw].
    apply framed_recordError. by apply P_notGoto.
Qed.

Lemma framed_buildVectors chunks i total embeddings content url :
  framed P (buildVectors w sessionId chunks i total embeddings content url).
Proof.
  revert i. induction chunks as [| chunk rest IH]; intros i; simpl.
  - apply framed_ret.
  - apply framed_bind; [apply framed_dateNow | intros t].
    apply framed_bind; [apply framed_dateNow | intros t'].
    apply framed_bind; [apply IH | intros vs; apply framed_ret].
Qed.

Lemma framed_indexUpsert vectors : framed P (indexUpsert w vectors).
Proof.
  intros s. unfold indexUpsert.
  destruct (upsert w (tick s) vectors); simpl;
    (split; [by constructor |]; exists [EvUpsert (map v_id vectors)];
     split; [done |]; constructor; [by apply P_notGoto | constructor]).
Qed.

Lemma framed_indexChunks chunks embeddings content url :
  framed P (indexChunks w options sessionId chunks embeddings content url).
Proof.
  unfold indexChunks. apply framed_try_catch.
  - destruct (testMode options); [apply framed_ret |].
    apply framed_bind; [apply framed_buildVectors | intros vs].
    apply framed_indexUpsert.
  - intros e. apply framed_bind; [| intros _; apply framed_throw].
    apply framed_recordError. by apply P_notGoto.
Qed.

Lemma framed_afterGoto url : framed P (afterGoto w options sessionId url).
Proof.
  unfold afterGoto.
  apply framed_bind.
  { apply framed_observe. constructor; [by apply P_notGoto | constructor]. }
  intros [content |].
  2: { apply framed_bind; [| intros _; apply framed_ret].
       apply framed_recordError. by apply P_notGoto. }
  destruct (Nat.ltb _ _).
  { apply framed_bind; [| intros _; apply framed_ret].
    apply framed_recordError. by apply P_notGoto. }
  apply framed_bind.
  { apply framed_observe. constructor; [by apply P_notGoto | constructor]. }
  intros chunks. destruct (Nat.eqb (length chunks) 0).
  { apply framed_bind; [| intros _; apply framed_ret].
    apply framed_recordError. by apply P_notGoto. }
  apply framed_bind; [apply framed_createEmbeddings | intros embeddings].
  destruct (Nat.eqb (length embeddings) 0).
  { apply framed_bind; [| intros _; apply framed_ret].
    apply framed_recordError. by apply P_notGoto. }
  apply framed_bind; [apply framed_indexChunks | intros _].
  apply framed_bind; [apply framed_addChunksAndCost | intros _; apply framed_ret].
Qed.

(** The [try] block of [processUrl]: given that [P] also holds of
    the load of [url]. *)
Lemma framed_processUrlBody url :
  P (EvGoto url) -> framed P (processUrlBody w options sessionId url).
Proof.
  intros Hgoto. unfold processUrlBody.
  apply framed_bind; [apply framed_observe; by repeat constructor | intros _].
  apply framed_afterGoto.
Qed.

Lemma framed_processUrlFrom k url attempt :
  P (EvGoto url) -> framed P (processUrlFrom w options sessionId k url attempt).
Proof.
  intros Hgoto. revert attempt.
  induction k as [| k IH]; intros attempt; cbn [processUrlFrom];
    (apply framed_try_catch; [by apply framed_processUrlBody | intros e]);
    destruct (attempt <? retryAttempts options)%Z; try apply framed_throw.
  apply framed_bind; [apply framed_delay; by apply P_notGoto | intros _].
  apply IH.
Qed.

Lemma framed_processUrl url attempt :
  P (EvGoto url) -> framed P (processUrl w options sessionId url attempt).
Proof. intros H. by apply framed_processUrlFrom. Qed.

End Frames.
End FrameFacts.

(** ** Progressive indexer: retries and failures *)
Module RetryFacts.
Import Js Eff Indexer IndexerSpec IndexerFacts FrameFacts.
Local Open Scope list_scope.

Lemma gotos_app url a b : gotos url (a ++ b) = gotos url a + gotos url b.
Proof. apply count_occ_app. Qed.

Lemma gotos_nil url : gotos url [] = 0.
Proof. reflexivity. Qed.

Lemma gotos_cons_same url evs : gotos url (EvGoto url :: evs) = S (gotos url evs).
Proof. unfold gotos. by apply count_occ_cons_eq. Qed.

Lemma gotos_cons_other url e evs :
  e ≠ EvGoto url -> gotos url (e :: evs) = gotos url evs.
Proof. intros H. unfold gotos. by apply count_occ_cons_neq. Qed.

Lemma gotos_notGoto url evs : Forall notGoto evs -> gotos url evs = 0.
Proof.
  induction 1 as [| e evs He _ IH]; [reflexivity |].
  rewrite gotos_cons_other; [assumption |]. by intros ->.
Qed.

Lemma gotos_other u evs :
  Forall (fun e => e ≠ EvGoto u) evs -> gotos u evs = 0.
Proof.
  induction 1 as [| e evs He _ IH]; [reflexivity |].
  by rewrite gotos_cons_other.
Qed.

Lemma notGoto_ne u e : notGoto e -> e ≠ EvGoto u.
Proof. intros H ->. exact H. Qed.

Section Retry.
Variable w : World.
Variable options : Options.
Variable sessionId : string.

Local Abbreviation body := (processUrlBody w options sessionId).
Local Abbreviation TE := (typeErrorUndefined "toLowerCase").

(** One run of the [try] block loads the page exactly once. *)
Lemma body_loads_once url s :
  kept s (snd (body url s))
  /\ exists evs, trace (snd (body url s)) = trace s ++ EvGoto url :: evs
                 /\ Forall notGoto evs.
Proof.
  unfold processUrlBody, bind, observe.
  destruct (goto w (tick s) url) as [[] | e |]; simpl.
  2, 3: split; [by constructor | by exists []].
  destruct (framed_afterGoto w options sessionId notGoto (fun e H => H) url
              (observed [EvGoto url] s)) as [K [evs [T F]]].
  split.
  - eapply kept_trans; [| exact K]. by constructor.
  - exists evs. rewrite T. simpl. by rewrite <- app_assoc.
Qed.

(** When every run of the [try] block throws, [processUrl] started at
    [attempt] loads the page once more than the retries it is still
    allowed, and then throws. *)
Lemma processUrl_exhausts_retries url :
  (forall s1, exists e, fst (body url s1) = Throw e) ->
  forall n attempt s,
    Z.to_nat (retryAttempts options - attempt) = n ->
    (exists e, fst (processUrl w options sessionId url attempt s) = Throw e)
    /\ kept s (snd (processUrl w options sessionId url attempt s))
    /\ exists evs,
         trace (snd (processUrl w options sessionId url attempt s)) = trace s ++ evs
         /\ gotos url evs = S n.
Proof.
  intros Hthrow. induction n as [| n IH]; intros attempt s Hn;
    rewrite processUrl_unfold; unfold try_catch;
    destruct (Hthrow s) as [e He];
    destruct (body_loads_once url s) as [K [evs [T F]]];
    destruct (body url s) as [[b | e' |] s1]; simpl in *; try discriminate.
  - destruct (attempt <? retryAttempts options)%Z eqn:Elt.
    { apply Z.ltb_lt in Elt. lia. }
    simpl. split; [by eexists |]. split; [assumption |].
    exists (EvGoto url :: evs). split; [assumption |].
    by rewrite gotos_cons_same, (gotos_notGoto url evs F).
  - destruct (attempt <? retryAttempts options)%Z eqn:Elt.
    2: { apply Z.ltb_ge in Elt. lia. }
    unfold bind, delay.
    destruct (IH (attempt + 1)%Z (logged (EvDelay (2000 * attempt)) s1))
      as [[e2 He2] [K2 [evs2 [T2 G2]]]]; [lia |].
    split; [by eexists |]. split.
    { eapply kept_trans; [exact K |]. eapply kept_trans; [| exact K2].
      by constructor. }
    exists ((EvGoto url :: evs) ++ [EvDelay (2000 * attempt)] ++ evs2).
    rewrite T2. simpl trace at 1. rewrite T, <- !app_assoc. split; [done |].
    rewrite !gotos_app, gotos_cons_same, (gotos_notGoto url evs F), G2.
    rewrite gotos_cons_other by discriminate. rewrite gotos_nil. lia.
Qed.

(** The [catch] block of [processBatch] never gets past its
    [recordError] call. *)
Lemma processOne_throw url batchNum urlNum s e :
  fst (processUrl w options sessionId url 1 (entered sessionId url s)) = Throw e ->
  processOne w options sessionId url batchNum urlNum s
  = (Throw TE,
     aborted url (snd (processUrl w options sessionId url 1 (entered sessionId url s)))).
Proof.
  intros He. unfold processOne, bind at 1 2 3. cbn [dateNow observe].
  unfold reporterRecordUrl at 1, modify at 1. fold (entered sessionId url s).
  unfold try_catch, bind at 1.
  destruct (processUrl w options sessionId url 1 (entered sessionId url s))
    as [[b | e' |] s2]; simpl in He; try discriminate.
  unfold bind at 1. cbn [dateNow observe].
  unfold bind at 1, modify at 1. unfold bind at 1, modify at 1.
  unfold bind at 1. rewrite reporterRecordError_throws. reflexivity.
Qed.

Lemma processBatchFrom_throw url rest batchNum urlNum s e :
  set_has url (processedUrls s) = false ->
  fst (processUrl w options sessionId url 1 (entered sessionId url s)) = Throw e ->
  processBatchFrom w options sessionId (url :: rest) batchNum urlNum s
  = (Throw TE,
     aborted url (snd (processUrl w options sessionId url 1 (entered sessionId url s)))).
Proof.
  intros Hnew He. cbn [processBatchFrom]. unfold bind at 1, get.
  rewrite Hnew. unfold bind at 1.
  by rewrite (processOne_throw url batchNum urlNum s e He).
Qed.

Lemma processBatchesFrom_throw url rest later i total s e :
  set_has url (processedUrls s) = false ->
  fst (processUrl w options sessionId url 1 (entered sessionId url s)) = Throw e ->
  processBatchesFrom w options sessionId ((url :: rest) :: later) i total s
  = (Throw TE,
     aborted url (snd (processUrl w options sessionId url 1 (entered sessionId url s)))).
Proof.
  intros Hnew He. cbn [processBatchesFrom]. unfold bind at 1, processBatch.
  by rewrite (processBatchFrom_throw url rest (i + 1) 1 s e Hnew He).
Qed.

(** C7 (the defect, in general). Whenever processing a URL throws,
    the exception is caught by [processBatch], but the [catch] block
    itself throws in [reporter.recordError]: the run ends there with a
    [TypeError], no ErrorRecord and no [failed] URL record is
    written, and no other URL of the batch or of a later batch is
    loaded. *)
Theorem url_failure_aborts_the_run
        (url : string) (rest : list string) (later : list (list string))
        (i total : Z) (s : State) (e : Exn) :
  set_has url (processedUrls s) = false ->
  fst (processUrl w options sessionId url 1 (entered sessionId url s)) = Throw e ->
  let r := processBatchesFrom w options sessionId ((url :: rest) :: later) i total s in
  fst r = Throw TE
  /\ Reporter.errors (reporter (snd r)) = Reporter.errors (reporter s)
  /\ Reporter.urls (reporter (snd r))
     = Reporter.urls (reporter s) ++ [processingRecord sessionId url]
  /\ forall u, u ≠ url -> gotos u (trace (snd r)) = gotos u (trace s).
Proof.
  intros Hnew He r. subst r.
  rewrite (processBatchesFrom_throw url rest later i total s e Hnew He).
  cbn [fst snd]. split; [reflexivity |].
  set (s1 := entered sessionId url s).
  split; [| split].
  - destruct (framed_processUrl w options sessionId (fun _ => True)
                (fun _ _ => I) url 1 I s1) as [K _].
    unfold aborted. simpl. by rewrite (kept_reporter _ _ K).
  - destruct (framed_processUrl w options sessionId (fun _ => True)
                (fun _ _ => I) url 1 I s1) as [K _].
    unfold aborted. simpl. by rewrite (kept_reporter _ _ K).
  - intros u Hu.
    destruct (framed_processUrl w options sessionId (fun e => e ≠ EvGoto u)
                (notGoto_ne u) url 1 ltac:(congruence) s1) as [_ [evs [T F]]].
    unfold aborted. simpl. rewrite T. subst s1. simpl.
    rewrite app_nil_r, !gotos_app, (gotos_other u evs F).
    rewrite gotos_cons_other by discriminate. rewrite gotos_nil. lia.
Qed.

(** C4 (the defect, in general). A URL whose processing throws on
    every attempt is loaded exactly [retryAttempts] times; but then
    the [catch] block of [processBatch] throws before it records the
    [failed] status: the last record of the URL stays [processing] and
    the count of [failed] records is unchanged. *)
Theorem always_failing_url_is_never_recorded_failed
        (url : string) (rest : list string) (batchNum : Z) (s : State) :
  (1 <= retryAttempts options)%Z ->
  set_has url (processedUrls s) = false ->
  (forall s1, exists e, fst (body url s1) = Throw e) ->
  let r := processBatch w options sessionId (url :: rest) batchNum s in
  gotos url (trace (snd r))
    = gotos url (trace s) + Z.to_nat (retryAttempts options)
  /\ fst r = Throw TE
  /\ Reporter.urls (reporter (snd r))
     = Reporter.urls (reporter s) ++ [processingRecord sessionId url]
  /\ Reporter.countStatus Reporter.failed (reporter (snd r))
     = Reporter.countStatus Reporter.failed (reporter s).
Proof.
  intros Hra Hnew Hthrow r. subst r. unfold processBatch.
  set (s1 := entered sessionId url s).
  destruct (processUrl_exhausts_retries url Hthrow
              (Z.to_nat (retryAttempts options - 1)) 1%Z s1 eq_refl)
    as [[e He] [K [evs [T G]]]].
  rewrite (processBatchFrom_throw url rest batchNum 1 s e Hnew He).
  cbn [fst snd]. fold s1.
  assert (Hurls : Reporter.urls (reporter (aborted url
                    (snd (processUrl w options sessionId url 1 s1))))
                  = Reporter.urls (reporter s) ++ [processingRecord sessionId url]).
  { unfold aborted. simpl. by rewrite (kept_reporter _ _ K). }
  split; [| split; [reflexivity | split; [exact Hurls |]]].
  - unfold aborted. simpl. rewrite T. subst s1. simpl.
    rewrite app_nil_r, !gotos_app, G.
    rewrite gotos_cons_other by discriminate. rewrite gotos_nil. lia.
  - unfold Reporter.countStatus. rewrite Hurls, List.filter_app, length_app.
    simpl. lia.
Qed.

End Retry.

Lemma url_failure_aborts_the_run_witness :
  let w := IndexerSamples.site [IndexerSamples.pageB] [] in
  let o := IndexerSamples.sampleOptions in
  let sid := IndexerSamples.sampleSession in
  let r := processBatchesFrom w o sid
             [[IndexerSamples.pageB; IndexerSamples.pageC]; [IndexerSamples.pageD]]
             0 2 (initial ∅) in
  set_has IndexerSamples.pageB (processedUrls (initial ∅)) = false
  /\ fst (processUrl w o sid IndexerSamples.pageB 1
            (entered sid IndexerSamples.pageB (initial ∅)))
     = Throw IndexerSamples.timedOut
  /\ fst r = Throw (typeErrorUndefined "toLowerCase")
  /\ Reporter.errors (reporter (snd r)) = []
  /\ Reporter.urls (reporter (snd r)) = [processingRecord sid IndexerSamples.pageB]
  /\ gotos IndexerSamples.pageC (trace (snd r)) = 0.
Proof.
  intros w o sid r.
  assert (Hnew : set_has IndexerSamples.pageB (processedUrls (initial ∅)) = false)
    by reflexivity.
  assert (He : fst (processUrl w o sid IndexerSamples.pageB 1
                      (entered sid IndexerSamples.pageB (initial ∅)))
               = Throw IndexerSamples.timedOut)
    by (vm_compute; reflexivity).
  destruct (url_failure_aborts_the_run w o sid IndexerSamples.pageB
              [IndexerSamples.pageC] [[IndexerSamples.pageD]] 0 2 (initial ∅)
              IndexerSamples.timedOut Hnew He) as [H1 [H2 [H3 H4]]].
  split; [exact Hnew |]. split; [exact He |]. split; [exact H1 |].
  split; [exact H2 |]. split; [exact H3 |].
  apply (H4 IndexerSamples.pageC). discriminate.
Defined.

Lemma always_failing_url_witness :
  let w := IndexerSamples.site [IndexerSamples.pageB] [] in
  let o := IndexerSamples.sampleOptions in
  let sid := IndexerSamples.sampleSession in
  let r := processBatch w o sid [IndexerSamples.pageB; IndexerSamples.pageC] 1
             (initial ∅) in
  (1 <= retryAttempts o)%Z
  /\ set_has IndexerSamples.pageB (processedUrls (initial ∅)) = false
  /\ (forall s1, exists e,
        fst (processUrlBody w o sid IndexerSamples.pageB s1) = Throw e)
  /\ gotos IndexerSamples.pageB (trace (snd r)) = 2
  /\ fst r = Throw (typeErrorUndefined "toLowerCase")
  /\ Reporter.urls (reporter (snd r)) = [processingRecord sid IndexerSamples.pageB]
  /\ Reporter.countStatus Reporter.failed (reporter (snd r)) = 0.
Proof.
  intros w o sid r.
  assert (Hra : (1 <= retryAttempts o)%Z) by (vm_compute; discriminate).
  assert (Hnew : set_has IndexerSamples.pageB (processedUrls (initial ∅)) = false)
    by reflexivity.
  assert (Hthrow : forall s1, exists e,
             fst (processUrlBody w o sid IndexerSamples.pageB s1) = Throw e)
    by (intros s1; eexists; reflexivity).
  split; [exact Hra |]. split; [exact Hnew |]. split; [exact Hthrow |].
  exact (always_failing_url_is_never_recorded_failed w o sid IndexerSamples.pageB
           [IndexerSamples.pageC] 1 (initial ∅) Hra Hnew Hthrow).
Defined.

End RetryFacts.

(** ** Progressive indexer: pages with too little text *)
Module ShortPageFacts.
Import Js Eff Indexer IndexerSpec IndexerSamples IndexerFacts FrameFacts RetryFacts.
Local Open Scope list_scope.

Lemma idle_refl s : idle s s.
Proof. split; [apply kept_refl | done]. Qed.

Lemma idle_trans s1 s2 s3 : idle s1 s2 -> idle s2 s3 -> idle s1 s3.
Proof.
  intros [K1 [A1 [B1 C1]]] [K2 [A2 [B2 C2]]].
  split; [by eapply kept_trans |]. repeat split; congruence.
Qed.

Section ShortPage.
Variable w : World.
Variable options : Options.
Variable sessionId : string.
Variable url : string.

Local Abbreviation TE := (typeErrorUndefined "toLowerCase").
Local Abbreviation report := (EvRecordError "INSUFFICIENT_CONTENT" (Some url)).

(** The page loads, and what is extracted from it is missing or
    shorter than 100 characters, whenever it is asked for. *)
Hypothesis loads : forall k, goto w k url = Return tt.
Hypothesis short :
  forall k, evaluate w k url = Return None
            \/ exists c, evaluate w k url = Return (Some c)
                         /\ String.length (c_text c) < 100.

Lemma short_body s :
  processUrlBody w options sessionId url s
  = (Throw TE,
     logged report (observed [EvEvaluate url] (observed [EvGoto url] s))).
Proof.
  unfold processUrlBody, bind at 1, observe. rewrite loads.
  unfold afterGoto, bind at 1, extractContent, observe. cbn [tick observed].
  destruct (short (S (tick s))) as [E | [c [E L]]]; rewrite E.
  - unfold bind. by rewrite reporterRecordError_throws.
  - apply Nat.ltb_lt in L. rewrite L.
    unfold bind. by rewrite reporterRecordError_throws.
Qed.

Lemma short_processUrlFrom k attempt s :
  let r := processUrlFrom w options sessionId k url attempt s in
  fst r = Throw TE
  /\ idle s (snd r)
  /\ exists evs, trace (snd r) = trace s ++ evs
                 /\ Forall quiet evs /\ In report evs.
Proof.
  revert attempt s. induction k as [| k IH]; intros attempt s;
    cbn [processUrlFrom]; unfold try_catch; rewrite short_body;
    destruct (attempt <? retryAttempts options)%Z.
  1, 2, 4:
    (cbn; split; [reflexivity |]; split; [by repeat constructor |];
     exists [EvGoto url; EvEvaluate url; report];
     split; [by rewrite <- !app_assoc |];
     split; [by repeat constructor | simpl; tauto]).
  rewrite delay_bind.
  match goal with
  | |- context [processUrlFrom _ _ _ k url ?a ?s1] =>
      destruct (IH a s1) as [Hthrow [Hidle [evs [T [F Hin]]]]]
  end.
  cbn zeta. split; [exact Hthrow |]. split.
  { eapply idle_trans; [| exact Hidle]. by repeat constructor. }
  exists ([EvGoto url; EvEvaluate url; report; EvDelay (2000 * attempt)] ++ evs).
  rewrite T. cbn [trace logged observed]. rewrite <- !app_assoc.
  split; [reflexivity |]. split.
  - apply Forall_app. split; [by repeat constructor | assumption].
  - apply in_or_app. left. simpl. tauto.
Qed.

(** C3 (amended). A URL whose extracted text is shorter than 100
    characters is neither indexed nor recorded as skipped: each
    attempt reports it to the reporter as an [INSUFFICIENT_CONTENT]
    error, nothing is split, embedded or upserted for it, neither
    chunks nor cost are added, and [processBatch] counts it in
    [urlsFailed], not in [urlsSuccessful]. *)
Theorem short_page_counts_as_failed_not_skipped (batchNum : Z) (s : State) :
  set_has url (processedUrls s) = false ->
  let s' := snd (processBatch w options sessionId [url] batchNum s) in
  urlsFailed (stats s') = (urlsFailed (stats s) + 1)%Z
  /\ urlsSuccessful (stats s') = urlsSuccessful (stats s)
  /\ chunksCreated (stats s') = chunksCreated (stats s)
  /\ totalCost (stats s') = totalCost (stats s)
  /\ store s' = store s
  /\ Reporter.countStatus Reporter.indexed (reporter s')
     = Reporter.countStatus Reporter.indexed (reporter s)
  /\ Reporter.countStatus Reporter.skipped (reporter s')
     = Reporter.countStatus Reporter.skipped (reporter s)
  /\ exists evs, trace s' = trace s ++ evs
                 /\ Forall quiet evs /\ In report evs.
Proof.
  intros Hnew s'. subst s'. unfold processBatch.
  set (s1 := entered sessionId url s).
  destruct (short_processUrlFrom (Z.to_nat (retryAttempts options - 1)) 1 s1)
    as [Hthrow [[K [Hstore [Hchunks Hcost]]] [evs [T [F Hin]]]]].
  fold (processUrl w options sessionId url 1 s1) in *.
  rewrite (processBatchFrom_throw w options sessionId url [] batchNum 1 s TE Hnew Hthrow).
  cbn [snd]. fold s1.
  set (s2 := snd (processUrl w options sessionId url 1 s1)) in *.
  assert (Hurls : Reporter.urls (reporter (aborted url s2))
                  = Reporter.urls (reporter s) ++ [processingRecord sessionId url]).
  { unfold aborted. simpl. by rewrite (kept_reporter _ _ K). }
  repeat split.
  - unfold aborted. simpl. by rewrite (kept_urlsFailed _ _ K).
  - unfold aborted. simpl. by rewrite (kept_urlsSuccessful _ _ K).
  - unfold aborted. simpl. by rewrite Hchunks.
  - unfold aborted. simpl. by rewrite Hcost.
  - unfold aborted. simpl. by rewrite Hstore.
  - unfold Reporter.countStatus. rewrite Hurls, List.filter_app, length_app.
    simpl. lia.
  - unfold Reporter.countStatus. rewrite Hurls, List.filter_app, length_app.
    simpl. lia.
  - exists (evs ++ [EvRecordError "URL_PROCESSING_ERROR" (Some url)]).
    unfold aborted. cbn [trace logged setStats observed]. rewrite T.
    subst s1. cbn [trace entered setReporter observed].
    rewrite app_nil_r, <- !app_assoc. split; [reflexivity |]. split.
    + apply Forall_app. split; [assumption | by repeat constructor].
    + apply in_or_app. by left.
Qed.

End ShortPage.

Lemma short_page_witness :
  let w := site [] [pageE] in
  let s' := snd (processBatch w sampleOptions sampleSession [pageE] 1 (initial ∅)) in
  (forall k, goto w k pageE = Return tt)
  /\ (forall k, evaluate w k pageE = Return None
                \/ exists c, evaluate w k pageE = Return (Some c)
                             /\ String.length (c_text c) < 100)
  /\ set_has pageE (processedUrls (initial ∅)) = false
  /\ urlsFailed (stats s') = 1%Z
  /\ urlsSuccessful (stats s') = 0%Z
  /\ Reporter.countStatus Reporter.skipped (reporter s') = 0.
Proof.
  intros w s'.
  assert (Hloads : forall k, goto w k pageE = Return tt) by (intros k; reflexivity).
  assert (Hshort : forall k, evaluate w k pageE = Return None
                   \/ exists c, evaluate w k pageE = Return (Some c)
                                /\ String.length (c_text c) < 100).
  { intros k. right. eexists. split; [reflexivity |]. vm_compute. lia. }
  assert (Hnew : set_has pageE (processedUrls (initial ∅)) = false) by reflexivity.
  destruct (short_page_counts_as_failed_not_skipped w sampleOptions sampleSession
              pageE Hloads Hshort 1 (initial ∅) Hnew)
    as [H1 [H2 [_ [_ [_ [_ [H7 _]]]]]]].
  split; [exact Hloads |]. split; [exact Hshort |]. split; [exact Hnew |].
  split; [exact H1 |]. split; [exact H2 |]. exact H7.
Defined.

(** C3 (as stated, refuted). A 5-page site whose last page holds 20
    characters of text: the run ends with 4 [indexed] records and no
    [skipped] record; the short page is counted in [urlsFailed]. *)
Lemma five_page_site_has_no_skipped_url :
  let s' := snd (processBatches (site [] [pageE]) sampleOptions sampleSession
                                fivePages (initial ∅)) in
  String.length shortText < 50
  /\ Reporter.countStatus Reporter.indexed (reporter s') = 4
  /\ Reporter.countStatus Reporter.skipped (reporter s') = 0
  /\ urlsFailed (stats s') = 1%Z
  /\ ~ (Reporter.countStatus Reporter.indexed (reporter s') = 4
        /\ Reporter.countStatus Reporter.skipped (reporter s') = 1).
Proof.
  vm_compute; repeat split; try lia; intros [_ H]; discriminate.
Qed.

End ShortPageFacts.

(** ** Progressive indexer: vector ids and re-indexing *)
Module IdFacts.
Import Js Eff Indexer IndexerSpec IndexerSamples IndexerFacts.

Lemma digits_of_uint d : allChars isDigit (NilEmpty.string_of_uint d) = true.
Proof. induction d; simpl; auto. Qed.

Lemma showN_digits n : allChars isDigit (showN n) = true.
Proof.
  unfold showN, NilZero.string_of_uint.
  destruct (N.to_uint n); try reflexivity; apply (digits_of_uint (_ _)).
Qed.

Lemma to_uint_nonnil n : N.to_uint n ≠ Decimal.Nil.
Proof.
  destruct n as [| p]; [discriminate |]. apply DecimalPos.Unsigned.to_uint_nonnil.
Qed.

Lemma showN_inj n n' : showN n = showN n' -> n = n'.
Proof.
  unfold showN. intros H. apply DecimalN.Unsigned.to_uint_inj.
  apply (f_equal NilZero.uint_of_string) in H.
  rewrite !NilZero.usu in H by apply to_uint_nonnil. congruence.
Qed.

(** A run of digits followed by a dash determines both the digits and
    what follows the dash. *)
Lemma digits_dash_inj a b x y :
  allChars isDigit a = true -> allChars isDigit b = true ->
  (a ++ String "-" x)%string = (b ++ String "-" y)%string -> a = b /\ x = y.
Proof.
  revert b. induction a as [| c a IH]; intros [| d b] Ha Hb H; simpl in *.
  - by injection H.
  - injection H as <- _. apply andb_true_iff in Hb. destruct Hb as [Hd _].
    vm_compute in Hd. discriminate.
  - injection H as -> _. apply andb_true_iff in Ha. destruct Ha as [Hc _].
    vm_compute in Hc. discriminate.
  - injection H as -> H.
    apply andb_true_iff in Ha, Hb. destruct Ha as [_ Ha], Hb as [_ Hb].
    destruct (IH b Ha Hb H) as [-> ->]. done.
Qed.

(** The id determines the clock reading and the chunk index. *)
Lemma vectorId_inj t i t' i' : vectorId t i = vectorId t' i' -> t = t' /\ i = i'.
Proof.
  unfold vectorId. intros H. simpl in H.
  repeat (injection H as H).
  apply digits_dash_inj in H; try apply showN_digits.
  destruct H as [Ht Hi]. apply showN_inj in Ht, Hi. split; [assumption | lia].
Qed.

Local Open Scope list_scope.

Lemma NoDup_idsFrom w k n : NoDup (idsFrom w k n).
Proof.
  unfold idsFrom. apply NoDup_fmap_2_strong; [| apply NoDup_seq].
  intros j j' _ _ H. by destruct (vectorId_inj _ _ _ _ H).
Qed.

Lemma dom_upsertAll vectors (index : gmap string Vector) :
  dom (upsertAll vectors index) = dom index ∪ list_to_set (map v_id vectors).
Proof.
  unfold upsertAll. revert index.
  induction vectors as [| v vs IH]; intros index.
  - cbn [fold_left map]. by rewrite list_to_set_nil, union_empty_r_L.
  - cbn [fold_left map]. rewrite IH, dom_insert_L, list_to_set_cons.
    by rewrite (union_comm_L {[v_id v]} (dom index)), union_assoc_L.
Qed.

(** [n] clock readings later *)
Lemma iter_observed_fields n s :
  store (Nat.iter n (observed []) s) = store s
  /\ tick (Nat.iter n (observed []) s) = n + tick s.
Proof.
  induction n as [| n [IH1 IH2]]; simpl; [done |]. by rewrite IH1, IH2.
Qed.

Section Reindex.
Variable w : World.
Variable options : Options.
Variable sessionId : string.

Lemma buildVectors_ids chunks embeddings content url total :
  forall i s,
  exists vs,
    buildVectors w sessionId chunks i total embeddings content url s
    = (Return vs, Nat.iter (2 * length chunks) (observed []) s)
    /\ map v_id vs
       = map (fun j => vectorId (now w (tick s + 2 * j)) (i + j))
             (seq 0 (length chunks)).
Proof.
  induction chunks as [| chunk rest IH]; intros i s.
  - exists []. by split.
  - cbn [buildVectors]. unfold bind at 1 2. cbn [dateNow observe].
    destruct (IH (S i) (observed [] (observed [] s))) as [vs [E Hids]].
    unfold bind at 1. rewrite E. eexists. split.
    + unfold ret. f_equal.
      replace (2 * length (chunk :: rest)) with (S (S (2 * length rest)))
        by (simpl; lia).
      by rewrite !Nat.iter_succ_r.
    + cbn [map v_id length seq]. rewrite Hids. f_equal.
      * by rewrite Nat.mul_0_r, !Nat.add_0_r.
      * rewrite <- seq_shift, map_map. apply map_ext. intros j. simpl.
        f_equal; [f_equal |]; lia.
Qed.

(** In production mode and with an index that accepts the upsert,
    [indexChunks] adds to the index exactly the ids built from its
    clock readings. *)
Lemma indexChunks_dom chunks embeddings content url s :
  testMode options = false ->
  (forall k vs, upsert w k vs = Return tt) ->
  dom (store (snd (indexChunks w options sessionId chunks embeddings content url s)))
  = dom (store s) ∪ list_to_set (idsFrom w (tick s) (length chunks)).
Proof.
  intros Hmode Hup. unfold indexChunks, try_catch. rewrite Hmode.
  destruct (buildVectors_ids chunks embeddings content url (length chunks) 0 s)
    as [vs [E Hids]].
  unfold bind at 1. rewrite E. unfold indexUpsert. rewrite Hup.
  cbn [snd store setStore observed].
  rewrite dom_upsertAll. rewrite (proj1 (iter_observed_fields _ s)).
  unfold idsFrom. by rewrite Hids.
Qed.

(** C2 (amended). Upsert overwrites by id, but the ids of
    [indexChunks] carry the clock reading: indexing the same chunks
    of the same URL a second time leaves the set of ids, and so the
    number of index entries, as it was only if the second run reads
    the same clock values as the first; if its clock readings differ
    (and its ids are not in the index yet), it adds one new entry per
    chunk. *)
Theorem reindexing_keeps_ids_only_at_equal_clock_readings
        (chunks : list string) (embeddings : list Embedding)
        (content : Content) (url : string) (s : State) :
  testMode options = false ->
  (forall k vs, upsert w k vs = Return tt) ->
  let s1 := snd (indexChunks w options sessionId chunks embeddings content url s) in
  let s2 := snd (indexChunks w options sessionId chunks embeddings content url s1) in
  let n := length chunks in
  ((forall j, j < n -> now w (tick s1 + 2 * j) = now w (tick s + 2 * j)) ->
   dom (store s2) = dom (store s1) /\ size (store s2) = size (store s1))
  /\ ((forall j, j < n -> now w (tick s1 + 2 * j) ≠ now w (tick s + 2 * j)) ->
      (forall id, id ∈ idsFrom w (tick s1) n -> id ∉ dom (store s)) ->
      (forall id, id ∈ idsFrom w (tick s1) n -> id ∉ idsFrom w (tick s) n)
      /\ size (store s2) = size (store s1) + n).
Proof.
  intros Hmode Hup s1 s2 n.
  assert (D1 : dom (store s1) = dom (store s) ∪ list_to_set (idsFrom w (tick s) n))
    by (by apply indexChunks_dom).
  assert (D2 : dom (store s2) = dom (store s1) ∪ list_to_set (idsFrom w (tick s1) n))
    by (by apply indexChunks_dom).
  split.
  - intros Hsame.
    assert (E : idsFrom w (tick s1) n = idsFrom w (tick s) n).
    { unfold idsFrom. apply map_ext_in. intros j Hj. apply in_seq in Hj.
      rewrite Hsame by lia. reflexivity. }
    assert (D : dom (store s2) = dom (store s1)).
    { by rewrite D2, E, D1, <- union_assoc_L, union_idemp_L. }
    split; [exact D |]. by rewrite <- !size_dom, D.
  - intros Hdiff Hfresh.
    assert (Hdisj : forall id, id ∈ idsFrom w (tick s1) n ->
                               id ∉ idsFrom w (tick s) n).
    { intros id H2 H1. unfold idsFrom in H1, H2.
      apply list_elem_of_fmap in H1, H2.
      destruct H1 as [j1 [-> Hj1]], H2 as [j2 [E Hj2]].
      apply vectorId_inj in E. destruct E as [Et <-].
      apply elem_of_seq in Hj1. apply (Hdiff j1); [lia | done]. }
    split; [exact Hdisj |].
    rewrite <- !size_dom, D2, size_union.
    + rewrite size_list_to_set by apply NoDup_idsFrom.
      unfold idsFrom. by rewrite length_map, length_seq.
    + intros id Hin1 Hin2. apply elem_of_list_to_set in Hin2.
      rewrite D1 in Hin1. apply elem_of_union in Hin1.
      destruct Hin1 as [Hin1 | Hin1].
      * by apply (Hfresh id).
      * apply elem_of_list_to_set in Hin1. by apply (Hdisj id).
Qed.

End Reindex.

Lemma reindexing_witness :
  let w := site [] [] in
  let run := indexChunks w sampleOptions sampleSession
               [longText] [[1%Q; 0%Q]] (pageOf longText) pageA in
  let s1 := snd (run (initial ∅)) in
  let s2 := snd (run s1) in
  testMode sampleOptions = false
  /\ (forall k vs, upsert w k vs = Return tt)
  /\ size (store s2) = size (store s1) + 1.
Proof.
  intros w run s1 s2.
  split; [reflexivity |]. split; [intros k vs; reflexivity |].
  destruct (reindexing_keeps_ids_only_at_equal_clock_readings
              w sampleOptions sampleSession [longText] [[1%Q; 0%Q]]
              (pageOf longText) pageA (initial ∅) eq_refl
              (fun _ _ => eq_refl)) as [_ H].
  apply H.
  - intros j Hj. assert (j = 0) as -> by (simpl in Hj; lia).
    vm_compute. discriminate.
  - intros id _. apply not_elem_of_empty.
Defined.

(** C2 (as stated, refuted). One chunk of one page, indexed twice
    three milliseconds apart: the index holds one entry after the first
    run and two after the second, under two different ids. *)
Lemma reindexing_duplicates_entries :
  let run := indexChunks (site [] []) sampleOptions sampleSession
               [longText] [[1%Q; 0%Q]] (pageOf longText) pageA in
  let s1 := snd (run (initial ∅)) in
  let s2 := snd (run s1) in
  size (store s1) = 1 /\ size (store s2) = 2
  /\ dom (store s2) ≠ dom (store s1)
  /\ is_Some (store s2 !! "guimera-p1-1700000000000-0")
  /\ is_Some (store s2 !! "guimera-p1-1700000000003-0").
Proof.
  intros run s1 s2.
  assert (H1 : size (store s1) = 1) by (vm_compute; reflexivity).
  assert (H2 : size (store s2) = 2) by (vm_compute; reflexivity).
  split; [exact H1 |]. split; [exact H2 |]. split.
  - intros E. rewrite <- !size_dom, E in H2. rewrite <- size_dom in H1. lia.
  - split; vm_compute; eexists; reflexivity.
Qed.

End IdFacts.

(** ** Progressive indexer: batches and the cost budget *)
Module BudgetFacts.
Import Js Eff Indexer IndexerSpec IndexerSamples IndexerFacts.
Local Open Scope list_scope.

(** With a positive batch size the loop of [createBatches] ends, and
    the batches are the array cut into consecutive pieces. *)
Lemma createBatchesFrom_total {A} (batchSize : nat) :
  0 < batchSize ->
  forall fuel (array : list A),
    length array <= fuel ->
    exists batches,
      createBatchesFrom fuel array batchSize = Some batches
      /\ concat batches = array
      /\ Forall (fun b => length b <= batchSize) batches.
Proof.
  intros Hpos. induction fuel as [| fuel IH]; intros array Hlen.
  - destruct array; [| simpl in Hlen; lia]. exists []. by repeat split.
  - destruct array as [| x l]; [exists []; by repeat split |].
    cbn [createBatchesFrom].
    destruct (IH (skipn batchSize (x :: l))) as [bs [E [C F]]].
    { rewrite length_skipn. simpl in *. lia. }
    rewrite E. exists (firstn batchSize (x :: l) :: bs). split; [reflexivity |].
    split.
    + cbn [concat]. rewrite C. apply firstn_skipn.
    + constructor; [| assumption]. rewrite length_firstn. lia.
Qed.

Lemma createBatches_total {A} (array : list A) (batchSize : nat) :
  0 < batchSize ->
  exists batches,
    createBatches array batchSize = Some batches
    /\ concat batches = array
    /\ Forall (fun b => length b <= batchSize) batches.
Proof. intros H. by apply createBatchesFrom_total. Qed.

Section Budget.
Variable w : World.
Variable options : Options.
Variable sessionId : string.

Local Abbreviation cost := (fun s : State => totalCost (stats s)).
Local Abbreviation budget := (costBudget options).


(** One turn of the loop of [processBatches]. *)
Lemma processBatchesFrom_cons batch rest i total s :
  processBatchesFrom w options sessionId (batch :: rest) i total s
  = match processBatch w options sessionId batch (i + 1) s with
    | (Return _, s1) =>
        if Qltb budget (totalCost (stats s1)) then (Return tt, s1)
        else processBatchesFrom w options sessionId rest (i + 1) total
               (if (i <? total - 1)%Z then logged (EvDelay (delayMs options)) s1
                else s1)
    | (Throw e, s1) => (Throw e, s1)
    | (Diverge, s1) => (Diverge, s1)
    end.
Proof.
  cbn [processBatchesFrom]. unfold bind at 1.
  destruct (processBatch w options sessionId batch (i + 1) s) as [[[] | e |] s1];
    try reflexivity.
  unfold bind at 1, get.
  destruct (Qltb budget (totalCost (stats s1))); [reflexivity |].
  destruct (i <? total - 1)%Z; reflexivity.
Qed.



End Budget.


(** On the sample site with the tight budget, the first batch of two
    pages crosses the budget and no page of a later batch is loaded. *)
Example tight_budget_stops_after_first_batch :
  let s' := snd (processBatches (site [] []) tightOptions sampleSession
                                fivePages (initial ∅)) in
  (totalCost (stats s') == 13 # 100000)%Q
  /\ map (fun st => snd st)
         (startedBatches (site [] []) tightOptions sampleSession fivePages (initial ∅))
     = [1%Z]
  /\ gotos pageA (trace s') = 1 /\ gotos pageB (trace s') = 1
  /\ gotos pageC (trace s') = 0 /\ gotos pageD (trace s') = 0
  /\ gotos pageE (trace s') = 0.
Proof. vm_compute. repeat split; reflexivity. Qed.

End BudgetFacts.

(** ** Indexing tracker *)
Module TrackerFacts.
Import Js Eff Tracker TrackerSpec JsFacts.
Local Open Scope list_scope.
Local Open Scope Z_scope.

Lemma lookup_putSession sid s t sid' :
  sessions (putSession sid s t) !! sid'
  = if decide (sid = sid') then Some s else sessions t !! sid'.
Proof. unfold putSession. cbn [sessions]. apply lookup_insert. Qed.

Lemma trackerOk_put sid s t :
  trackerOk t -> sessionOk s -> trackerOk (putSession sid s t).
Proof.
  intros Ht Hs sid' s' H. rewrite lookup_putSession in H.
  destruct (decide (sid = sid')); [by injection H as <- | by eapply Ht].
Qed.

Lemma trackerOk_initial : trackerOk initial.
Proof. intros sid s H. cbn in H. by rewrite lookup_empty in H. Qed.

Lemma sessionOk_new sid src now : sessionOk (newSession sid src now).
Proof.
  split; [reflexivity |]. repeat split; try constructor.
  intros u H. by apply elem_of_nil in H.
Qed.

(** The loop of [recordDiscoveredUrls]. *)
Lemma discoverLoop_spec urls :
  forall d q nu d' q' nu',
    discoverLoop urls d q nu = (d', q', nu') ->
    NoDup d -> NoDup q -> (forall u, u ∈ q -> u ∈ d) ->
    NoDup d' /\ NoDup q'
    /\ (forall u, u ∈ d' <-> u ∈ d \/ u ∈ urls)
    /\ (forall u, u ∈ q' <-> u ∈ q \/ (u ∈ urls /\ u ∉ d))
    /\ (length d' + length nu = length d + length nu')%nat.
Proof.
  induction urls as [| url rest IH]; intros d q nu d' q' nu' E Hd Hq Hsub.
  - cbn in E. injection E as <- <- <-. repeat split; try assumption.
    + by left.
    + intros [H | H]; [assumption | by apply elem_of_nil in H].
    + by left.
    + intros [H | [H _]]; [assumption | by apply elem_of_nil in H].
  - cbn [discoverLoop] in E. destruct (set_has url d) eqn:Ehas.
    + apply set_has_true in Ehas.
      destruct (IH _ _ _ _ _ _ E Hd Hq Hsub) as [Nd [Nq [Md [Mq L]]]].
      repeat split; try assumption.
      * intros H. apply Md in H. rewrite elem_of_cons. tauto.
      * rewrite elem_of_cons. intros [H | [-> | H]]; apply Md; tauto.
      * intros H. apply Mq in H. rewrite elem_of_cons. tauto.
      * rewrite elem_of_cons. intros [H | [[-> | H] Hn]]; apply Mq; tauto.
    + apply set_has_false in Ehas.
      assert (Hsub' : forall u, u ∈ set_add url q -> u ∈ set_add url d).
      { intros u. rewrite !elem_of_set_add. intros [-> | H]; [by left |].
        right. by apply Hsub. }
      destruct (IH _ _ _ _ _ _ E (NoDup_set_add url d Hd) (NoDup_set_add url q Hq) Hsub')
        as [Nd [Nq [Md [Mq L]]]].
      repeat split; try assumption.
      * intros H. apply Md in H. rewrite elem_of_set_add in H.
        rewrite elem_of_cons. tauto.
      * rewrite elem_of_cons. intros H. apply Md. rewrite elem_of_set_add. tauto.
      * intros H. apply Mq in H. rewrite !elem_of_set_add in H.
        rewrite elem_of_cons.
        destruct H as [[-> | H] | [H Hn]]; [right | by left | right]; tauto.
      * rewrite elem_of_cons. intros H. apply Mq. rewrite !elem_of_set_add.
        destruct H as [H | [[-> | H] Hn]]; [tauto | tauto |].
        destruct (decide (u = url)) as [-> | Hne]; tauto.
      * rewrite set_add_length_new in L by assumption.
        rewrite length_app in L. simpl in L. lia.
Qed.

(** One [recordDiscoveredUrls] call on a known session. *)
Lemma recordDiscoveredUrls_spec sid urls t s :
  sessions t !! sid = Some s -> sessionOk s ->
  exists s',
    sessions (snd (recordDiscoveredUrls sid urls t)) !! sid = Some s'
    /\ sessionOk s'
    /\ (forall u, u ∈ discoveredUrls s' <-> u ∈ discoveredUrls s \/ u ∈ urls)
    /\ (forall u, u ∈ queuedUrls s'
                  <-> u ∈ queuedUrls s \/ (u ∈ urls /\ u ∉ discoveredUrls s)).
Proof.
  intros Hs [Hc [Hd [Hq [Hsub Hn]]]]. unfold recordDiscoveredUrls. rewrite Hs.
  destruct (discoverLoop urls (discoveredUrls s) (queuedUrls s) [])
    as [[d q] nu] eqn:E.
  destruct (discoverLoop_spec _ _ _ _ _ _ _ E Hd Hq Hsub) as [Nd [Nq [Md [Mq L]]]].
  eexists. split.
  { cbn [snd]. rewrite lookup_putSession. by rewrite decide_True. }
  split; [| split; assumption].
  split; [exact Hc |]. repeat split; cbn; try assumption.
  - intros u H. apply Mq in H. apply Md. destruct H as [H | [H _]]; [| tauto].
    left. by apply Hsub.
  - rewrite Hn. simpl in L. lia.
Qed.

(** Every call keeps every session counted and deduplicated. *)
Lemma step_ok op t : trackerOk t -> trackerOk (step op t).
Proof.
  intros Ht. destruct op; cbn [step].
  - (* startIndexingSession *)
    intros sid' s' H. cbn in H. rewrite lookup_insert in H.
    destruct (decide _); [injection H as <-; apply sessionOk_new | by eapply Ht].
  - (* endIndexingSession *)
    unfold endIndexingSession. destruct (sessions t !! sid) as [s |] eqn:E; [| done].
    intros sid' s' H. cbn in H. rewrite lookup_insert in H.
    destruct (decide _); [injection H as <- | by eapply Ht].
    exact (Ht _ _ E).
  - (* recordDiscoveredUrls *)
    destruct (sessions t !! sid) as [s |] eqn:E.
    + unfold recordDiscoveredUrls. rewrite E.
      destruct (recordDiscoveredUrls_spec sid urls t s E (Ht _ _ E))
        as [s' [Hl [Hok _]]].
      unfold recordDiscoveredUrls in Hl. rewrite E in Hl.
      destruct (discoverLoop _ _ _ _) as [[d q] nu]. cbn [snd] in *.
      apply trackerOk_put; [assumption |].
      rewrite lookup_putSession, decide_True in Hl by done. by injection Hl as <-.
    + unfold recordDiscoveredUrls. by rewrite E.
  - (* recordProcessingStart *)
    unfold recordProcessingStart.
    destruct (sessions t !! sid) as [s |] eqn:E; [| done].
    apply trackerOk_put; [assumption |].
    destruct (Ht _ _ E) as [Hc [Hd [Hq [Hsub Hn]]]].
    split; [exact Hc |]. repeat split; cbn; try assumption.
    + by apply NoDup_set_delete.
    + intros u H. apply elem_of_set_delete in H. apply Hsub. tauto.
  - (* recordProcessingSuccess *)
    unfold recordProcessingSuccess.
    destruct (sessions t !! sid) as [s |] eqn:E; [| done].
    destruct (Ht _ _ E) as [Hc Hd].
    destruct result as [result |]; cbn [snd]; (apply trackerOk_put; [assumption |]).
    + split; [| exact Hd]. unfold counted in *. cbn. lia.
    + split; [exact Hc | exact Hd].
  - (* recordProcessingFailure *)
    unfold recordProcessingFailure.
    destruct (sessions t !! sid) as [s |] eqn:E; [| done].
    destruct (Ht _ _ E) as [Hc Hd].
    destruct error; cbn [snd]; (apply trackerOk_put; [assumption |]).
    1, 2: split; [| exact Hd]; unfold counted in *; cbn; lia.
    split; [exact Hc | exact Hd].
  - (* recordSkippedUrl *)
    unfold recordSkippedUrl.
    destruct (sessions t !! sid) as [s |] eqn:E; [| done].
    apply trackerOk_put; [assumption |].
    destruct (Ht _ _ E) as [Hc [Hd [Hq [Hsub Hn]]]].
    split; [exact Hc |]. repeat split; cbn; try assumption.
    + by apply NoDup_set_delete.
    + intros u H. apply elem_of_set_delete in H. apply Hsub. tauto.
  - (* recordDuplicateContent *)
    unfold recordDuplicateContent.
    destruct (sessions t !! sid) as [s |] eqn:E; [| done].
    apply trackerOk_put; [assumption | exact (Ht _ _ E)].
  - (* recordLowQualityContent *)
    unfold recordLowQualityContent.
    destruct (sessions t !! sid) as [s |] eqn:E; [| done].
    apply trackerOk_put; [assumption | exact (Ht _ _ E)].
Qed.

Lemma run_ok ops t : trackerOk t -> trackerOk (run ops t).
Proof.
  revert t. induction ops as [| op ops IH]; intros t Ht; [exact Ht |].
  apply IH. by apply step_ok.
Qed.

Lemma count_occ_absent (u : string) (l : list string) :
  u ∉ l -> count_occ string_dec l u = 0%nat.
Proof. intros H. apply count_occ_not_In. by rewrite <- list_elem_of_In. Qed.

(** A series of [recordDiscoveredUrls] calls on a known session. *)
Lemma discover_calls sid calls :
  forall t s,
    sessions t !! sid = Some s -> sessionOk s ->
    exists s',
      sessions (run (map (RecordDiscoveredUrls sid) calls) t) !! sid = Some s'
      /\ sessionOk s'
      /\ (forall u, u ∈ discoveredUrls s'
                    <-> u ∈ discoveredUrls s \/ u ∈ concat calls)
      /\ (forall u, u ∈ queuedUrls s'
                    <-> u ∈ queuedUrls s
                        \/ (u ∈ concat calls /\ u ∉ discoveredUrls s)).
Proof.
  induction calls as [| urls rest IH]; intros t s Hs Hok.
  - exists s. split; [exact Hs |]. split; [exact Hok |].
    cbn [concat]. split; intros u; rewrite elem_of_nil; tauto.
  - destruct (recordDiscoveredUrls_spec sid urls t s Hs Hok)
      as [s1 [Hs1 [Hok1 [Md1 Mq1]]]].
    destruct (IH _ s1 Hs1 Hok1) as [s' [Hs' [Hok' [Md Mq]]]].
    exists s'. split; [exact Hs' |]. split; [exact Hok' |].
    cbn [concat]. split; intros u.
    + rewrite Md, Md1, elem_of_app. tauto.
    + rewrite Mq, Mq1, Md1, elem_of_app.
      destruct (decide (u ∈ urls)); tauto.
Qed.

(** C6. On any session of the tracker, whatever happened before,
    discovering URLs any number of times through
    [recordDiscoveredUrls] leaves each of them exactly once in the
    discovered set; a URL not known before is put in the queue exactly
    once, a URL known before is not queued again; and
    [pagesDiscovered] is the number of entries of the discovered set. *)
Theorem discovered_urls_are_deduplicated
        (history : list Op) (sid : string) (s : Session)
        (calls : list (list string)) :
  sessions (run history initial) !! sid = Some s ->
  exists s',
    sessions (run (map (RecordDiscoveredUrls sid) calls) (run history initial)) !! sid
    = Some s'
    /\ (forall url, url ∈ concat calls ->
                    count_occ string_dec (discoveredUrls s') url = 1%nat)
    /\ (forall url, url ∈ concat calls -> url ∉ discoveredUrls s ->
                    count_occ string_dec (queuedUrls s') url = 1%nat)
    /\ (forall url, url ∈ discoveredUrls s ->
                    count_occ string_dec (queuedUrls s') url
                    = count_occ string_dec (queuedUrls s) url)
    /\ pagesDiscovered (stats s') = Z.of_nat (length (discoveredUrls s')).
Proof.
  intros Hs.
  assert (Hok : sessionOk s) by exact (run_ok history initial trackerOk_initial _ _ Hs).
  destruct (discover_calls sid calls _ s Hs Hok)
    as [s' [Hs' [[_ [Nd [Nq [_ Hn]]]] [Md Mq]]]].
  destruct Hok as [_ [_ [Nq0 _]]].
  exists s'. split; [exact Hs' |]. repeat split.
  - intros url H. apply count_occ_NoDup_1; [assumption |]. apply Md. by right.
  - intros url H Hnew. apply count_occ_NoDup_1; [assumption |]. apply Mq. by right.
  - intros url H. destruct (decide (url ∈ queuedUrls s)) as [Hq | Hq].
    + rewrite !count_occ_NoDup_1; try assumption; [done |]. apply Mq. by left.
    + rewrite !count_occ_absent; [done | assumption |].
      intros Hq'. apply Mq in Hq'. tauto.
  - exact Hn.
Qed.

Lemma discovered_urls_witness :
  exists s,
    sessions (run sampleHistory initial) !! sampleSid = Some s
    /\ exists s',
         sessions (run (map (RecordDiscoveredUrls sampleSid)
                            [["https://www.guimera.info/museu";
                              "https://www.guimera.info/ruta"];
                             ["https://www.guimera.info/ruta"]])
                       (run sampleHistory initial)) !! sampleSid
         = Some s'
         /\ count_occ string_dec (discoveredUrls s') "https://www.guimera.info/ruta"
            = 1%nat
         /\ pagesDiscovered (stats s') = Z.of_nat (length (discoveredUrls s')).
Proof.
  assert (E : exists s, sessions (run sampleHistory initial) !! sampleSid = Some s)
    by (vm_compute; eexists; reflexivity).
  destruct E as [s E]. exists s. split; [exact E |].
  destruct (discovered_urls_are_deduplicated sampleHistory sampleSid s
              [["https://www.guimera.info/museu"; "https://www.guimera.info/ruta"];
               ["https://www.guimera.info/ruta"]] E)
    as [s' [Hs' [H1 [_ [_ H4]]]]].
  exists s'. split; [exact Hs' |]. split; [| exact H4].
  apply H1. apply list_elem_of_In. cbn [concat app In]. right. left. reflexivity.
Defined.

(** C10. After any sequence of tracker calls, every session has
    [pagesProcessed = pagesIndexed + pagesFailed]; a recorded success
    adds one to [pagesProcessed] and to [pagesIndexed], a recorded
    failure adds one to [pagesProcessed] and to [pagesFailed], and a
    skipped URL adds one to [pagesSkipped] only. *)
Theorem processed_is_indexed_plus_failed
        (history : list Op) (sid : string) (s : Session) :
  sessions (run history initial) !! sid = Some s ->
  let t := run history initial in
  pagesProcessed (stats s) = pagesIndexed (stats s) + pagesFailed (stats s)
  /\ (forall url result now,
        exists s',
          sessions (snd (recordProcessingSuccess sid url (Some result) now t)) !! sid
          = Some s'
          /\ pagesProcessed (stats s') = pagesProcessed (stats s) + 1
          /\ pagesIndexed (stats s') = pagesIndexed (stats s) + 1
          /\ pagesFailed (stats s') = pagesFailed (stats s)
          /\ pagesSkipped (stats s') = pagesSkipped (stats s))
  /\ (forall url error attempt now,
        error ≠ ErrNullish ->
        exists s',
          sessions (snd (recordProcessingFailure sid url error attempt now t)) !! sid
          = Some s'
          /\ pagesProcessed (stats s') = pagesProcessed (stats s) + 1
          /\ pagesFailed (stats s') = pagesFailed (stats s) + 1
          /\ pagesIndexed (stats s') = pagesIndexed (stats s)
          /\ pagesSkipped (stats s') = pagesSkipped (stats s))
  /\ (forall url reason,
        exists s',
          sessions (recordSkippedUrl sid url reason t) !! sid = Some s'
          /\ pagesSkipped (stats s') = pagesSkipped (stats s) + 1
          /\ pagesProcessed (stats s') = pagesProcessed (stats s)
          /\ pagesIndexed (stats s') = pagesIndexed (stats s)
          /\ pagesFailed (stats s') = pagesFailed (stats s)).
Proof.
  intros Hs t. subst t. split; [| split; [| split]].
  - exact (proj1 (run_ok history initial trackerOk_initial _ _ Hs)).
  - intros url result now. unfold recordProcessingSuccess. rewrite Hs. cbn [snd].
    eexists. split; [by rewrite lookup_putSession, decide_True |]. by cbn.
  - intros url error attempt now Herr. unfold recordProcessingFailure. rewrite Hs.
    destruct error; [| | congruence]; cbn [snd];
      (eexists; split; [by rewrite lookup_putSession, decide_True |]; by cbn).
  - intros url reason. unfold recordSkippedUrl. rewrite Hs.
    eexists. split; [by rewrite lookup_putSession, decide_True |]. by cbn.
Qed.

Lemma processed_is_indexed_plus_failed_witness :
  exists s,
    sessions (run sampleHistory initial) !! sampleSid = Some s
    /\ pagesProcessed (stats s) = pagesIndexed (stats s) + pagesFailed (stats s).
Proof.
  assert (E : exists s, sessions (run sampleHistory initial) !! sampleSid = Some s)
    by (vm_compute; eexists; reflexivity).
  destruct E as [s E]. exists s. split; [exact E |].
  exact (proj1 (processed_is_indexed_plus_failed sampleHistory sampleSid s E)).
Defined.

(** The counters of the sample history. *)
Example sample_history_counts :
  exists s,
    sessions (run sampleHistory initial) !! sampleSid = Some s
    /\ pagesDiscovered (stats s) = 3 /\ pagesProcessed (stats s) = 2
    /\ pagesIndexed (stats s) = 1 /\ pagesFailed (stats s) = 1
    /\ pagesSkipped (stats s) = 1
    /\ discoveredUrls s = ["https://www.guimera.info/";
                           "https://www.guimera.info/castell";
                           "https://www.guimera.info/museu"]
    /\ queuedUrls s = [].
Proof. vm_compute. eexists. repeat split; reflexivity. Qed.

End TrackerFacts.

(** ** Quality-assurance validator: further properties *)
Module QAMoreFacts.
Import Js QA QAReport JsFacts QASamples QAFacts.
Local Open Scope Q_scope.

Lemma inject_nat_nonneg n : 0 <= inject_Z (Z.of_nat n).
Proof. rewrite <- (Zle_Qle 0). lia. Qed.

Lemma inject_nat_pos n : (0 < n)%nat -> 0 < inject_Z (Z.of_nat n).
Proof. intros H. rewrite <- (Zlt_Qlt 0). lia. Qed.

Lemma ratio_nonneg n d : 0 <= ratio n d.
Proof.
unfold ratio, Qdiv. apply Qmult_le_0_compat; [apply inject_nat_nonneg |].
apply Qinv_le_0_compat, inject_nat_nonneg.
Qed.

Lemma ratio_le_1 n d : (n <= d)%nat -> (0 < d)%nat -> ratio n d <= 1.
Proof.
intros Hle Hpos. unfold ratio. apply Qle_shift_div_r; [by apply inject_nat_pos |].
rewrite Qmult_1_l, <- Zle_Qle. lia.
Qed.

Lemma lowerChar_idem c : lowerChar (lowerChar c) = lowerChar c.
Proof. destruct c as [[] [] [] [] [] [] [] []]; vm_compute; reflexivity. Qed.

Lemma toLowerCase_idem s : toLowerCase (toLowerCase s) = toLowerCase s.
Proof. induction s as [| c s IH]; simpl; [reflexivity |]. by rewrite lowerChar_idem, IH. Qed.

Lemma toLowerCase_empty s : toLowerCase s = "" <-> s = "".
Proof. destruct s; simpl; split; congruence. Qed.

Lemma orStr_some s : orStr (Some s) "" = s.
Proof.
unfold orStr, falsyStr. destruct (String.eqb s "") eqn:E; [| reflexivity].
apply String.eqb_eq in E. by subst.
Qed.

(** The word set of a text *)
Lemma set_sizes_swap (w1 w2 : list string) :
NoDup w1 -> NoDup w2 ->
length (set_of_list (List.filter (fun x => set_has x w2) w1))
= length (set_of_list (List.filter (fun x => set_has x w1) w2))
/\ length (set_of_list (w1 ++ w2)) = length (set_of_list (w2 ++ w1))
/\ (length (set_of_list (List.filter (fun x => set_has x w2) w1))
    <= length (set_of_list (w1 ++ w2)))%nat
/\ (length w1 <= length (set_of_list (w1 ++ w2)))%nat.
Proof.
intros N1 N2.
assert (In12 : forall x, x ∈ set_of_list (List.filter (fun y => set_has y w2) w1)
                         <-> x ∈ w1 /\ x ∈ w2).
{ intros x. rewrite elem_of_set_of_list, !list_elem_of_In, List.filter_In.
  rewrite <- !list_elem_of_In, set_has_true. tauto. }
assert (In21 : forall x, x ∈ set_of_list (List.filter (fun y => set_has y w1) w2)
                         <-> x ∈ w1 /\ x ∈ w2).
{ intros x. rewrite elem_of_set_of_list, !list_elem_of_In, List.filter_In.
  rewrite <- !list_elem_of_In, set_has_true. tauto. }
repeat split.
- apply Permutation_length, NoDup_Permutation; try apply NoDup_set_of_list.
  intros x. rewrite In12, In21. tauto.
- apply Permutation_length, NoDup_Permutation; try apply NoDup_set_of_list.
  intros x. rewrite !elem_of_set_of_list, !elem_of_app. tauto.
- apply submseteq_length, NoDup_submseteq; [apply NoDup_set_of_list |].
  intros x Hx. apply In12 in Hx. rewrite elem_of_set_of_list, elem_of_app. tauto.
- apply submseteq_length, NoDup_submseteq; [assumption |].
  intros x Hx. rewrite elem_of_set_of_list, elem_of_app. tauto.
Qed.

(** X1. [calculateContentSimilarity] is a number between 0 and 1, does not
  depend on the order of its two arguments, and is 0 as soon as one of
  the two contents is missing or empty. *)
Theorem similarity_range_and_symmetry (c1 c2 : option string) :
0 <= calculateContentSimilarity c1 c2
/\ calculateContentSimilarity c1 c2 <= 1
/\ calculateContentSimilarity c1 c2 = calculateContentSimilarity c2 c1
/\ (falsyStr c1 || falsyStr c2 = true -> calculateContentSimilarity c1 c2 = 0).
Proof.
unfold calculateContentSimilarity.
set (t1 := toLowerCase (orStr c1 "")). set (t2 := toLowerCase (orStr c2 "")).
set (w1 := set_of_list (split isWhiteSpace t1)).
set (w2 := set_of_list (split isWhiteSpace t2)).
destruct (set_sizes_swap w1 w2 (NoDup_set_of_list _) (NoDup_set_of_list _))
  as [Hi [Hu [Hle Hw]]].
assert (Hpos : (0 < length (set_of_list (w1 ++ w2)))%nat).
{ assert (w1 ≠ []) as Hne.
  { subst w1. intros Hnil.
    pose proof (split_nonempty isWhiteSpace t1) as Hs.
    destruct (split isWhiteSpace t1) as [| x l] eqn:El; [congruence |].
    assert (Hx : x ∈ set_of_list (x :: l)) by (apply elem_of_set_of_list; left).
    rewrite Hnil in Hx. by apply elem_of_nil in Hx. }
  apply Nat.lt_le_trans with (length w1); [| exact Hw].
  destruct (length w1) eqn:E; [| lia]. apply nil_length_inv in E. contradiction. }
repeat split.
- destruct (String.eqb t1 "" || String.eqb t2 ""); [apply Qle_refl | apply ratio_nonneg].
- destruct (String.eqb t1 "" || String.eqb t2 "");
    [unfold Qle; simpl; lia | by apply ratio_le_1].
- rewrite (orb_comm (String.eqb t2 "")).
  destruct (String.eqb t1 "" || String.eqb t2 ""); [reflexivity |].
  by rewrite Hi, Hu.
- intros Hfalsy.
  assert (E : String.eqb t1 "" || String.eqb t2 "" = true).
  { apply orb_true_iff in Hfalsy. apply orb_true_iff.
    destruct Hfalsy as [H | H]; [left | right]; apply String.eqb_eq;
      [subst t1 | subst t2]; unfold orStr; by rewrite H. }
  by rewrite E.
Qed.

(** X2. Two equal non-empty texts have similarity 1, and the similarity
  of two texts does not change when their letters change case. *)
Theorem similarity_of_equal_texts_and_case (text other : string) :
text ≠ "" ->
calculateContentSimilarity (Some text) (Some text) == 1
/\ calculateContentSimilarity (Some (toLowerCase text)) (Some (toLowerCase other))
   = calculateContentSimilarity (Some text) (Some other).
Proof.
intros Hne. split.
- apply similarity_identical. by rewrite toLowerCase_empty.
- unfold calculateContentSimilarity. by rewrite !orStr_some, !toLowerCase_idem.
Qed.

Lemma similarity_of_equal_texts_witness :
sampleText ≠ ""
/\ calculateContentSimilarity (Some sampleText) (Some sampleText) == 1
/\ calculateContentSimilarity (Some (toLowerCase sampleText))
                              (Some (toLowerCase "EL CASTELL"))
   = calculateContentSimilarity (Some sampleText) (Some "EL CASTELL").
Proof.
assert (H : sampleText ≠ "") by discriminate.
split; [exact H |].
exact (similarity_of_equal_texts_and_case sampleText "EL CASTELL" H).
Defined.



Lemma Qgeb_true a b : Qgeb a b = true <-> b <= a.
Proof. unfold Qgeb. apply Qle_bool_iff. Qed.

Lemma Qltb_true a b : Qltb a b = true <-> a < b.
Proof.
unfold Qltb. rewrite negb_true_iff. split.
- intros H. apply Qnot_le_lt. intros Hle. apply Qle_bool_iff in Hle. congruence.
- intros H. destruct (Qle_bool b a) eqn:E; [| reflexivity].
  apply Qle_bool_iff in E. lra.
Qed.

(** A conjunction of three threshold tests keeps holding when the
  figures improve. *)
Lemma thresholds_mono q d r q' d' r' tq td tr :
q <= q' -> d' <= d -> r <= r' ->
Qgeb q tq && Qltb d td && Qgeb r tr = true ->
Qgeb q' tq && Qltb d' td && Qgeb r' tr = true.
Proof.
intros Hq Hd Hr H. apply andb_true_iff in H. destruct H as [H H3].
apply andb_true_iff in H. destruct H as [H1 H2].
apply Qgeb_true in H1, H3. apply Qltb_true in H2.
rewrite !andb_true_iff. repeat split;
  [apply Qgeb_true | apply Qltb_true | apply Qgeb_true]; lra.
Qed.

(** X4. The overall status never gets worse when the average quality and
  the search relevance rise and the duplicate rate falls. *)
Theorem overall_status_is_monotone (q d r q' d' r' : Q) :
q <= q' -> d' <= d -> r <= r' ->
(rank (determineOverallStatus q d r) <= rank (determineOverallStatus q' d' r'))%nat.
Proof.
intros Hq Hd Hr. unfold determineOverallStatus.
destruct (Qgeb q (8 # 10) && Qltb d 5 && Qgeb r (7 # 10)) eqn:E1.
{ rewrite (thresholds_mono _ _ _ _ _ _ _ _ _ Hq Hd Hr E1). simpl. lia. }
destruct (Qgeb q (7 # 10) && Qltb d 10 && Qgeb r (6 # 10)) eqn:E2.
{ rewrite (thresholds_mono _ _ _ _ _ _ _ _ _ Hq Hd Hr E2).
  destruct (Qgeb q' (8 # 10) && Qltb d' 5 && Qgeb r' (7 # 10)); simpl; lia. }
destruct (Qgeb q (6 # 10) && Qltb d 20 && Qgeb r (5 # 10)) eqn:E3.
{ rewrite (thresholds_mono _ _ _ _ _ _ _ _ _ Hq Hd Hr E3).
  destruct (Qgeb q' (8 # 10) && Qltb d' 5 && Qgeb r' (7 # 10));
    destruct (Qgeb q' (7 # 10) && Qltb d' 10 && Qgeb r' (6 # 10)); simpl; lia. }
simpl. lia.
Qed.

Lemma overall_status_witness :
(6 # 10) <= (9 # 10) /\ 2 <= 12 /\ (5 # 10) <= (7 # 10)
/\ (rank (determineOverallStatus (6 # 10) 12 (5 # 10))
    <= rank (determineOverallStatus (9 # 10) 2 (7 # 10)))%nat.
Proof.
assert (H1 : (6 # 10) <= (9 # 10)) by (vm_compute; discriminate).
assert (H2 : 2 <= 12) by (vm_compute; discriminate).
assert (H3 : (5 # 10) <= (7 # 10)) by (vm_compute; discriminate).
split; [exact H1 |]. split; [exact H2 |]. split; [exact H3 |].
exact (overall_status_is_monotone _ _ _ _ _ _ H1 H2 H3).
Defined.

Lemma issues_flag cond issue advice penalty a :
issues (flag cond issue advice penalty a)
= (issues a ++ (if cond then [issue] else []))%list.
Proof. unfold flag. destruct cond; simpl; [reflexivity | by rewrite app_nil_r]. Qed.

Lemma in_issues_flag x cond issue advice penalty a :
In x (issues (flag cond issue advice penalty a)) ->
In x (issues a) \/ (cond = true /\ x = issue).
Proof.
rewrite issues_flag, in_app_iff. destruct cond; simpl; [| tauto].
intros [H | [H | []]]; auto.
Qed.

Lemma flag_advised cond issue advice penalty a :
advised a -> advised (flag cond issue advice penalty a).
Proof.
unfold advised, flag. destruct cond; [| done]. simpl.
destruct advice; rewrite ?length_app; simpl; lia.
Qed.

Lemma assess_score_formula chunk :
score (assessContentQuality chunk)
== Qmax 0 (1 - totalPenalty (issues (assessContentQuality chunk))).
Proof.
unfold assessContentQuality.
match goal with
| |- context [Qmax 0 (score ?a)] => assert (Hf : tallied a)
end.
{ repeat (apply flag_tallied; [reflexivity |]).
  assert (H0 : tallied {| score := 1; issues := []; recommendations := [] |})
    by (unfold tallied; simpl; ring).
  destruct (content chunk) as [text |].
  - destruct (falsyStr (Some text)); [| apply contentChecks_tallied];
      repeat (apply flag_tallied; [reflexivity |]); assumption.
  - repeat (apply flag_tallied; [reflexivity |]); assumption. }
cbn [score issues]. unfold tallied in Hf. by rewrite Hf.
Qed.

Lemma assess_score_bounds chunk :
0 <= score (assessContentQuality chunk) /\ score (assessContentQuality chunk) <= 1.
Proof.
rewrite assess_score_formula. split; [apply Q.le_max_l |].
apply Q.max_lub; [unfold Qle; simpl; lia |].
pose proof (totalPenalty_nonneg (issues (assessContentQuality chunk))). lra.
Qed.

Lemma penaltyOf_at_least i : 1 # 10 <= penaltyOf i.
Proof. unfold penaltyOf. repeat case_match; unfold Qle; simpl; lia. Qed.

(** Where an issue comes from. *)
Lemma issue_origin chunk x :
In x (issues (assessContentQuality chunk)) ->
(x = "Content too short" /\ tooShort chunk = true)
\/ (x = "Content too long" /\ tooLong chunk = true)
\/ In x laterIssues.
Proof.
unfold assessContentQuality. cbn [issues]. intros H.
apply in_issues_flag in H. destruct H as [H | [_ ->]]; [| simpl; tauto].
apply in_issues_flag in H. destruct H as [H | [_ ->]]; [| simpl; tauto].
apply in_issues_flag in H. destruct H as [H | [_ ->]]; [| simpl; tauto].
assert (Hbase :
  In x (issues
          (flag (negb (falsyStr (content chunk))
                 && Nat.ltb maxChunkLength (strLength (content chunk)))
             "Content too long"
             (Some "Consider reducing chunk size or improving splitting") (2 # 10)
             (flag (falsyStr (content chunk)
                    || Nat.ltb (strLength (content chunk)) minChunkLength)
                "Content too short"
                (Some "Consider increasing minimum content length threshold")
                (3 # 10)
                {| score := 1; issues := []; recommendations := [] |})))
  \/ In x laterIssues).
{ destruct (content chunk) as [text |]; [| by left].
  destruct (falsyStr (Some text)); [by left |].
  unfold contentChecks in H.
  apply in_issues_flag in H. destruct H as [H | [_ ->]]; [| simpl; tauto].
  apply in_issues_flag in H. destruct H as [H | [_ ->]]; [| simpl; tauto].
  apply in_issues_flag in H. destruct H as [H | [_ ->]]; [| simpl; tauto].
  by left. }
destruct Hbase as [Hb | Hb]; [| tauto].
apply in_issues_flag in Hb. destruct Hb as [Hb | [Hc ->]]; [| tauto].
apply in_issues_flag in Hb. destruct Hb as [Hb | [Hc ->]]; [| tauto].
destruct Hb.
Qed.

Lemma assess_advised chunk : advised (assessContentQuality chunk).
Proof.
unfold assessContentQuality, advised. cbn [issues recommendations].
repeat apply flag_advised.
assert (H0 : advised {| score := 1; issues := []; recommendations := [] |})
  by (unfold advised; simpl; lia).
destruct (content chunk) as [text |].
- destruct (falsyStr (Some text)); [| unfold contentChecks];
    repeat apply flag_advised; assumption.
- repeat apply flag_advised; assumption.
Qed.

(** X5. [assessContentQuality] gives the full score 1 exactly to the
  chunks in which it finds no issue; it never reports a chunk both as
  too short and as too long; and it never gives more recommendations
  than issues. *)
Theorem quality_issues_and_score (chunk : Metadata) :
(score (assessContentQuality chunk) == 1 <-> issues (assessContentQuality chunk) = [])
/\ ~ (In "Content too short" (issues (assessContentQuality chunk))
      /\ In "Content too long" (issues (assessContentQuality chunk)))
/\ (length (recommendations (assessContentQuality chunk))
    <= length (issues (assessContentQuality chunk)))%nat.
Proof.
split; [| split].
- rewrite assess_score_formula.
  destruct (issues (assessContentQuality chunk)) as [| i l].
  + split; [reflexivity |]. intros _. cbn [totalPenalty fold_right].
    rewrite Q.max_r by (unfold Qle; simpl; lia). ring.
  + split; [| discriminate]. intros H. exfalso.
    cbn [totalPenalty fold_right] in H.
    pose proof (penaltyOf_at_least i). pose proof (totalPenalty_nonneg l).
    unfold totalPenalty in *.
    destruct (Q.max_spec_le 0 (1 - (penaltyOf i + fold_right (fun i acc => penaltyOf i + acc) 0 l)))
      as [[_ E] | [_ E]]; rewrite E in H; lra.
- intros [Hs Hl].
  apply issue_origin in Hs, Hl.
  destruct Hs as [[_ Hs] | [[Hs _] | Hs]];
    [| discriminate | simpl in Hs; intuition discriminate].
  destruct Hl as [[Hl _] | [[_ Hl] | Hl]];
    [discriminate | | simpl in Hl; intuition discriminate].
  unfold tooShort, tooLong, minChunkLength, maxChunkLength in *.
  destruct (falsyStr (content chunk)); simpl in *; [discriminate |].
  apply Nat.ltb_lt in Hs, Hl. lia.
- apply assess_advised.
Qed.

Lemma fold_scores_bounds records :
Forall scoreInUnit records ->
forall acc,
  acc <= fold_left (fun sum item => sum + vr_qualityScore item) records acc
  /\ fold_left (fun sum item => sum + vr_qualityScore item) records acc
     <= acc + inject_Z (Z.of_nat (length records)).
Proof.
induction 1 as [| r records [Hr0 Hr1] _ IH]; intros acc.
- cbn [fold_left length]. change (inject_Z (Z.of_nat 0)) with 0.
  split; [apply Qle_refl | lra].
- cbn [fold_left length]. destruct (IH (acc + vr_qualityScore r)) as [I0 I1].
  rewrite Nat2Z.inj_succ. unfold Z.succ. rewrite inject_Z_plus.
  change (inject_Z 1) with 1. split; lra.
Qed.

Lemma verifyRecord_scoreInUnit m : scoreInUnit (verifyRecord m).
Proof. unfold scoreInUnit, verifyRecord. cbn [vr_qualityScore]. apply assess_score_bounds. Qed.

Lemma verifyRuns_from runs :
forall acc,
  fold_left (fun acc matches => verifyContentQuality matches acc) runs acc
  = (acc ++ map verifyRecord (concat runs))%list.
Proof.
induction runs as [| ms runs IH]; intros acc; simpl.
- by rewrite app_nil_r.
- rewrite IH. unfold verifyContentQuality. by rewrite map_app, app_assoc.
Qed.

(** X6. The records of [verifyContentQuality] pile up over successive
  calls on one validator: after any number of calls there is one
  record per match of every call, in order; and as soon as there is
  one record, the average quality score is a number between 0 and 1. *)
Theorem verification_records_accumulate (runs : list (list Match)) :
concat runs ≠ [] ->
map vr_id (verifyRuns runs) = map match_id (concat runs)
/\ exists avg, avgQuality (verifyRuns runs) = Some avg /\ 0 <= avg /\ avg <= 1.
Proof.
intros Hne. unfold verifyRuns. rewrite verifyRuns_from. cbn [app].
split.
- rewrite map_map. by apply map_ext.
- set (records := map verifyRecord (concat runs)).
  assert (Hlen : (0 < length records)%nat).
  { subst records. rewrite length_map.
    destruct (concat runs); [congruence | simpl; lia]. }
  assert (HF : Forall scoreInUnit records).
  { subst records. apply Forall_forall. intros r Hr.
    apply list_elem_of_fmap in Hr. destruct Hr as [m [-> _]].
    apply verifyRecord_scoreInUnit. }
  destruct (fold_scores_bounds records HF 0) as [S0 S1].
  unfold avgQuality. destruct records as [| r0 rest] eqn:E; [simpl in Hlen; lia |].
  rewrite <- E in *. eexists. split; [reflexivity |].
  pose proof (inject_nat_pos _ Hlen) as Hpos.
  split.
  + unfold Qdiv. apply Qmult_le_0_compat; [assumption |].
    apply Qinv_le_0_compat. lra.
  + apply Qle_shift_div_r; [assumption |]. lra.
Qed.

Lemma verification_records_witness :
let runs := [[sampleMatch "a"; sampleMatch "b"]; [sampleMatch "a"]] in
concat runs ≠ []
/\ map vr_id (verifyRuns runs) = ["a"; "b"; "a"]
/\ exists avg, avgQuality (verifyRuns runs) = Some avg /\ 0 <= avg /\ avg <= 1.
Proof.
intros runs.
assert (H : concat runs ≠ []) by discriminate.
split; [exact H |].
exact (verification_records_accumulate runs H).
Defined.

End QAMoreFacts.

(** ** Progressive indexer: how an attempt on a URL can end *)
Module AttemptFacts.
Import Js Eff Indexer IndexerSpec RunSpec.
Import JsFacts IndexerFacts FrameFacts RetryFacts ShortPageFacts IdFacts.
Local Open Scope list_scope.

Lemma idle_observed evs s : idle s (observed evs s).
Proof. by repeat constructor. Qed.

Lemma idle_logged ev s : idle s (logged ev s).
Proof. by repeat constructor. Qed.

Lemma idle_iter_observed n s : idle s (Nat.iter n (observed []) s).
Proof.
  induction n as [| n IH]; [apply idle_refl |].
  cbn [Nat.iter]. eapply idle_trans; [exact IH | apply idle_observed].
Qed.

Lemma harmless_ret {A} (a : A) : harmless (ret a : M State A).
Proof. intros s. apply idle_refl. Qed.

Lemma harmless_throw {A} e : harmless (throw e : M State A).
Proof. intros s. apply idle_refl. Qed.

Lemma harmless_bind {A B} (c : M State A) (k : A -> M State B) :
  harmless c -> (forall a, harmless (k a)) -> harmless (bind c k).
Proof.
  intros Hc Hk s. specialize (Hc s). unfold bind.
  destruct (c s) as [[a | e |] s1]; simpl in *; try assumption.
  eapply idle_trans; [exact Hc | apply Hk].
Qed.

Lemma harmless_try_catch {A} (c : M State A) (h : Exn -> M State A) :
  harmless c -> (forall e, harmless (h e)) -> harmless (try_catch c h).
Proof.
  intros Hc Hh s. specialize (Hc s). unfold try_catch.
  destruct (c s) as [[a | e |] s1]; simpl in *; try assumption.
  eapply idle_trans; [exact Hc | apply Hh].
Qed.

Lemma harmless_observe {A} evs (answer : nat -> Outcome A) :
  harmless (observe evs answer).
Proof. intros s. apply idle_observed. Qed.

Lemma harmless_delay ms : harmless (delay ms).
Proof. intros s. apply idle_logged. Qed.

Section Attempt.
Variable w : World.
Variable options : Options.
Variable sessionId : string.

Local Abbreviation TE := (typeErrorUndefined "toLowerCase").

Lemma harmless_recordError errorType message url :
  harmless (reporterRecordError sessionId errorType message url).
Proof.
  intros s. rewrite reporterRecordError_throws. apply idle_logged.
Qed.

Lemma harmless_createEmbeddings chunks url :
  harmless (createEmbeddings w options sessionId chunks url).
Proof.
  unfold createEmbeddings. apply harmless_try_catch.
  - destruct (testMode options); [apply harmless_ret | apply harmless_observe].
  - intros e. apply harmless_bind; [| intros _; apply harmless_throw].
    apply harmless_recordError.
Qed.

(** A failed [recordError] call is all that ever leaves the two
    [catch] blocks below [processUrl]. *)
Lemma rethrow_throws errorType message url (error : Exn) s :
  (reporterRecordError sessionId errorType message url ;; throw error) s
  = (Throw TE : Outcome unit, logged (EvRecordError errorType url) s).
Proof. unfold bind. by rewrite reporterRecordError_throws. Qed.

Lemma rethrow_embeddings errorType message url (error : Exn) s :
  (reporterRecordError sessionId errorType message url ;; throw error) s
  = (Throw TE : Outcome (list Embedding), logged (EvRecordError errorType url) s).
Proof. unfold bind. by rewrite reporterRecordError_throws. Qed.

Lemma report_false errorType message url s :
  (reporterRecordError sessionId errorType message url ;; ret false) s
  = (Throw TE, logged (EvRecordError errorType url) s).
Proof. unfold bind. by rewrite reporterRecordError_throws. Qed.

(** [indexChunks] either returns, with the index possibly grown, or
    ends otherwise with the index as it was. *)
Lemma indexChunks_cases chunks embeddings content url s :
  match indexChunks w options sessionId chunks embeddings content url s with
  | (Return _, s') =>
      kept s s'
      /\ chunksCreated (stats s') = chunksCreated (stats s)
      /\ totalCost (stats s') = totalCost (stats s)
      /\ dom (store s) ⊆ dom (store s')
      /\ (testMode options = true -> store s' = store s)
  | (Throw e, s') => e = TE /\ idle s s'
  | (Diverge, s') => idle s s'
  end.
Proof.
  unfold indexChunks, try_catch.
  destruct (testMode options) eqn:Emode.
  { cbn. repeat split; try done. }
  destruct (buildVectors_ids w sessionId chunks embeddings content url
              (length chunks) 0 s) as [vs [E _]].
  unfold bind at 1. rewrite E. unfold indexUpsert.
  pose proof (idle_iter_observed (2 * length chunks) s) as [K [Hs [Hc Ht]]].
  set (s1 := Nat.iter (2 * length chunks) (observed []) s) in *.
  destruct (upsert w (tick s1) vs) as [[] | e |].
  - cbn [snd fst]. split; [| split; [| split; [| split]]].
    + eapply kept_trans; [exact K |]. by constructor.
    + exact Hc.
    + exact Ht.
    + cbn [store setStore observed]. rewrite dom_upsertAll, Hs. set_solver.
    + discriminate.
  - rewrite rethrow_throws. split; [reflexivity |].
    eapply idle_trans; [| apply idle_logged].
    eapply idle_trans; [| apply idle_observed].
    exact (conj K (conj Hs (conj Hc Ht))).
  - eapply idle_trans; [| apply idle_observed].
    exact (conj K (conj Hs (conj Hc Ht))).
Qed.

(** Whatever leaves [createEmbeddings] as an exception is the
    [TypeError] of the reporter. *)
Lemma createEmbeddings_throws chunks url s e :
  fst (createEmbeddings w options sessionId chunks url s) = Throw e -> e = TE.
Proof.
  unfold createEmbeddings, try_catch.
  destruct (testMode options); [discriminate |].
  unfold observe. destruct (embeddingsCreate w (tick s) chunks) as [v | e' |];
    try discriminate.
  rewrite rethrow_embeddings. cbn. congruence.
Qed.

Lemma indexedOne_after s a b chunks :
  idle s a ->
  chunks ≠ [] ->
  kept a b
  /\ chunksCreated (stats b) = chunksCreated (stats a)
  /\ totalCost (stats b) = totalCost (stats a)
  /\ dom (store a) ⊆ dom (store b)
  /\ (testMode options = true -> store b = store a) ->
  indexedOne options s
    (setStats (addChunksAndCost (Z.of_nat (length chunks)) (estimateCost chunks)) b).
Proof.
  intros [K [Hs [Hc Ht]]] Hne [K' [Hc' [Ht' [Hd Hdry]]]]. constructor.
  - eapply kept_trans; [exact K |]. eapply kept_trans; [exact K' |].
    by constructor.
  - exists chunks. split; [assumption |]. cbn. by rewrite Hc', Ht', Hc, Ht.
  - cbn. by rewrite <- Hs.
  - intros Hmode. cbn. by rewrite (Hdry Hmode).
Qed.

Lemma afterGoto_cases url s :
  let '(r, s') := afterGoto w options sessionId url s in
  attemptOutcome options s r s'.
Proof.
  unfold afterGoto, bind at 1, extractContent, observe.
  set (s0 := observed [EvEvaluate url] s).
  assert (H0 : idle s s0) by apply idle_observed.
  destruct (evaluate w (tick s) url) as [[content |] | e |];
    [ | | exact H0 | exact H0].
  2: { rewrite report_false. cbn.
       eapply idle_trans; [exact H0 | apply idle_logged]. }
  destruct (Nat.ltb _ _).
  { rewrite report_false. cbn.
    eapply idle_trans; [exact H0 | apply idle_logged]. }
  unfold bind at 1, observe.
  set (s1 := observed [EvSplit (c_text content)] s0).
  assert (H1 : idle s s1) by (eapply idle_trans; [exact H0 | apply idle_observed]).
  destruct (splitText w (tick s0) (c_text content)) as [chunks | e |];
    [ | exact H1 | exact H1].
  destruct (Nat.eqb (length chunks) 0) eqn:Elen.
  { rewrite report_false. cbn.
    eapply idle_trans; [exact H1 | apply idle_logged]. }
  assert (Hne : chunks ≠ []).
  { intros ->. discriminate. }
  unfold bind at 1.
  pose proof (harmless_createEmbeddings chunks url s1) as H2.
  destruct (createEmbeddings w options sessionId chunks url s1)
    as [[embeddings | e |] s2]; cbn [snd] in H2.
  2, 3: cbn; by eapply idle_trans.
  assert (H2' : idle s s2) by (by eapply idle_trans).
  destruct (Nat.eqb (length embeddings) 0).
  { rewrite report_false. cbn.
    eapply idle_trans; [exact H2' | apply idle_logged]. }
  unfold bind at 1.
  pose proof (indexChunks_cases chunks embeddings content url s2) as H3.
  destruct (indexChunks w options sessionId chunks embeddings content url s2)
    as [[[] | e |] s3].
  - cbn. by apply indexedOne_after with (a := s2).
  - cbn. destruct H3 as [_ H3]. by eapply idle_trans.
  - cbn. by eapply idle_trans.
Qed.

Lemma processUrlBody_cases url s :
  let '(r, s') := processUrlBody w options sessionId url s in
  attemptOutcome options s r s'.
Proof.
  unfold processUrlBody, bind, observe.
  destruct (goto w (tick s) url) as [[] | e |]; try apply idle_observed.
  pose proof (afterGoto_cases url (observed [EvGoto url] s)) as H.
  destruct (afterGoto w options sessionId url (observed [EvGoto url] s))
    as [[[|] | e |] s1]; cbn in *; try contradiction.
  - destruct H as [K C D Y]. constructor; try assumption.
    eapply kept_trans; [| exact K]. by constructor.
  - eapply idle_trans; [apply idle_observed | exact H].
  - eapply idle_trans; [apply idle_observed | exact H].
Qed.

Lemma attemptOutcome_after s a r b :
  idle s a -> attemptOutcome options a r b -> attemptOutcome options s r b.
Proof.
  intros Hi. destruct r as [[|] | e |]; cbn; try done.
  - intros [K C D Y]. destruct Hi as [K0 [Hs [Hc Ht]]]. constructor.
    + by eapply kept_trans.
    + destruct C as [chunks [Hne [C1 C2]]]. exists chunks.
      split; [assumption |]. by rewrite C1, C2, Hc, Ht.
    + by rewrite <- Hs.
    + intros Hm. by rewrite (Y Hm).
  - by apply idle_trans.
  - by apply idle_trans.
Qed.

Lemma processUrlFrom_cases k url :
  forall attempt s,
    let '(r, s') := processUrlFrom w options sessionId k url attempt s in
    attemptOutcome options s r s'.
Proof.
  induction k as [| k IH]; intros attempt s; cbn [processUrlFrom];
    unfold try_catch;
    pose proof (processUrlBody_cases url s) as H;
    destruct (processUrlBody w options sessionId url s) as [[b | e |] s1];
    try exact H;
    destruct (attempt <? retryAttempts options)%Z; try exact H.
  rewrite delay_bind.
  specialize (IH (attempt + 1)%Z (logged (EvDelay (2000 * attempt)) s1)).
  destruct (processUrlFrom w options sessionId k url (attempt + 1)
              (logged (EvDelay (2000 * attempt)) s1)) as [r s2].
  apply attemptOutcome_after with (a := logged (EvDelay (2000 * attempt)) s1);
    [| exact IH].
  eapply idle_trans; [exact H | apply idle_logged].
Qed.

Lemma processUrl_cases url attempt s :
  attemptOutcome options s
    (fst (processUrl w options sessionId url attempt s))
    (snd (processUrl w options sessionId url attempt s)).
Proof.
  pose proof (processUrlFrom_cases (Z.to_nat (retryAttempts options - attempt))
                url attempt s) as H.
  unfold processUrl.
  by destruct (processUrlFrom w options sessionId _ url attempt s).
Qed.

(** X7. [processUrl] never returns [false]: each of its
    [return false] statements comes after a [recordError] call that
    throws.  When it returns, it has counted at least one chunk and
    its cost and left every other counter, the reporter and
    [processedUrls] alone; when it throws or does not end, the index,
    the chunk count and the cost are as before as well. *)
Theorem processUrl_returns_only_true (url : string) (attempt : Z) (s : State) :
  match processUrl w options sessionId url attempt s with
  | (Return true, s') => indexedOne options s s'
  | (Return false, _) => False
  | (Throw _, s') | (Diverge, s') => idle s s'
  end.
Proof.
  pose proof (processUrl_cases url attempt s) as H.
  destruct (processUrl w options sessionId url attempt s) as [[[|] | e |] s'];
    exact H.
Qed.

(** X8. [createEmbeddings] and [indexChunks] do not pass on the error
    of the embedding service or of the index: whatever exception
    leaves them is the reporter's [TypeError], raised in their own
    [catch] block, and the index, the counters and the reporter's
    data are as before the call. *)
Theorem service_errors_are_masked
        (chunks : list string) (embeddings : list Embedding)
        (content : Content) (url : string) (s : State) (e : Exn) :
  fst (createEmbeddings w options sessionId chunks url s) = Throw e
  \/ fst (indexChunks w options sessionId chunks embeddings content url s) = Throw e ->
  e = TE
  /\ idle s (snd (createEmbeddings w options sessionId chunks url s))
  /\ (fst (indexChunks w options sessionId chunks embeddings content url s) = Throw e ->
      idle s (snd (indexChunks w options sessionId chunks embeddings content url s))).
Proof.
  intros H. split; [| split].
  - destruct H as [H | H]; [by eapply createEmbeddings_throws |].
    pose proof (indexChunks_cases chunks embeddings content url s) as H'.
    destruct (indexChunks w options sessionId chunks embeddings content url s)
      as [[[] | e' |] s']; cbn in H; try discriminate.
    destruct H' as [-> _]. congruence.
  - apply harmless_createEmbeddings.
  - intros H'.
    pose proof (indexChunks_cases chunks embeddings content url s) as H''.
    destruct (indexChunks w options sessionId chunks embeddings content url s)
      as [[[] | e' |] s']; cbn in H'; try discriminate.
    apply H''.
Qed.

End Attempt.
Lemma service_errors_witness :
  let chunks := ["Guimera"; "Vall del Corb"] in
  let s := initial ∅ in
  (fst (createEmbeddings RunSamples.site_without_embeddings
          IndexerSamples.sampleOptions IndexerSamples.sampleSession
          chunks IndexerSamples.pageA s)
   = Throw (typeErrorUndefined "toLowerCase")
   \/ fst (indexChunks RunSamples.site_without_embeddings
             IndexerSamples.sampleOptions IndexerSamples.sampleSession
             chunks [] (IndexerSamples.pageOf IndexerSamples.longText)
             IndexerSamples.pageA s)
      = Throw (typeErrorUndefined "toLowerCase"))
  /\ idle s (snd (createEmbeddings RunSamples.site_without_embeddings
                    IndexerSamples.sampleOptions IndexerSamples.sampleSession
                    chunks IndexerSamples.pageA s)).
Proof.
  intros chunks s.
  assert (H : fst (createEmbeddings RunSamples.site_without_embeddings
                     IndexerSamples.sampleOptions IndexerSamples.sampleSession
                     chunks IndexerSamples.pageA s)
              = Throw (typeErrorUndefined "toLowerCase")
              \/ fst (indexChunks RunSamples.site_without_embeddings
                        IndexerSamples.sampleOptions IndexerSamples.sampleSession
                        chunks [] (IndexerSamples.pageOf IndexerSamples.longText)
                        IndexerSamples.pageA s)
                 = Throw (typeErrorUndefined "toLowerCase"))
    by (left; reflexivity).
  split; [exact H |].
  exact (proj1 (proj2 (service_errors_are_masked _ _ _ _ _ _ _ _ _ H))).
Defined.

End AttemptFacts.

(** ** Progressive indexer: what a whole run does *)
Module RunFacts.
Import Js Eff Indexer IndexerSpec RunSpec.
Import JsFacts IndexerFacts FrameFacts RetryFacts ShortPageFacts IdFacts BudgetFacts.
Import AttemptFacts.
Local Open Scope list_scope.

Lemma set_add_new url (set : list string) :
  set_has url set = false -> set_add url set = set ++ [url].
Proof. unfold set_add. by intros ->. Qed.

Lemma estimateCost_nonneg chunks : (0 <= estimateCost chunks)%Q.
Proof.
  unfold estimateCost.
  apply Qmult_le_0_compat; [| unfold Qle; simpl; lia].
  unfold Qdiv. apply Qmult_le_0_compat; [| unfold Qle; simpl; lia].
  unfold Qle. simpl. lia.
Qed.

Section Run.
Variable w : World.
Variable options : Options.
Variable sessionId : string.

Local Abbreviation TE := (typeErrorUndefined "toLowerCase").

(** *** The log of one [processUrl] call *)

Lemma emits_recordError errorType message url :
  framed (emits options url)
         (reporterRecordError sessionId errorType message (Some url)).
Proof. by apply framed_recordError. Qed.

Lemma emits_createEmbeddings chunks url :
  framed (emits options url) (createEmbeddings w options sessionId chunks url).
Proof.
  unfold createEmbeddings. apply framed_try_catch.
  - destruct (testMode options) eqn:E; [apply framed_ret |].
    apply framed_observe. constructor; [exact E | constructor].
  - intros e. apply framed_bind; [| intros _; apply framed_throw].
    apply emits_recordError.
Qed.

Lemma emits_indexUpsert vectors url :
  testMode options = false ->
  framed (emits options url) (indexUpsert w vectors).
Proof.
  intros E s. unfold indexUpsert.
  destruct (upsert w (tick s) vectors); simpl;
    (split; [by constructor |]; exists [EvUpsert (map v_id vectors)];
     split; [done |]; constructor; [exact E | constructor]).
Qed.

Lemma emits_buildVectors chunks i total embeddings content url :
  framed (emits options url)
         (buildVectors w sessionId chunks i total embeddings content url).
Proof.
  revert i. induction chunks as [| chunk rest IH]; intros i; simpl.
  - apply framed_ret.
  - apply framed_bind; [apply framed_dateNow | intros t].
    apply framed_bind; [apply framed_dateNow | intros t'].
    apply framed_bind; [apply IH | intros vs; apply framed_ret].
Qed.

Lemma emits_indexChunks chunks embeddings content url :
  framed (emits options url)
         (indexChunks w options sessionId chunks embeddings content url).
Proof.
  unfold indexChunks. apply framed_try_catch.
  - destruct (testMode options) eqn:E; [apply framed_ret |].
    apply framed_bind; [apply emits_buildVectors | intros vs].
    by apply emits_indexUpsert.
  - intros e. apply framed_bind; [| intros _; apply framed_throw].
    apply emits_recordError.
Qed.

Lemma emits_afterGoto url :
  framed (emits options url) (afterGoto w options sessionId url).
Proof.
  unfold afterGoto.
  apply framed_bind.
  { apply framed_observe. by repeat constructor. }
  intros [content |].
  2: { apply framed_bind; [| intros _; apply framed_ret].
       apply emits_recordError. }
  destruct (Nat.ltb _ _).
  { apply framed_bind; [| intros _; apply framed_ret].
    apply emits_recordError. }
  apply framed_bind.
  { apply framed_observe. by repeat constructor. }
  intros chunks. destruct (Nat.eqb (length chunks) 0).
  { apply framed_bind; [| intros _; apply framed_ret].
    apply emits_recordError. }
  apply framed_bind; [apply emits_createEmbeddings | intros embeddings].
  destruct (Nat.eqb (length embeddings) 0).
  { apply framed_bind; [| intros _; apply framed_ret].
    apply emits_recordError. }
  apply framed_bind; [apply emits_indexChunks | intros _].
  apply framed_bind; [apply framed_addChunksAndCost | intros _; apply framed_ret].
Qed.

Lemma emits_processUrlBody url :
  framed (emits options url) (processUrlBody w options sessionId url).
Proof.
  unfold processUrlBody.
  apply framed_bind; [apply framed_observe; by repeat constructor | intros _].
  apply emits_afterGoto.
Qed.

(** One run of the [try] block of [processUrl]: its log. *)
Lemma body_trace url s :
  exists evs,
    trace (snd (processUrlBody w options sessionId url s)) = trace s ++ evs
    /\ Forall (emits options url) evs
    /\ gotos url evs = 1.
Proof.
  destruct (emits_processUrlBody url s) as [_ [evs [T F]]].
  destruct (body_loads_once w options sessionId url s) as [_ [evs' [T' F']]].
  exists evs. split; [exact T |]. split; [exact F |].
  rewrite T in T'. apply app_inv_head in T'. subst evs.
  by rewrite gotos_cons_same, (gotos_notGoto url evs' F').
Qed.

Lemma processUrlFrom_trace k url :
  forall attempt s,
  exists evs,
    trace (snd (processUrlFrom w options sessionId k url attempt s)) = trace s ++ evs
    /\ Forall (emits options url) evs
    /\ 1 <= gotos url evs <= S k.
Proof.
  induction k as [| k IH]; intros attempt s; cbn [processUrlFrom];
    unfold try_catch;
    destruct (body_trace url s) as [evs [T [F G]]];
    destruct (processUrlBody w options sessionId url s) as [[b | e |] s1];
    cbn [snd] in T;
    try (exists evs; split; [exact T |]; split; [exact F | lia]);
    destruct (attempt <? retryAttempts options)%Z;
    try (exists evs; split; [exact T |]; split; [exact F | lia]).
  rewrite delay_bind.
  destruct (IH (attempt + 1)%Z (logged (EvDelay (2000 * attempt)) s1))
    as [evs2 [T2 [F2 G2]]].
  exists (evs ++ [EvDelay (2000 * attempt)] ++ evs2).
  rewrite T2. cbn [trace logged]. rewrite T, <- !app_assoc.
  split; [reflexivity |]. split.
  - apply Forall_app. split; [exact F |].
    apply Forall_app. split; [by repeat constructor | exact F2].
  - rewrite !gotos_app, G. rewrite gotos_cons_other by discriminate.
    rewrite gotos_nil. lia.
Qed.

Lemma processUrl_trace url s :
  attemptTrace options url s (snd (processUrl w options sessionId url 1 s)).
Proof.
  unfold processUrl.
  destruct (processUrlFrom_trace (Z.to_nat (retryAttempts options - 1)) url 1 s)
    as [evs [T [F G]]].
  exists evs. split; [exact T |]. split; [exact F |].
  unfold maxLoads. lia.
Qed.

(** *** One turn of the loop of [processBatch] *)

Lemma processOne_cases url batchNum urlNum s :
  processOne w options sessionId url batchNum urlNum s
  = match processUrl w options sessionId url 1 (entered sessionId url s) with
    | (Return success, s2) =>
        (Return tt, completed w sessionId url (now w (tick s)) success s2)
    | (Throw _, s2) => (Throw TE, aborted url s2)
    | (Diverge, s2) => (Diverge, s2)
    end.
Proof.
  unfold processOne, bind at 1 2 3. cbn [dateNow observe].
  unfold reporterRecordUrl at 1, modify at 1. fold (entered sessionId url s).
  unfold try_catch, bind at 1.
  destruct (processUrl w options sessionId url 1 (entered sessionId url s))
    as [[b | e' |] s2].
  - destruct b; reflexivity.
  - unfold bind at 1. cbn [dateNow observe].
    unfold bind at 1, modify at 1. unfold bind at 1, modify at 1.
    unfold bind at 1. rewrite reporterRecordError_throws. reflexivity.
  - reflexivity.
Qed.

(** *** Relations that every step of a run respects *)

Section Respected.
Variable Q : State -> Outcome unit -> State -> Prop.

Hypothesis Q_refl : forall s, Q s (Return tt) s.
Hypothesis Q_seq :
  forall s s1 r s2, Q s (Return tt) s1 -> Q s1 r s2 -> Q s r s2.
Hypothesis Q_delay : forall s ms, Q s (Return tt) (logged (EvDelay ms) s).
Hypothesis Q_success :
  forall url s s2,
    set_has url (processedUrls s) = false ->
    indexedOne options (entered sessionId url s) s2 ->
    attemptTrace options url (entered sessionId url s) s2 ->
    Q s (Return tt) (completed w sessionId url (now w (tick s)) true s2).
Hypothesis Q_throw :
  forall url s s2,
    set_has url (processedUrls s) = false ->
    idle (entered sessionId url s) s2 ->
    attemptTrace options url (entered sessionId url s) s2 ->
    Q s (Throw TE) (aborted url s2).
Hypothesis Q_diverge :
  forall url s s2,
    set_has url (processedUrls s) = false ->
    idle (entered sessionId url s) s2 ->
    attemptTrace options url (entered sessionId url s) s2 ->
    Q s Diverge s2.

Lemma respected_processOne url batchNum urlNum s :
  set_has url (processedUrls s) = false ->
  let '(r, s') := processOne w options sessionId url batchNum urlNum s in
  Q s r s'.
Proof.
  intros Hnew. rewrite processOne_cases.
  pose proof (processUrl_cases w options sessionId url 1
                (entered sessionId url s)) as H.
  pose proof (processUrl_trace url (entered sessionId url s)) as T.
  destruct (processUrl w options sessionId url 1 (entered sessionId url s))
    as [[[|] | e |] s2]; cbn [fst snd] in *.
  - by apply Q_success.
  - contradiction.
  - by apply Q_throw.
  - by apply (Q_diverge url).
Qed.

Lemma respected_processBatchFrom urls :
  forall batchNum urlNum s,
    let '(r, s') := processBatchFrom w options sessionId urls batchNum urlNum s in
    Q s r s'.
Proof.
  induction urls as [| url rest IH]; intros batchNum urlNum s;
    cbn [processBatchFrom].
  - apply Q_refl.
  - unfold bind at 1, get.
    destruct (set_has url (processedUrls s)) eqn:E; [apply IH |].
    unfold bind at 1.
    pose proof (respected_processOne url batchNum urlNum s E) as H1.
    destruct (processOne w options sessionId url batchNum urlNum s)
      as [[[] | e |] s1]; try exact H1.
    specialize (IH batchNum (urlNum + 1)%Z s1).
    destruct (processBatchFrom w options sessionId rest batchNum (urlNum + 1) s1)
      as [r s2].
    by apply Q_seq with s1.
Qed.

Lemma respected_processBatch urls batchNum s :
  let '(r, s') := processBatch w options sessionId urls batchNum s in
  Q s r s'.
Proof. apply respected_processBatchFrom. Qed.

Lemma respected_processBatchesFrom batches :
  forall i total s,
    let '(r, s') := processBatchesFrom w options sessionId batches i total s in
    Q s r s'.
Proof.
  induction batches as [| batch rest IH]; intros i total s.
  - apply Q_refl.
  - rewrite processBatchesFrom_cons.
    pose proof (respected_processBatch batch (i + 1) s) as H1.
    destruct (processBatch w options sessionId batch (i + 1) s)
      as [[[] | e |] s1]; try exact H1.
    destruct (Qltb (costBudget options) (totalCost (stats s1))); [exact H1 |].
    set (s1' := if (i <? total - 1)%Z
                then logged (EvDelay (delayMs options)) s1 else s1).
    assert (H2 : Q s (Return tt) s1').
    { subst s1'. destruct (i <? total - 1)%Z; [| exact H1].
      apply Q_seq with s1; [exact H1 | apply Q_delay]. }
    specialize (IH (i + 1)%Z total s1').
    destruct (processBatchesFrom w options sessionId rest (i + 1) total s1')
      as [r s2].
    by apply Q_seq with s1'.
Qed.

Hypothesis Q_never : forall s, Q s Diverge s.

Lemma respected_processBatches urls s :
  let '(r, s') := processBatches w options sessionId urls s in
  Q s r s'.
Proof.
  unfold processBatches.
  destruct (createBatches urls (batchSize options)) as [batches |];
    [apply respected_processBatchesFrom | apply Q_never].
Qed.

End Respected.

(** *** The counters *)

Lemma countersMove_refl s r :
  (forall e, r ≠ Throw e) -> countersMove s r s.
Proof.
  intros Hr. unfold countersMove. repeat split; try lia.
  destruct r; try reflexivity. by destruct (Hr e).
Qed.

Lemma countersMove_seq s s1 r s2 :
  countersMove s (Return tt) s1 -> countersMove s1 r s2 -> countersMove s r s2.
Proof.
  unfold countersMove. intros (A1 & A2 & A3 & A4 & A5) (B1 & B2 & B3 & B4 & B5).
  split; [congruence |]. split; [congruence |].
  split; [destruct r; lia |]. split; [lia |].
  destruct r as [[] | e |]; [lia | | lia].
  destruct B5 as [-> B5]. split; [reflexivity | lia].
Qed.

Lemma countersMove_success url s s2 :
  set_has url (processedUrls s) = false ->
  indexedOne options (entered sessionId url s) s2 ->
  countersMove s (Return tt) (completed w sessionId url (now w (tick s)) true s2).
Proof.
  intros Hnew [K _ _ _]. destruct K as [_ Kp Kd Kpr Ks Kf Ke].
  cbn in *. unfold countersMove. cbn.
  rewrite Kp, Kd, Kpr, Ks, Kf, Ke, (set_add_new _ _ Hnew), length_app. cbn.
  repeat split; lia.
Qed.

Lemma countersMove_throw url s s2 :
  idle (entered sessionId url s) s2 ->
  countersMove s (Throw TE) (aborted url s2).
Proof.
  intros [K _]. destruct K as [_ Kp Kd Kpr Ks Kf Ke].
  cbn in *. unfold countersMove. cbn.
  rewrite Kp, Kd, Kpr, Ks, Kf, Ke. repeat split; lia.
Qed.

Lemma countersMove_diverge url s s2 :
  idle (entered sessionId url s) s2 -> countersMove s Diverge s2.
Proof.
  intros [K _]. destruct K as [_ Kp Kd Kpr Ks Kf Ke].
  cbn in *. unfold countersMove.
  rewrite Kp, Kd, Kpr, Ks, Kf, Ke. repeat split; lia.
Qed.

Lemma processBatches_countersMove urls s :
  let '(r, s') := processBatches w options sessionId urls s in
  countersMove s r s'.
Proof.
  apply (respected_processBatches countersMove).
  - intros s0. by apply countersMove_refl.
  - apply countersMove_seq.
  - intros s0 ms. by apply (countersMove_refl (logged (EvDelay ms) s0)).
  - intros url s0 s2 Hnew H _. by apply countersMove_success.
  - intros url s0 s2 _ H _. by apply countersMove_throw.
  - intros url s0 s2 _ H _. by apply (countersMove_diverge url).
  - intros s0. by apply countersMove_refl.
Qed.

(** X9. The counters of a run.  However [processBatches] ends,
    [urlsProcessed] has grown by as much as [urlsSuccessful] and
    [urlsFailed] together, and [urlsSuccessful] by the number of URLs
    added to [processedUrls]; [urlsDiscovered] and the [errors] list
    of the statistics are never touched.  The run throws at most the
    reporter's [TypeError], and [urlsFailed] grows, by exactly one,
    in the runs that throw and in no others. *)
Theorem run_counters (urls : list string) (s : State) :
  let '(r, s') := processBatches w options sessionId urls s in
  urlsDiscovered (stats s') = urlsDiscovered (stats s)
  /\ errors (stats s') = errors (stats s)
  /\ (urlsProcessed (stats s') - urlsProcessed (stats s)
      = (urlsSuccessful (stats s') - urlsSuccessful (stats s))
        + (urlsFailed (stats s') - urlsFailed (stats s)))%Z
  /\ (urlsSuccessful (stats s') - urlsSuccessful (stats s)
      = Z.of_nat (length (processedUrls s')) - Z.of_nat (length (processedUrls s)))%Z
  /\ match r with
     | Throw e => e = TE /\ urlsFailed (stats s') = (urlsFailed (stats s) + 1)%Z
     | _ => urlsFailed (stats s') = urlsFailed (stats s)
     end.
Proof. exact (processBatches_countersMove urls s). Qed.

(** *** The reporter's data *)

Lemma recordsMove_refl s r : recordsMove sessionId s r s.
Proof.
  unfold recordsMove. split; [reflexivity |]. split; [reflexivity |].
  exists []. cbn. by rewrite !app_nil_r.
Qed.

Lemma recordsMove_seq s s1 r1 r s2 :
  recordsMove sessionId s r1 s1 -> recordsMove sessionId s1 r s2 ->
  recordsMove sessionId s r s2.
Proof.
  unfold recordsMove.
  intros (A1 & A2 & n1 & A3 & A4 & A5) (B1 & B2 & n2 & B3 & B4 & B5).
  split; [congruence |]. split; [congruence |].
  exists (n1 ++ n2). rewrite B3, A3, B5, A5, List.filter_app, map_app, <- !app_assoc.
  split; [reflexivity |]. split; [by apply Forall_app | reflexivity].
Qed.

Lemma recordsMove_success url s s2 :
  set_has url (processedUrls s) = false ->
  indexedOne options (entered sessionId url s) s2 ->
  recordsMove sessionId s (Return tt)
    (completed w sessionId url (now w (tick s)) true s2).
Proof.
  intros Hnew [K _ _ _]. destruct K as [Kr Kp _ _ _ _ _].
  unfold recordsMove. cbn in *. rewrite Kr, Kp. cbn.
  split; [reflexivity |]. split; [reflexivity |].
  eexists [_; _]. rewrite <- app_assoc. split; [reflexivity |].
  split; [by repeat constructor |].
  by rewrite (set_add_new _ _ Hnew).
Qed.

Lemma recordsMove_failure url r s s2 :
  idle (entered sessionId url s) s2 ->
  reporter (aborted url s2) = reporter s2
  /\ recordsMove sessionId s r s2
  /\ recordsMove sessionId s r (aborted url s2).
Proof.
  intros [K _]. destruct K as [Kr Kp _ _ _ _ _].
  split; [reflexivity |].
  assert (H : recordsMove sessionId s r s2).
  { unfold recordsMove. cbn in *. rewrite Kr, Kp. cbn.
    split; [reflexivity |]. split; [reflexivity |].
    eexists [_]. split; [reflexivity |].
    split; [by repeat constructor |]. cbn. by rewrite app_nil_r. }
  split; [exact H | exact H].
Qed.

Lemma processBatches_recordsMove urls s :
  let '(r, s') := processBatches w options sessionId urls s in
  recordsMove sessionId s r s'.
Proof.
  apply (respected_processBatches (recordsMove sessionId)).
  - intros s0. apply recordsMove_refl.
  - intros s0 s1 r s2. apply recordsMove_seq.
  - intros s0 ms. apply (recordsMove_refl (logged (EvDelay ms) s0) (Return tt)).
  - intros url s0 s2 Hnew Hi _. by apply recordsMove_success.
  - intros url s0 s2 _ Hi _.
    exact (proj2 (proj2 (recordsMove_failure url (Throw TE) s0 s2 Hi))).
  - intros url s0 s2 _ Hi _.
    exact (proj1 (proj2 (recordsMove_failure url Diverge s0 s2 Hi))).
  - intros s0. apply recordsMove_refl.
Qed.

(** X10. The reporter's data after a run.  However [processBatches]
    ends, it has added no session and no error record; every URL
    record it has added belongs to its session, carries no error text
    and no chunk count and has status [processing] or [indexed]
    (never [failed], [skipped] or [discovered]); and [processedUrls]
    has grown by
    exactly the URLs of the new [indexed] records, in their order. *)
Theorem run_records (urls : list string) (s : State) :
  let s' := snd (processBatches w options sessionId urls s) in
  Reporter.sessions (reporter s') = Reporter.sessions (reporter s)
  /\ Reporter.errors (reporter s') = Reporter.errors (reporter s)
  /\ exists new,
       Reporter.urls (reporter s') = Reporter.urls (reporter s) ++ new
       /\ Forall (fun r => Reporter.ur_sessionId r = sessionId
                           /\ (Reporter.ur_status r = Reporter.processing
                               \/ Reporter.ur_status r = Reporter.indexed)
                           /\ Reporter.ur_error r = ""
                           /\ Reporter.ur_chunks r = 0%Z) new
       /\ processedUrls s'
          = processedUrls s
            ++ map Reporter.ur_url
                 (List.filter
                    (fun r => bool_decide (Reporter.ur_status r = Reporter.indexed))
                    new).
Proof.
  pose proof (processBatches_recordsMove urls s) as H.
  cbn zeta. by destruct (processBatches w options sessionId urls s) as [r s'].
Qed.

(** *** The reporter's summary *)

Lemma countStatus_app st d new :
  Reporter.countStatus st
    {| Reporter.sessions := Reporter.sessions d;
       Reporter.urls := Reporter.urls d ++ new;
       Reporter.errors := Reporter.errors d |}
  = Reporter.countStatus st d
    + length (List.filter (fun u => bool_decide (Reporter.ur_status u = st)) new).
Proof.
  unfold Reporter.countStatus. cbn. by rewrite List.filter_app, length_app.
Qed.

Lemma runRecords_count st new :
  st ≠ Reporter.processing -> st ≠ Reporter.indexed ->
  Forall (runRecord sessionId) new ->
  length (List.filter (fun u => bool_decide (Reporter.ur_status u = st)) new) = 0.
Proof.
  intros H1 H2. induction 1 as [| r new (_ & Hst & _) _ IH]; [reflexivity |].
  cbn. rewrite bool_decide_eq_false_2; [exact IH |].
  intros E. destruct Hst as [Hst | Hst]; congruence.
Qed.

Lemma runRecords_chunks new :
  Forall (runRecord sessionId) new ->
  forall sum, fold_left (fun sum u => (sum + Reporter.ur_chunks u)%Z) new sum = sum.
Proof.
  induction 1 as [| r new (_ & _ & _ & Hc) _ IH]; intros sum; [reflexivity |].
  cbn. rewrite Hc, Z.add_0_r. apply IH.
Qed.

(** X11. The reporter's summary after a run.  However
    [processBatches] ends, [generateSummary] counts as many more
    indexed pages as [urlsSuccessful] has grown, and the same number
    of sessions, failed and queued pages and the same cost as before;
    its chunk total is as before too, whatever [chunksCreated] says:
    the URL records of the indexer carry no chunk count. *)
Theorem summary_after_run (urls : list string) (s : State) :
  let s' := snd (processBatches w options sessionId urls s) in
  let before := ReporterReport.generateSummary (reporter s) in
  let after := ReporterReport.generateSummary (reporter s') in
  ReporterReport.totalSessions after = ReporterReport.totalSessions before
  /\ ReporterReport.activeSessions after = ReporterReport.activeSessions before
  /\ ReporterReport.totalFailed after = ReporterReport.totalFailed before
  /\ ReporterReport.totalQueued after = ReporterReport.totalQueued before
  /\ ReporterReport.totalChunks after = ReporterReport.totalChunks before
  /\ ReporterReport.totalCost after = ReporterReport.totalCost before
  /\ (Z.of_nat (ReporterReport.totalIndexed after)
      = Z.of_nat (ReporterReport.totalIndexed before)
        + (urlsSuccessful (stats s') - urlsSuccessful (stats s)))%Z.
Proof.
  pose proof (processBatches_recordsMove urls s) as H.
  pose proof (processBatches_countersMove urls s) as C.
  cbn zeta. destruct (processBatches w options sessionId urls s) as [r s'].
  cbn [snd]. destruct H as (Hs & He & new & Hu & F & Hp).
  destruct C as (_ & _ & _ & Hsucc & _).
  assert (Hd : reporter s'
               = {| Reporter.sessions := Reporter.sessions (reporter s);
                    Reporter.urls := Reporter.urls (reporter s) ++ new;
                    Reporter.errors := Reporter.errors (reporter s) |}).
  { destruct (reporter s'). cbn in *. by subst. }
  rewrite Hd. unfold ReporterReport.generateSummary.
  cbn [ReporterReport.totalSessions ReporterReport.activeSessions
       ReporterReport.totalFailed ReporterReport.totalQueued
       ReporterReport.totalChunks ReporterReport.totalCost
       ReporterReport.totalIndexed Reporter.sessions Reporter.urls].
  rewrite !countStatus_app.
  rewrite (runRecords_count Reporter.failed new) by (done || discriminate).
  rewrite (runRecords_count Reporter.queued new) by (done || discriminate).
  rewrite fold_left_app, (runRecords_chunks new F).
  repeat split; try lia.
  rewrite Hsucc, Hp, length_app, length_map. unfold isIndexed. lia.
Qed.

(** *** The index, the chunks and the cost *)

Lemma indexGrows_refl s r : indexGrows s r s.
Proof.
  unfold indexGrows. split; [done |]. split; [lia |].
  split; [apply Qle_refl | lia].
Qed.

Lemma indexGrows_seq s s1 r1 r s2 :
  indexGrows s r1 s1 -> indexGrows s1 r s2 -> indexGrows s r s2.
Proof.
  unfold indexGrows. intros (A1 & A2 & A3 & A4) (B1 & B2 & B3 & B4).
  split; [set_solver |]. split; [lia |].
  split; [by apply Qle_trans with (totalCost (stats s1)) | lia].
Qed.

Lemma indexGrows_success url s s2 :
  indexedOne options (entered sessionId url s) s2 ->
  indexGrows s (Return tt) (completed w sessionId url (now w (tick s)) true s2).
Proof.
  intros [K (chunks & Hne & Hc & Ht) Hd _].
  destruct K as [_ _ _ _ Ks _ _].
  unfold indexGrows. cbn in *. rewrite Hc, Ht, Ks.
  assert (0 < length chunks) by (destruct chunks; [done | simpl; lia]).
  pose proof (estimateCost_nonneg chunks).
  split; [exact Hd |]. split; [lia |]. split; [lra | lia].
Qed.

Lemma indexGrows_failure url r s s2 :
  idle (entered sessionId url s) s2 ->
  indexGrows s r s2 /\ indexGrows s r (aborted url s2).
Proof.
  intros [K (Hs & Hc & Ht)]. destruct K as [_ _ _ _ Ks _ _].
  unfold indexGrows. cbn in *. rewrite Hs, Hc, Ht, Ks.
  split; (split; [done |]; split; [lia |]; split; [apply Qle_refl | lia]).
Qed.

(** X12. The indexer only ever adds: however [processBatches] ends,
    every id that was in the index is still there, the chunk count
    and the cost have not gone down, and the chunk count has grown by
    at least one for every page counted as successful. *)
Theorem run_never_shrinks_the_index (urls : list string) (s : State) :
  let s' := snd (processBatches w options sessionId urls s) in
  dom (store s) ⊆ dom (store s')
  /\ (chunksCreated (stats s) <= chunksCreated (stats s'))%Z
  /\ (totalCost (stats s) <= totalCost (stats s'))%Q
  /\ (urlsSuccessful (stats s') - urlsSuccessful (stats s)
      <= chunksCreated (stats s') - chunksCreated (stats s))%Z.
Proof.
  assert (H : let '(r, s') := processBatches w options sessionId urls s in
              indexGrows s r s').
  { apply (respected_processBatches indexGrows).
    - intros s0. apply indexGrows_refl.
    - intros s0 s1 r s2. apply indexGrows_seq.
    - intros s0 ms. apply (indexGrows_refl (logged (EvDelay ms) s0) (Return tt)).
    - intros url s0 s2 _ Hi _. by apply indexGrows_success.
    - intros url s0 s2 _ Hi _.
      exact (proj2 (indexGrows_failure url (Throw TE) s0 s2 Hi)).
    - intros url s0 s2 _ Hi _.
      exact (proj1 (indexGrows_failure url Diverge s0 s2 Hi)).
    - intros s0. apply indexGrows_refl. }
  cbn zeta. by destruct (processBatches w options sessionId urls s) as [r s'].
Qed.

(** *** Test mode *)

Lemma emits_offline url evs :
  testMode options = true ->
  Forall (emits options url) evs -> Forall offline evs.
Proof.
  intros Hmode F. eapply Forall_impl; [exact F |].
  intros [] H; cbn in *; try done; congruence.
Qed.

Lemma dryRun_refl s r : dryRun s r s.
Proof.
  split; [reflexivity |]. exists []. by rewrite app_nil_r.
Qed.

Lemma dryRun_seq s s1 r1 r s2 : dryRun s r1 s1 -> dryRun s1 r s2 -> dryRun s r s2.
Proof.
  intros (A1 & e1 & A2 & A3) (B1 & e2 & B2 & B3).
  split; [congruence |]. exists (e1 ++ e2). rewrite B2, A2, app_assoc.
  split; [reflexivity | by apply Forall_app].
Qed.

Lemma dryRun_delay s ms r : dryRun s r (logged (EvDelay ms) s).
Proof.
  split; [reflexivity |]. exists [EvDelay ms]. by repeat constructor.
Qed.

Lemma dryRun_attempt url s s2 :
  testMode options = true ->
  store s2 = store (entered sessionId url s) ->
  attemptTrace options url (entered sessionId url s) s2 ->
  forall r, dryRun s r s2.
Proof.
  intros Hmode Hs (evs & T & F & _) r.
  split; [exact Hs |]. exists evs. rewrite T. cbn. rewrite app_nil_r.
  split; [reflexivity | by apply emits_offline with url].
Qed.

(** X13. In test mode a run is dry: however [processBatches] ends,
    the index is exactly as it was, and no call to the embedding
    service and no upsert has been made. *)
Theorem test_mode_run_is_dry (urls : list string) (s : State) :
  testMode options = true ->
  let s' := snd (processBatches w options sessionId urls s) in
  store s' = store s
  /\ exists evs,
       trace s' = trace s ++ evs
       /\ Forall (fun e => match e with
                           | EvEmbed _ | EvUpsert _ => False
                           | _ => True
                           end) evs.
Proof.
  intros Hmode.
  cbn zeta.
  assert (H' : let '(r, s') := processBatches w options sessionId urls s in
               dryRun s r s').
  { apply (respected_processBatches dryRun).
    - intros s0. apply dryRun_refl.
    - intros s0 s1 r s2. apply dryRun_seq.
    - intros s0 ms. apply dryRun_delay.
    - intros url s0 s2 _ Hi T.
      apply dryRun_seq with s2 (Return tt).
      + apply (dryRun_attempt url); [exact Hmode | | exact T].
        by apply (io_dry _ _ _ Hi).
      + split; [reflexivity |]. exists [EvDelay 1000]. cbn. rewrite app_nil_r.
        by repeat constructor.
    - intros url s0 s2 _ Hi T.
      apply dryRun_seq with s2 (Return tt).
      + apply (dryRun_attempt url); [exact Hmode | | exact T].
        apply Hi.
      + split; [reflexivity |].
        exists [EvRecordError "URL_PROCESSING_ERROR" (Some url)]. cbn.
        rewrite app_nil_r. by repeat constructor.
    - intros url s0 s2 _ Hi T.
      apply (dryRun_attempt url); [exact Hmode | | exact T]. apply Hi.
    - intros s0. apply dryRun_refl. }
  by destruct (processBatches w options sessionId urls s) as [r s'].
Qed.

(** *** Page loads *)

Lemma gotos_emits u url evs :
  u ≠ url -> Forall (emits options url) evs -> gotos u evs = 0.
Proof.
  intros Hne F. apply gotos_other. eapply Forall_impl; [exact F |].
  intros [] H; cbn in *; try discriminate. intros [= ->]. by destruct Hne.
Qed.

Lemma loadsBounded_refl u s r : loadsBounded options u s r s.
Proof. unfold loadsBounded. repeat split; try done; lia. Qed.

Lemma loadsBounded_seq u s s1 r s2 :
  loadsBounded options u s (Return tt) s1 ->
  loadsBounded options u s1 r s2 ->
  loadsBounded options u s r s2.
Proof.
  unfold loadsBounded. intros (A1 & A2 & A3) (B1 & B2 & B3).
  split; [| split].
  - intros H. destruct (A1 H) as [H1 E1]. destruct (B1 H1) as [H2 E2].
    split; [exact H2 | congruence].
  - destruct (decide (u ∈ processedUrls s1)) as [Hin | Hout].
    + destruct (B1 Hin) as [_ E]. lia.
    + specialize (A3 eq_refl Hout). lia.
  - intros Hr Hout.
    assert (Hout1 : u ∉ processedUrls s1).
    { intros Hin. by destruct (B1 Hin). }
    rewrite (B3 Hr Hout). by apply A3.
Qed.

Lemma loadsBounded_delay u s ms r : loadsBounded options u s r (logged (EvDelay ms) s).
Proof.
  unfold loadsBounded. cbn. rewrite gotos_app.
  rewrite (gotos_cons_other u (EvDelay ms)) by discriminate. rewrite gotos_nil.
  repeat split; try done; lia.
Qed.

(** The loads of [u] in one [processUrl(page, url)] call. *)
Lemma attempt_loads u url s s2 :
  set_has url (processedUrls s) = false ->
  processedUrls s2 = processedUrls (entered sessionId url s) ->
  attemptTrace options url (entered sessionId url s) s2 ->
  gotos u (trace s) <= gotos u (trace s2) <= gotos u (trace s) + maxLoads options
  /\ (u ∈ processedUrls s -> gotos u (trace s2) = gotos u (trace s)).
Proof.
  intros Hnew Hp (evs & T & F & G).
  rewrite T. cbn. rewrite app_nil_r, gotos_app.
  destruct (decide (u = url)) as [-> | Hne].
  - split; [lia |]. intros Hin. apply set_has_false in Hnew. contradiction.
  - rewrite (gotos_emits u url evs Hne F). split; lia.
Qed.

Lemma loadsBounded_success u url s s2 :
  set_has url (processedUrls s) = false ->
  indexedOne options (entered sessionId url s) s2 ->
  attemptTrace options url (entered sessionId url s) s2 ->
  loadsBounded options u s (Return tt)
    (completed w sessionId url (now w (tick s)) true s2).
Proof.
  intros Hnew [K _ _ _] T.
  pose proof (kept_processedUrls _ _ K) as Hp.
  destruct (attempt_loads u url s s2 Hnew Hp T) as [G1 G2].
  assert (Hu : gotos u (trace s) <= gotos u (trace s)) by lia.
  unfold loadsBounded. cbn in *. rewrite Hp.
  rewrite app_nil_r, gotos_app.
  rewrite (gotos_cons_other u (EvDelay 1000)) by discriminate.
  rewrite gotos_nil, Nat.add_0_r.
  split; [| split].
  - intros Hin. split; [apply elem_of_set_add; by right | by apply G2].
  - exact G1.
  - intros _ Hout.
    assert (Hne : u ≠ url).
    { intros ->. apply Hout, elem_of_set_add. by left. }
    destruct T as (evs & T & F & _). rewrite T. cbn.
    rewrite app_nil_r, gotos_app, (gotos_emits u url evs Hne F). lia.
Qed.

Lemma loadsBounded_failure u url s s2 r :
  r ≠ Return tt ->
  set_has url (processedUrls s) = false ->
  idle (entered sessionId url s) s2 ->
  attemptTrace options url (entered sessionId url s) s2 ->
  loadsBounded options u s r s2 /\ loadsBounded options u s r (aborted url s2).
Proof.
  intros Hr Hnew [K _] T.
  pose proof (kept_processedUrls _ _ K) as Hp.
  destruct (attempt_loads u url s s2 Hnew Hp T) as [G1 G2].
  unfold loadsBounded. cbn in *. rewrite Hp.
  rewrite app_nil_r, gotos_app.
  rewrite (gotos_cons_other u (EvRecordError _ _)) by discriminate.
  rewrite gotos_nil, Nat.add_0_r.
  split; (split; [| split]; [by split; [| apply G2] | exact G1 | by intros ?]).
Qed.

(** X14. Page loads in a run.  However [processBatches] ends, it has
    loaded no URL more than [retryAttempts] times (once, if
    [retryAttempts] is below 1), and it has not loaded at all a URL
    that was in [processedUrls] when it started: such a URL is still
    in [processedUrls] at the end. *)
Theorem run_loads_are_bounded (urls : list string) (u : string) (s : State) :
  let s' := snd (processBatches w options sessionId urls s) in
  gotos u (trace s') <= gotos u (trace s) + Z.to_nat (Z.max 1 (retryAttempts options))
  /\ (u ∈ processedUrls s ->
      u ∈ processedUrls s' /\ gotos u (trace s') = gotos u (trace s)).
Proof.
  assert (H : let '(r, s') := processBatches w options sessionId urls s in
              loadsBounded options u s r s').
  { apply (respected_processBatches (loadsBounded options u)).
    - intros s0. apply loadsBounded_refl.
    - apply loadsBounded_seq.
    - intros s0 ms. apply loadsBounded_delay.
    - apply loadsBounded_success.
    - intros url s0 s2 Hnew Hi T.
      refine (proj2 (loadsBounded_failure u url s0 s2 (Throw TE) _ Hnew Hi T)).
      discriminate.
    - intros url s0 s2 Hnew Hi T.
      refine (proj1 (loadsBounded_failure u url s0 s2 Diverge _ Hnew Hi T)).
      discriminate.
    - intros s0. apply loadsBounded_refl. }
  cbn zeta. destruct (processBatches w options sessionId urls s) as [r s'].
  destruct H as (H1 & H2 & _). split; [apply H2 | exact H1].
Qed.

(** *** URLs that are processed already *)

Lemma processBatchFrom_skips urls :
  forall batchNum urlNum s,
    Forall (fun u => u ∈ processedUrls s) urls ->
    processBatchFrom w options sessionId urls batchNum urlNum s = (Return tt, s).
Proof.
  induction urls as [| url rest IH]; intros batchNum urlNum s F;
    cbn [processBatchFrom]; [reflexivity |].
  apply Forall_cons in F. destruct F as [Hin F].
  unfold bind at 1, get. apply set_has_true in Hin. rewrite Hin. by apply IH.
Qed.

Lemma processBatchesFrom_skips batches :
  forall i total s,
    Forall (Forall (fun u => u ∈ processedUrls s)) batches ->
    exists evs,
      processBatchesFrom w options sessionId batches i total s
      = (Return tt,
         {| stats := stats s; processedUrls := processedUrls s;
            reporter := reporter s; store := store s; tick := tick s;
            trace := trace s ++ evs |})
      /\ Forall (fun e => e = EvDelay (delayMs options)) evs.
Proof.
  induction batches as [| batch rest IH]; intros i total s F.
  - exists []. rewrite app_nil_r. split; [by destruct s | constructor].
  - apply Forall_cons in F. destruct F as [Fb F].
    rewrite processBatchesFrom_cons. unfold processBatch.
    rewrite (processBatchFrom_skips batch (i + 1) 1 s Fb).
    destruct (Qltb (costBudget options) (totalCost (stats s))).
    { exists []. rewrite app_nil_r. split; [by destruct s | constructor]. }
    destruct (i <? total - 1)%Z.
    + destruct (IH (i + 1)%Z total (logged (EvDelay (delayMs options)) s) F)
        as [evs [E Fe]].
      exists (EvDelay (delayMs options) :: evs). rewrite E. cbn.
      rewrite <- app_assoc. split; [reflexivity | by constructor].
    + destruct (IH (i + 1)%Z total s F) as [evs [E Fe]].
      exists evs. by split.
Qed.

(** X15. A run over URLs that are all in [processedUrls] already
    does nothing: [processBatches] returns, having read no clock,
    loaded no page and written no record; all it does is wait
    [delayMs] between batches. *)
Theorem rerun_processes_nothing (urls : list string) (s : State) :
  0 < batchSize options ->
  Forall (fun u => u ∈ processedUrls s) urls ->
  let '(r, s') := processBatches w options sessionId urls s in
  r = Return tt
  /\ stats s' = stats s /\ processedUrls s' = processedUrls s
  /\ reporter s' = reporter s /\ store s' = store s /\ tick s' = tick s
  /\ exists evs,
       trace s' = trace s ++ evs
       /\ Forall (fun e => e = EvDelay (delayMs options)) evs.
Proof.
  intros Hpos F. unfold processBatches.
  destruct (createBatches_total urls (batchSize options) Hpos)
    as [batches [E [C _]]].
  rewrite E.
  assert (Fb : Forall (Forall (fun u => u ∈ processedUrls s)) batches).
  { subst urls. clear E. induction batches as [| b bs IH]; [constructor |].
    cbn [concat] in F. apply Forall_app in F. destruct F as [F1 F2].
    constructor; [exact F1 | by apply IH]. }
  destruct (processBatchesFrom_skips batches 0 (Z.of_nat (length batches)) s Fb)
    as [evs [E' Fe]].
  rewrite E'. cbn. repeat split; try reflexivity. by exists evs.
Qed.

(** *** A site where every step succeeds *)

Section Healthy.
Hypothesis Hw : healthy w.

Lemma healthy_createEmbeddings chunks url s :
  chunks ≠ [] ->
  exists embeddings s',
    createEmbeddings w options sessionId chunks url s = (Return embeddings, s')
    /\ embeddings ≠ [].
Proof.
  intros Hne. unfold createEmbeddings, try_catch.
  destruct (testMode options).
  - eexists _, _. split; [reflexivity |]. by destruct chunks.
  - unfold observe. destruct (h_embed w Hw (tick s) chunks Hne) as [em [E Hem]].
    rewrite E. by eexists _, _.
Qed.

Lemma healthy_indexChunks chunks embeddings content url s :
  exists s',
    indexChunks w options sessionId chunks embeddings content url s
    = (Return tt, s').
Proof.
  unfold indexChunks, try_catch.
  destruct (testMode options); [by eexists |].
  destruct (buildVectors_ids w sessionId chunks embeddings content url
              (length chunks) 0 s) as [vs [E _]].
  unfold bind at 1. rewrite E. unfold indexUpsert.
  rewrite (h_upsert w Hw). by eexists.
Qed.

Lemma healthy_body url s :
  fst (processUrlBody w options sessionId url s) = Return true.
Proof.
  unfold processUrlBody, bind at 1, observe. rewrite (h_goto w Hw).
  unfold afterGoto, bind at 1, extractContent, observe. cbn [tick observed].
  destruct (h_evaluate w Hw (S (tick s)) url) as [c [E L]]. rewrite E.
  assert (Nat.ltb (String.length (c_text c)) 100 = false) as ->
    by (apply Nat.ltb_ge; lia).
  unfold bind at 1, observe. cbn [tick observed].
  destruct (h_split w Hw (S (S (tick s))) (c_text c)) as [chunks [E2 Hne]].
  rewrite E2.
  assert (Nat.eqb (length chunks) 0 = false) as ->.
  { apply Nat.eqb_neq. destruct chunks; [done | simpl; lia]. }
  unfold bind at 1.
  match goal with
  | |- context [createEmbeddings w options sessionId chunks url ?s1] =>
      destruct (healthy_createEmbeddings chunks url s1 Hne)
        as (embeddings & s2 & E3 & Hem); rewrite E3
  end.
  assert (Nat.eqb (length embeddings) 0 = false) as ->.
  { apply Nat.eqb_neq. destruct embeddings; [done | simpl; lia]. }
  unfold bind at 1.
  destruct (healthy_indexChunks chunks embeddings c url s2) as [s3 E4].
  rewrite E4. reflexivity.
Qed.

Lemma healthy_processUrl url attempt s :
  fst (processUrl w options sessionId url attempt s) = Return true.
Proof.
  rewrite processUrl_unfold. unfold try_catch.
  pose proof (healthy_body url s) as H.
  by destruct (processUrlBody w options sessionId url s) as [[b | e |] s1].
Qed.

Lemma healthy_processOne url batchNum urlNum s :
  set_has url (processedUrls s) = false ->
  exists s',
    processOne w options sessionId url batchNum urlNum s = (Return tt, s')
    /\ processedUrls s' = set_add url (processedUrls s)
    /\ urlsFailed (stats s') = urlsFailed (stats s)
    /\ Reporter.errors (reporter s') = Reporter.errors (reporter s).
Proof.
  intros Hnew. rewrite processOne_cases.
  pose proof (healthy_processUrl url 1 (entered sessionId url s)) as H.
  pose proof (processUrl_cases w options sessionId url 1
                (entered sessionId url s)) as C.
  destruct (processUrl w options sessionId url 1 (entered sessionId url s))
    as [r s2]. cbn [fst snd] in *. subst r. cbn in C.
  destruct C as [K _ _ _]. destruct K as [Kr Kp _ _ _ Kf _].
  eexists. split; [reflexivity |]. cbn in *. by rewrite Kp, Kf, Kr.
Qed.

Lemma healthy_processBatchFrom urls :
  forall batchNum urlNum s,
  exists s',
    processBatchFrom w options sessionId urls batchNum urlNum s = (Return tt, s')
    /\ processedUrls s' = addAll urls (processedUrls s)
    /\ urlsFailed (stats s') = urlsFailed (stats s)
    /\ Reporter.errors (reporter s') = Reporter.errors (reporter s).
Proof.
  induction urls as [| url rest IH]; intros batchNum urlNum s;
    cbn [processBatchFrom].
  - by exists s.
  - unfold bind at 1, get. destruct (set_has url (processedUrls s)) eqn:E.
    + destruct (IH batchNum (urlNum + 1)%Z s) as (s' & E1 & E2 & E3 & E4).
      exists s'. split; [exact E1 |]. split; [| by split].
      rewrite E2. unfold addAll. cbn [fold_left]. unfold set_add. by rewrite E.
    + destruct (healthy_processOne url batchNum urlNum s E)
        as (s1 & E1 & P1 & F1 & R1).
      unfold bind at 1. rewrite E1.
      destruct (IH batchNum (urlNum + 1)%Z s1) as (s' & E2 & P2 & F2 & R2).
      exists s'. split; [exact E2 |]. split; [| split; congruence].
      rewrite P2, P1. reflexivity.
Qed.

End Healthy.

Lemma elem_of_addAll u urls :
  forall set, u ∈ addAll urls set <-> u ∈ set \/ u ∈ urls.
Proof.
  unfold addAll. induction urls as [| url rest IH]; intros set; cbn [fold_left].
  - rewrite elem_of_nil. tauto.
  - rewrite IH, elem_of_set_add, elem_of_cons. tauto.
Qed.

(** X16. On a site where pages load and hold enough text, and the
    splitter, the embedding service and the index answer,
    [processBatch] returns with every URL of the batch in
    [processedUrls] (each added once, in the order of the batch), and
    it counts no failure and records no error. *)
Theorem healthy_batch_is_indexed (urls : list string) (batchNum : Z) (s : State) :
  healthy w ->
  let '(r, s') := processBatch w options sessionId urls batchNum s in
  r = Return tt
  /\ processedUrls s' = fold_left (fun set u => set_add u set) urls (processedUrls s)
  /\ (forall u, u ∈ urls -> u ∈ processedUrls s')
  /\ urlsFailed (stats s') = urlsFailed (stats s)
  /\ Reporter.errors (reporter s') = Reporter.errors (reporter s).
Proof.
  intros Hw. unfold processBatch.
  destruct (healthy_processBatchFrom Hw urls batchNum 1 s) as (s' & E & P & F & R).
  rewrite E. split; [reflexivity |]. split; [exact P |].
  split; [| by split].
  intros u Hu. rewrite P. apply elem_of_addAll. by right.
Qed.

End Run.

Lemma test_mode_run_witness :
  let s' := snd (processBatches (IndexerSamples.site [] []) IndexerSamples.testOptions
                   IndexerSamples.sampleSession IndexerSamples.fivePages (initial ∅)) in
  testMode IndexerSamples.testOptions = true
  /\ store s' = ∅
  /\ exists evs,
       trace s' = [] ++ evs
       /\ Forall (fun e => match e with
                           | EvEmbed _ | EvUpsert _ => False
                           | _ => True
                           end) evs.
Proof.
  intros s'.
  assert (H : testMode IndexerSamples.testOptions = true) by reflexivity.
  split; [exact H |].
  exact (test_mode_run_is_dry (IndexerSamples.site [] []) IndexerSamples.testOptions
           IndexerSamples.sampleSession IndexerSamples.fivePages (initial ∅) H).
Defined.

Lemma rerun_witness :
  let s := setProcessedUrls (fun _ => IndexerSamples.fivePages) (initial ∅) in
  0 < batchSize IndexerSamples.tightOptions
  /\ Forall (fun u => u ∈ processedUrls s) IndexerSamples.fivePages
  /\ let '(r, s') := processBatches (IndexerSamples.site [] [])
                       IndexerSamples.tightOptions IndexerSamples.sampleSession
                       IndexerSamples.fivePages s in
     r = Return tt
     /\ stats s' = stats s /\ processedUrls s' = processedUrls s
     /\ reporter s' = reporter s /\ store s' = store s /\ tick s' = tick s
     /\ exists evs,
          trace s' = trace s ++ evs
          /\ Forall (fun e => e = EvDelay (delayMs IndexerSamples.tightOptions)) evs.
Proof.
  intros s.
  assert (H1 : 0 < batchSize IndexerSamples.tightOptions) by (cbn; lia).
  assert (H2 : Forall (fun u => u ∈ processedUrls s) IndexerSamples.fivePages).
  { apply Forall_forall. intros u Hu. exact Hu. }
  split; [exact H1 |]. split; [exact H2 |].
  exact (rerun_processes_nothing (IndexerSamples.site [] [])
           IndexerSamples.tightOptions IndexerSamples.sampleSession
           IndexerSamples.fivePages s H1 H2).
Defined.

Lemma healthy_batch_witness :
  let '(r, s') := processBatch (IndexerSamples.site [] []) IndexerSamples.sampleOptions
                    IndexerSamples.sampleSession
                    [IndexerSamples.pageA; IndexerSamples.pageB; IndexerSamples.pageA]
                    1 (initial ∅) in
  healthy (IndexerSamples.site [] [])
  /\ r = Return tt
  /\ processedUrls s' = [IndexerSamples.pageA; IndexerSamples.pageB]
  /\ urlsFailed (stats s') = 0%Z.
Proof.
  assert (Hw : healthy (IndexerSamples.site [] [])).
  { constructor.
    - reflexivity.
    - intros k url. exists (IndexerSamples.pageOf IndexerSamples.longText).
      split; [reflexivity |]. apply Nat.leb_le. reflexivity.
    - intros k text. eexists. split; [reflexivity | discriminate].
    - intros k chunks Hne. eexists. split; [reflexivity |]. by destruct chunks.
    - reflexivity. }
  pose proof (healthy_batch_is_indexed (IndexerSamples.site [] [])
                IndexerSamples.sampleOptions IndexerSamples.sampleSession
                [IndexerSamples.pageA; IndexerSamples.pageB; IndexerSamples.pageA]
                1 (initial ∅) Hw) as H.
  destruct (processBatch (IndexerSamples.site [] []) IndexerSamples.sampleOptions
              IndexerSamples.sampleSession
              [IndexerSamples.pageA; IndexerSamples.pageB; IndexerSamples.pageA]
              1 (initial ∅)) as [r s'].
  destruct H as (H1 & H2 & _ & H4 & _).
  split; [exact Hw |]. split; [exact H1 |]. split; [exact H2 | exact H4].
Defined.

End RunFacts.

(** ** Progressive indexer: cutting the URLs into batches *)
Module BatchFacts.
Import Js Eff Indexer IndexerSpec.
Local Open Scope list_scope.

Lemma createBatchesFrom_shape {A} (batchSize : nat) :
  0 < batchSize ->
  forall fuel (array : list A),
    length array <= fuel ->
    exists batches,
      createBatchesFrom fuel array batchSize = Some batches
      /\ concat batches = array
      /\ Forall (fun b => 0 < length b <= batchSize) batches
      /\ (forall i b, batches !! i = Some b -> S i < length batches ->
                      length b = batchSize)
      /\ length array <= batchSize * length batches < length array + batchSize.
Proof.
  intros Hpos. induction fuel as [| fuel IH]; intros array Hlen.
  - destruct array; [| simpl in Hlen; lia]. exists []. cbn.
    repeat split; try done; lia.
  - destruct array as [| x l].
    { exists []. cbn. repeat split; try done; lia. }
    cbn [createBatchesFrom].
    destruct (IH (skipn batchSize (x :: l))) as (bs & E & C & F & Hfull & Hcount).
    { rewrite length_skipn. simpl in *. lia. }
    rewrite E. exists (firstn batchSize (x :: l) :: bs). split; [reflexivity |].
    assert (Hfirst : length (firstn batchSize (x :: l))
                     = Nat.min batchSize (length (x :: l))) by apply length_firstn.
    assert (Hskip : length (skipn batchSize (x :: l))
                    = length (x :: l) - batchSize) by apply length_skipn.
    split; [| split; [| split]].
    + cbn [concat]. rewrite C. apply firstn_skipn.
    + constructor; [| assumption]. rewrite Hfirst. simpl. lia.
    + intros i b Hi Hlast. destruct i as [| i].
      * cbn in Hi. injection Hi as <-. rewrite Hfirst.
        destruct bs as [| b' bs']; [cbn in Hlast; lia |].
        apply Forall_cons in F. destruct F as [Fb' _].
        assert (0 < length (x :: l) - batchSize).
        { rewrite <- Hskip, <- C. cbn [concat]. rewrite length_app. lia. }
        lia.
      * cbn in Hi. apply (Hfull i b Hi). cbn in Hlast. lia.
    + cbn [length] in *. rewrite Hskip in Hcount.
      destruct (Nat.le_gt_cases (S (length l)) batchSize) as [Hsmall | Hbig].
      * assert (length bs = 0) by nia. nia.
      * nia.
Qed.

(** X17. With a positive batch size, [createBatches] cuts the array
    into consecutive pieces: the batches put one after the other give
    the array back, no batch is empty, every batch but the last holds
    exactly [batchSize] elements, and there are as many batches as
    [batchSize] goes into the length of the array, rounded up. *)
Theorem createBatches_cuts_into_full_batches {A} (array : list A) (batchSize : nat) :
  0 < batchSize ->
  exists batches,
    createBatches array batchSize = Some batches
    /\ concat batches = array
    /\ Forall (fun b => 0 < length b <= batchSize) batches
    /\ (forall i b, batches !! i = Some b -> S i < length batches ->
                    length b = batchSize)
    /\ length array <= batchSize * length batches < length array + batchSize.
Proof. intros H. by apply createBatchesFrom_shape. Qed.

Lemma createBatches_witness :
  0 < 2
  /\ exists batches,
       createBatches IndexerSamples.fivePages 2 = Some batches
       /\ concat batches = IndexerSamples.fivePages
       /\ Forall (fun b => 0 < length b <= 2) batches
       /\ (forall i b, batches !! i = Some b -> S i < length batches -> length b = 2)
       /\ length IndexerSamples.fivePages <= 2 * length batches
          < length IndexerSamples.fivePages + 2.
Proof.
  assert (H : 0 < 2) by lia.
  split; [exact H |].
  exact (createBatches_cuts_into_full_batches IndexerSamples.fivePages 2 H).
Defined.

Lemma createBatchesFrom_zero {A} (array : list A) :
  array ≠ [] -> forall fuel, createBatchesFrom fuel array 0 = None.
Proof.
  intros Hne fuel. induction fuel as [| fuel IH];
    destruct array as [| x l]; try done.
  cbn [createBatchesFrom skipn]. by rewrite IH.
Qed.

(** X18. With batch size 0 the loop of [createBatches] never gets past
    the first element of a non-empty array, however many turns it is
    given; so [processBatches] does not end either, and does nothing
    before that. *)
Theorem zero_batch_size_never_ends
        (w : World) (options : Options) (sessionId : string)
        (urls : list string) (s : State) :
  batchSize options = 0 ->
  urls ≠ [] ->
  (forall fuel, createBatchesFrom fuel urls (batchSize options) = None)
  /\ processBatches w options sessionId urls s = (Diverge, s).
Proof.
  intros Hzero Hne. rewrite Hzero.
  split; [by apply createBatchesFrom_zero |].
  unfold processBatches, createBatches. rewrite Hzero.
  by rewrite createBatchesFrom_zero.
Qed.

Lemma zero_batch_size_witness :
  let options :=
    {| maxPages := 10; batchSize := 0; delayMs := 1000; retryAttempts := 2;
       costBudget := 1; testMode := true |} in
  batchSize options = 0
  /\ IndexerSamples.fivePages ≠ []
  /\ (forall fuel, createBatchesFrom fuel IndexerSamples.fivePages (batchSize options)
                   = None)
  /\ processBatches (IndexerSamples.site [] []) options IndexerSamples.sampleSession
       IndexerSamples.fivePages (initial ∅)
     = (Diverge, initial ∅).
Proof.
  intros options.
  assert (H1 : batchSize options = 0) by reflexivity.
  assert (H2 : IndexerSamples.fivePages ≠ []) by discriminate.
  split; [exact H1 |]. split; [exact H2 |].
  exact (zero_batch_size_never_ends (IndexerSamples.site [] []) options
           IndexerSamples.sampleSession IndexerSamples.fivePages (initial ∅) H1 H2).
Defined.

End BatchFacts.

(** ** Progressive indexer: the discovery of the URLs *)
Module DiscoveryFacts.
Import Js Eff Indexer IndexerSpec Discovery.
Import JsFacts IndexerFacts.
Local Open Scope list_scope.

Lemma indexOfFrom_absent x arr :
  forall i, x ∉ arr -> indexOfFrom x arr i = (-1)%Z.
Proof.
  induction arr as [| y rest IH]; intros i Hx; [reflexivity |].
  cbn [indexOfFrom]. apply not_elem_of_cons in Hx. destruct Hx as [Hne Hx].
  destruct (String.eqb_spec y x); [congruence | by apply IH].
Qed.

Lemma indexOfFrom_first x pre post :
  forall i, x ∉ pre ->
            indexOfFrom x (pre ++ x :: post) i = (i + Z.of_nat (length pre))%Z.
Proof.
  induction pre as [| y pre IH]; intros i Hx; cbn [indexOfFrom app length].
  - rewrite String.eqb_refl. lia.
  - apply not_elem_of_cons in Hx. destruct Hx as [Hne Hx].
    destruct (String.eqb_spec y x); [congruence |]. rewrite (IH _ Hx). lia.
Qed.

Lemma indexOfFrom_earlier x pre post :
  forall i, x ∈ pre ->
            (indexOfFrom x (pre ++ post) i < i + Z.of_nat (length pre))%Z.
Proof.
  induction pre as [| y pre IH]; intros i Hx; [by apply elem_of_nil in Hx |].
  cbn [indexOfFrom app length].
  destruct (String.eqb_spec y x); [lia |].
  apply elem_of_cons in Hx. destruct Hx as [-> | Hx]; [congruence |].
  specialize (IH (i + 1)%Z Hx). lia.
Qed.

(** The positions kept by the [indexOf] filter, from the position
    after [pre] on. *)
Lemma firstOccurrences_from l :
  forall pre,
    let kept := filterIndexed
                  (fun href index => Z.eqb (indexOf href (pre ++ l)) index)
                  l (Z.of_nat (length pre)) in
    NoDup kept /\ forall x, x ∈ kept <-> x ∈ l /\ x ∉ pre.
Proof.
  induction l as [| y rest IH]; intros pre; cbv zeta; cbn [filterIndexed].
  - split; [constructor |]. intros x. rewrite elem_of_nil. tauto.
  - specialize (IH (pre ++ [y])). rewrite <- app_assoc in IH. cbn [app] in IH.
    rewrite length_app in IH. cbn [length] in IH.
    replace (Z.of_nat (length pre + 1)) with (Z.of_nat (length pre) + 1)%Z in IH by lia.
    cbv zeta in IH. destruct IH as [ND Hin].
    destruct (decide (y ∈ pre)) as [Hy | Hy].
    + pose proof (indexOfFrom_earlier y pre (y :: rest) 0 Hy) as Hlt.
      assert ((indexOf y (pre ++ y :: rest) =? Z.of_nat (length pre))%Z = false)
        as -> by (apply Z.eqb_neq; unfold indexOf; lia).
      split; [exact ND |]. intros x. rewrite Hin, elem_of_cons, not_elem_of_app.
      rewrite list_elem_of_singleton. split; [tauto |].
      intros [[-> | Hx] Hp]; [contradiction | split; [exact Hx |]].
      split; [exact Hp |]. intros ->. contradiction.
    + assert ((indexOf y (pre ++ y :: rest) =? Z.of_nat (length pre))%Z = true)
        as -> by (apply Z.eqb_eq; unfold indexOf;
                  rewrite (indexOfFrom_first y pre rest 0 Hy); lia).
      split.
      * apply NoDup_cons. split; [| exact ND]. rewrite Hin, not_elem_of_app.
        rewrite list_elem_of_singleton. tauto.
      * intros x. rewrite elem_of_cons, Hin, elem_of_cons, not_elem_of_app.
        rewrite list_elem_of_singleton.
        destruct (decide (x = y)) as [-> | Hne]; tauto.
Qed.

Lemma firstOccurrences_spec arr :
  NoDup (firstOccurrences arr) /\ forall x, x ∈ firstOccurrences arr <-> x ∈ arr.
Proof.
  destruct (firstOccurrences_from arr []) as [ND Hin]. cbn in ND, Hin.
  split; [exact ND |]. intros x. unfold firstOccurrences. rewrite Hin.
  rewrite elem_of_nil. tauto.
Qed.

Lemma elem_of_filter_bool (p : string -> bool) (l : list string) x :
  x ∈ List.filter p l <-> x ∈ l /\ p x = true.
Proof. rewrite !list_elem_of_In. apply filter_In. Qed.

(** X19. The URLs that discovery selects from the links of the page
    are pairwise distinct and at most [maxPages]; each is one of the
    links, holds no [#] and does not end in one of the media
    extensions, whatever the case of its letters; and when the page
    has no more than [maxPages] links, every such link is selected. *)
Theorem selected_links_are_distinct_pages
        (maxPages : nat) (mapped : list (option string)) :
  NoDup (selectLinks maxPages mapped)
  /\ length (selectLinks maxPages mapped) <= maxPages
  /\ (forall u, u ∈ selectLinks maxPages mapped ->
                Some u ∈ mapped /\ includes u "#" = false /\ isMedia u = false)
  /\ (length mapped <= maxPages ->
      forall u, Some u ∈ mapped -> includes u "#" = false -> isMedia u = false ->
                u ∈ selectLinks maxPages mapped).
Proof.
  unfold selectLinks.
  set (noMedia := List.filter (fun href => negb (isMedia href))
                    (List.filter (fun href => negb (includes href "#"))
                                 (omap id mapped))).
  destruct (firstOccurrences_spec noMedia) as [ND Hin].
  assert (Hmem : forall u, u ∈ noMedia
                           <-> Some u ∈ mapped /\ includes u "#" = false
                               /\ isMedia u = false).
  { intros u. subst noMedia. rewrite !elem_of_filter_bool, list_elem_of_omap.
    rewrite !negb_true_iff. split.
    - intros [[[x [Hx E]] H1] H2]. cbn in E. subst x. tauto.
    - intros (H0 & H1 & H2). split; [split |]; try assumption.
      by exists (Some u). }
  split; [| split; [| split]].
  - rewrite <- (firstn_skipn maxPages (firstOccurrences noMedia)) in ND.
    by apply NoDup_app in ND as [ND _].
  - rewrite length_firstn. lia.
  - intros u Hu. apply Hmem, Hin.
    rewrite <- (firstn_skipn maxPages (firstOccurrences noMedia)).
    apply elem_of_app. by left.
  - intros Hlen u H0 H1 H2.
    rewrite firstn_all2; [apply Hin, Hmem; tauto |].
    apply Nat.le_trans with (length noMedia).
    + apply NoDup_incl_length; [by apply NoDup_ListNoDup |].
      intros x Hx. apply list_elem_of_In, Hin. by apply list_elem_of_In.
    + subst noMedia.
      eapply Nat.le_trans; [apply filter_length_le |].
      eapply Nat.le_trans; [apply filter_length_le |].
      eapply Nat.le_trans; [| exact Hlen].
      clear. induction mapped as [| [x |] l IH]; cbn; lia.
Qed.

(** The selection on the sample links. *)
Example sample_links_selected :
  selectLinks 10 sampleLinks
  = ["https://www.guimera.info/castell";
     "https://www.guimera.info/museu";
     "https://www.guimera.info/contacte"]
  /\ selectLinks 2 sampleLinks
     = ["https://www.guimera.info/castell"; "https://www.guimera.info/museu"].
Proof. split; reflexivity. Qed.

Section Discover.
Variable w : World.
Variable options : Options.
Variable sessionId : string.
Variable links : nat -> Outcome (list (option string)).

Local Abbreviation TE := (typeErrorUndefined "toLowerCase").

Lemma recordDiscovered_spec urls :
  forall s,
  exists d,
    recordDiscovered sessionId urls s = (Return tt, setReporter d s)
    /\ Reporter.sessions d = Reporter.sessions (reporter s)
    /\ Reporter.errors d = Reporter.errors (reporter s)
    /\ Reporter.urls d
       = Reporter.urls (reporter s) ++ map (discoveredRecord sessionId) urls.
Proof.
  induction urls as [| url rest IH]; intros s; cbn [recordDiscovered].
  - exists (reporter s). rewrite setReporter_same, app_nil_r. by repeat split.
  - unfold bind at 1, reporterRecordUrl, modify.
    match goal with
    | |- context [recordDiscovered sessionId rest ?s1] =>
        destruct (IH s1) as (d & E & H1 & H2 & H3)
    end.
    exists d. rewrite E. cbn in *.
    split; [reflexivity |]. split; [exact H1 |]. split; [exact H2 |].
    rewrite H3, <- app_assoc. reflexivity.
Qed.

(** X20. How [discoverPhase1Urls] ends.  When the page loads and is
    evaluated, it returns the selected links, sets [urlsDiscovered]
    to their number and records each of them as [discovered], in
    order.  When the load or the evaluation throws, it does not
    return the empty list: its [catch] block throws the reporter's
    [TypeError], and neither the statistics nor the reporter's data
    have changed. *)
Theorem discovery_returns_links_or_throws (s : State) :
  let '(r, s') := discoverPhase1Urls w options sessionId links s in
  match r with
  | Return urls =>
      goto w (tick s) baseUrl = Return tt
      /\ (exists mapped,
            links (S (tick s)) = Return mapped
            /\ urls = selectLinks (maxPages options) mapped)
      /\ urlsDiscovered (stats s') = Z.of_nat (length urls)
      /\ Reporter.urls (reporter s')
         = Reporter.urls (reporter s) ++ map (discoveredRecord sessionId) urls
  | Throw e =>
      e = TE
      /\ ((exists e', goto w (tick s) baseUrl = Throw e')
          \/ (exists e', links (S (tick s)) = Throw e'))
      /\ stats s' = stats s /\ reporter s' = reporter s
  | Diverge => stats s' = stats s /\ reporter s' = reporter s
  end.
Proof.
  unfold discoverPhase1Urls, try_catch, bind at 1, observe.
  destruct (goto w (tick s) baseUrl) as [[] | e |] eqn:Eg.
  2: { unfold bind. rewrite reporterRecordError_throws.
       split; [reflexivity |]. split; [left; by eexists | by split]. }
  2: { by split. }
  unfold bind at 1. cbn [tick observed].
  destruct (links (S (tick s))) as [mapped | e |] eqn:El.
  2: { unfold bind. rewrite reporterRecordError_throws.
       split; [reflexivity |]. split; [right; by eexists | by split]. }
  2: { by split. }
  unfold bind at 1.
  match goal with
  | |- context [recordDiscovered sessionId ?urls ?s1] =>
      destruct (recordDiscovered_spec urls s1) as (d & E & H1 & H2 & H3)
  end.
  rewrite E. cbn in *.
  split; [reflexivity |]. split; [by eexists |]. split; [reflexivity | exact H3].
Qed.

End Discover.
End DiscoveryFacts.

(** ** Reporter: the truncation of texts *)
Module ReporterFacts.
Import Js Eff Reporter ReporterReport.

Lemma append_cons c (a b : string) : String c a ++ b = String c (a ++ b).
Proof. reflexivity. Qed.

Lemma length_app_string (a b : string) :
  String.length (a ++ b) = String.length a + String.length b.
Proof.
  induction a as [| c a IH]; [reflexivity |].
  rewrite append_cons. cbn. f_equal. exact IH.
Qed.

Lemma length_prefix n (t : string) :
  n <= String.length t -> String.length (String.substring 0 n t) = n.
Proof.
  revert t. induction n as [| n IH]; intros t H.
  - by destruct t.
  - destruct t as [| c t]; cbn in *; [lia |]. f_equal. apply IH. lia.
Qed.

Lemma prefix_of_app (a b : string) :
  String.substring 0 (String.length a) (a ++ b) = a.
Proof.
  induction a as [| c a IH]; [by destruct b |].
  rewrite append_cons. cbn. f_equal. exact IH.
Qed.

Lemma prefix_of_prefix n m (t : string) :
  n <= m -> String.substring 0 n (String.substring 0 m t) = String.substring 0 n t.
Proof.
  revert m t. induction n as [| n IH]; intros m t H.
  - destruct (String.substring 0 m t), t; reflexivity.
  - destruct m as [| m]; [lia |]. destruct t as [| c t]; cbn; [reflexivity |].
    f_equal. apply IH. lia.
Qed.

Lemma prefix_app_shorter n (a b : string) :
  n <= String.length a -> String.substring 0 n (a ++ b) = String.substring 0 n a.
Proof.
  revert a. induction n as [| n IH]; intros a H.
  - by destruct a, b.
  - destruct a as [| c a]; [cbn in H; lia |].
    rewrite append_cons. cbn in *. f_equal. apply IH. lia.
Qed.

(** X21. [truncateText] (and with it [truncateUrl], which has the same
    body) returns at most [maxLength + 3] characters; what it returns starts
    like the text, up to [maxLength] characters; truncating twice gives
    the same as truncating once; and a text of at most [maxLength]
    characters comes out as it went in. *)
Theorem truncateText_bounds_and_idempotence (text : option string) (maxLength : nat) :
  String.length (truncateText text maxLength) <= maxLength + 3
  /\ String.substring 0 maxLength (truncateText text maxLength)
     = String.substring 0 maxLength (default "" text)
  /\ truncateText (Some (truncateText text maxLength)) maxLength
     = truncateText text maxLength
  /\ (String.length (default "" text) <= maxLength ->
      truncateText text maxLength = default "" text).
Proof.
  destruct text as [t |]; cbn [truncateText default].
  2: { repeat split; try reflexivity. cbn. lia. }
  destruct (String.eqb_spec t "") as [-> | Hne].
  { repeat split; try reflexivity. cbn. lia. }
  destruct (Nat.ltb_spec maxLength (String.length t)) as [Hlong | Hshort].
  - assert (Hlen : String.length (String.substring 0 maxLength t) = maxLength)
      by (apply length_prefix; lia).
    split; [| split; [| split]].
    + rewrite length_app_string, Hlen. cbn. lia.
    + rewrite prefix_app_shorter by lia. apply prefix_of_prefix. lia.
    + cbn [truncateText].
      destruct (String.eqb_spec (String.substring 0 maxLength t ++ "...") "")
        as [E | _].
      { apply (f_equal String.length) in E. rewrite length_app_string in E.
        cbn in E. lia. }
      rewrite length_app_string, Hlen.
      assert (Nat.ltb maxLength (maxLength + String.length "...") = true) as ->
        by (apply Nat.ltb_lt; cbn; lia).
      rewrite <- Hlen at 1. by rewrite prefix_of_app.
    + intros H. cbn in H. lia.
  - split; [lia |]. split; [reflexivity |]. split.
    + cbn [truncateText]. destruct (String.eqb_spec t ""); [contradiction |].
      by destruct (Nat.ltb_spec maxLength (String.length t)); [lia |].
    + reflexivity.
Qed.

End ReporterFacts.

(** ** Indexing tracker: bookkeeping, queries and analyses *)
Module TrackerMoreFacts.
Import Js Eff Tracker TrackerSpec TrackerReport JsFacts TrackerFacts.
Local Open Scope list_scope.
Local Open Scope Z_scope.

Lemma allBooked_put sid s t :
  allBooked t -> booked s -> allBooked (putSession sid s t).
Proof.
  intros Ht Hs sid' s' H. rewrite lookup_putSession in H.
  destruct (decide (sid = sid')); [by injection H as <- | by eapply Ht].
Qed.

Lemma booked_new sid src now : booked (newSession sid src now).
Proof.
  constructor; cbn; try reflexivity; try lia.
  - intros u [x H]. by rewrite lookup_empty in H.
  - intros u [x H]. by rewrite lookup_empty in H.
  - constructor.
  - intros u p q H. by rewrite lookup_empty in H.
Qed.

Lemma size_insert_le {A} (m : gmap string A) k v :
  (size (<[k := v]> m) <= S (size m))%nat.
Proof.
  rewrite map_size_insert. destruct (m !! k); cbn; lia.
Qed.

Lemma truthyQ_nonzero x q : truthyQ x = Some q -> ~ (q == 0)%Q.
Proof.
  unfold truthyQ. destruct x as [v |]; [| discriminate].
  destruct (Qeq_bool v 0) eqn:E; [discriminate |]. intros [= <-].
  by apply Qeq_bool_neq.
Qed.

(** Every call keeps every session booked. *)
Lemma step_booked op t : allBooked t -> allBooked (step op t).
Proof.
  intros Ht. destruct op; cbn [step].
  - intros sid' s' H. cbn in H. rewrite lookup_insert in H.
    destruct (decide _); [injection H as <-; apply booked_new | by eapply Ht].
  - unfold endIndexingSession. destruct (sessions t !! sid) as [s |] eqn:E; [| done].
    intros sid' s' H. cbn in H. rewrite lookup_insert in H.
    destruct (decide _); [injection H as <- | by eapply Ht].
    destruct (Ht _ _ E). by constructor.
  - unfold recordDiscoveredUrls. destruct (sessions t !! sid) as [s |] eqn:E; [| done].
    destruct (discoverLoop _ _ _ _) as [[d q] nu]. cbn [snd].
    apply allBooked_put; [assumption |]. destruct (Ht _ _ E). by constructor.
  - unfold recordProcessingStart.
    destruct (sessions t !! sid) as [s |] eqn:E; [| done].
    apply allBooked_put; [assumption |]. destruct (Ht _ _ E). by constructor.
  - unfold recordProcessingSuccess.
    destruct (sessions t !! sid) as [s |] eqn:E; [| done].
    destruct (Ht _ _ E) as [B1 B2 B3 B4 B5 B6 B7 B8 B9 B10 B11].
    destruct result as [result |]; cbn [snd]; (apply allBooked_put; [assumption |]).
    + constructor; cbn; try assumption.
      * unfold successCosts. destruct (truthyQ (r_embeddingCost result)); cbn;
          [by rewrite B3 | exact B3].
      * intros u Hu. apply elem_of_set_add. right. by apply B4.
      * intros u Hu. apply elem_of_set_add.
        destruct (decide (url = u)) as [-> | Hne]; [by left | right].
        rewrite lookup_insert_ne in Hu by done. by apply B5.
      * by apply NoDup_set_add.
      * pose proof (size_insert_le (indexedPages s) url
                      {| ip_chunks := orZ (r_chunks result) 0;
                         ip_tokens := orZ (r_tokens result) 0;
                         ip_timestamp := now;
                         ip_title := orStr (r_title result) "";
                         ip_contentLength := orZ (r_contentLength result) 0;
                         ip_quality := truthyQ (r_quality result) |}).
        lia.
      * intros u p q Hu Hq.
        destruct (decide (url = u)) as [-> | Hne].
        -- rewrite lookup_insert_eq in Hu. injection Hu as <-. cbn in Hq.
           by eapply truthyQ_nonzero.
        -- rewrite lookup_insert_ne in Hu by done. by eapply B11.
    + constructor; cbn; try assumption.
      * intros u Hu. apply elem_of_set_add. right. by apply B4.
      * intros u Hu. apply elem_of_set_add. right. by apply B5.
      * by apply NoDup_set_add.
  - unfold recordProcessingFailure.
    destruct (sessions t !! sid) as [s |] eqn:E; [| done].
    destruct (Ht _ _ E) as [B1 B2 B3 B4 B5 B6 B7 B8 B9 B10 B11].
    destruct error; cbn [snd]; (apply allBooked_put; [assumption |]).
    1, 2:
      (constructor; cbn; try assumption;
       [ lia
       | rewrite length_app; cbn; lia
       | intros u Hu; apply elem_of_set_add;
         destruct (decide (url = u)) as [-> | Hne]; [by left | right];
         rewrite lookup_insert_ne in Hu by done; by apply B4
       | intros u Hu; apply elem_of_set_add; right; by apply B5
       | by apply NoDup_set_add
       | match goal with
         | |- context [size (<[?k := ?v]> ?m)] =>
             pose proof (size_insert_le m k v)
         end; lia ]).
    constructor; cbn; try assumption.
    + intros u Hu. apply elem_of_set_add. right. by apply B4.
    + intros u Hu. apply elem_of_set_add. right. by apply B5.
    + by apply NoDup_set_add.
  - unfold recordSkippedUrl.
    destruct (sessions t !! sid) as [s |] eqn:E; [| done].
    apply allBooked_put; [assumption |].
    destruct (Ht _ _ E) as [B1 B2 B3 B4 B5 B6 B7 B8 B9 B10 B11].
    constructor; cbn; try assumption.
    pose proof (size_insert_le (skippedUrls s) url reason). lia.
  - unfold recordDuplicateContent.
    destruct (sessions t !! sid) as [s |] eqn:E; [| done].
    apply allBooked_put; [assumption |]. destruct (Ht _ _ E). by constructor.
  - unfold recordLowQualityContent.
    destruct (sessions t !! sid) as [s |] eqn:E; [| done].
    apply allBooked_put; [assumption |].
    destruct (Ht _ _ E) as [B1 B2 B3 B4 B5 B6 B7 B8 B9 B10 B11].
    constructor; cbn; try assumption.
    rewrite length_app. cbn. unfold set_add.
    destruct (set_has url (lowQualityPages s)); [lia |].
    rewrite length_app. cbn. lia.
Qed.

Lemma run_booked ops t : allBooked t -> allBooked (run ops t).
Proof.
  revert t. induction ops as [| op ops IH]; intros t Ht; [exact Ht |].
  apply IH. by apply step_booked.
Qed.

(** X22. The bookkeeping of a session.  After any sequence of tracker
    calls, in every session: [pagesFailed], [errorsEncountered] and the
    length of [errors] are equal; the two cost totals are equal; every
    key of [failedUrls] and of [indexedPages] is in [processedUrls],
    which holds no URL twice; [failedUrls], [indexedPages] and
    [skippedUrls] hold at most as many entries as [pagesFailed],
    [pagesIndexed] and [pagesSkipped] count; and no indexed page has
    the quality 0 (a quality of 0 is stored as unknown). *)
Theorem session_bookkeeping (history : list Op) (sid : string) (s : Session) :
  sessions (run history initial) !! sid = Some s ->
  pagesFailed (stats s) = errorsEncountered (stats s)
  /\ errorsEncountered (stats s) = Z.of_nat (length (errors s))
  /\ totalCost (costs s) = embeddingCost (costs s)
  /\ (forall u, is_Some (failedUrls s !! u) \/ is_Some (indexedPages s !! u) ->
                u ∈ processedUrls s)
  /\ NoDup (processedUrls s)
  /\ Z.of_nat (size (failedUrls s)) <= pagesFailed (stats s)
  /\ Z.of_nat (size (indexedPages s)) <= pagesIndexed (stats s)
  /\ Z.of_nat (size (skippedUrls s)) <= pagesSkipped (stats s)
  /\ (forall u p q, indexedPages s !! u = Some p -> ip_quality p = Some q ->
                    ~ (q == 0)%Q).
Proof.
  intros Hs.
  assert (H0 : allBooked initial).
  { intros sid' s' H. cbn in H. by rewrite lookup_empty in H. }
  destruct (run_booked history initial H0 sid s Hs)
    as [B1 B2 B3 B4 B5 B6 B7 B8 B9 B10 B11].
  repeat split; try assumption.
  intros u [H | H]; [by apply B4 | by apply B5].
Qed.

Lemma session_bookkeeping_witness :
  exists s,
    sessions (run sampleHistory initial) !! sampleSid = Some s
    /\ pagesFailed (stats s) = errorsEncountered (stats s)
    /\ errorsEncountered (stats s) = Z.of_nat (length (errors s))
    /\ totalCost (costs s) = embeddingCost (costs s).
Proof.
  assert (E : exists s, sessions (run sampleHistory initial) !! sampleSid = Some s)
    by (vm_compute; eexists; reflexivity).
  destruct E as [s E]. exists s. split; [exact E |].
  destruct (session_bookkeeping sampleHistory sampleSid s E) as (H1 & H2 & H3 & _).
  by repeat split.
Defined.

(** *** The global statistics *)

Lemma step_globalStats op t :
  endsSession op = false -> globalStats (step op t) = globalStats t.
Proof.
  intros H. destruct op; try discriminate; cbn [step].
  - reflexivity.
  - unfold recordDiscoveredUrls. destruct (sessions t !! sid); [| done].
    by destruct (discoverLoop _ _ _ _) as [[d q] nu].
  - unfold recordProcessingStart. by destruct (sessions t !! sid).
  - unfold recordProcessingSuccess. destruct (sessions t !! sid); [| done].
    by destruct result.
  - unfold recordProcessingFailure. destruct (sessions t !! sid); [| done].
    by destruct error.
  - unfold recordSkippedUrl. by destruct (sessions t !! sid).
  - unfold recordDuplicateContent. by destruct (sessions t !! sid).
  - unfold recordLowQualityContent. by destruct (sessions t !! sid).
Qed.

Lemma step_totalPagesDiscovered op t :
  totalPagesDiscovered (globalStats (step op t)) = totalPagesDiscovered (globalStats t).
Proof.
  destruct (endsSession op) eqn:E; [| by rewrite step_globalStats].
  destruct op; try discriminate. cbn [step]. unfold endIndexingSession.
  by destruct (sessions t !! sid).
Qed.

(** X23. The global statistics.  No tracker call ever changes the
    global [totalPagesDiscovered]: in a tracker that starts fresh it
    stays 0, however many URLs the sessions discover.  And the global
    statistics as a whole change in [endIndexingSession] only. *)
Theorem global_discovered_count_is_never_updated (history : list Op) (t : State) :
  totalPagesDiscovered (globalStats (run history t))
  = totalPagesDiscovered (globalStats t)
  /\ totalPagesDiscovered (globalStats (run history initial)) = 0
  /\ (forallb (fun op => negb (endsSession op)) history = true ->
      globalStats (run history t) = globalStats t).
Proof.
  assert (H : forall ops t0,
             totalPagesDiscovered (globalStats (run ops t0))
             = totalPagesDiscovered (globalStats t0)).
  { induction ops as [| op ops IH]; intros t0; [reflexivity |].
    cbn [run fold_left]. fold (run ops (step op t0)).
    by rewrite IH, step_totalPagesDiscovered. }
  split; [apply H |]. split; [by rewrite H |].
  revert t. induction history as [| op ops IH]; intros t Hall; [reflexivity |].
  cbn [forallb] in Hall. apply andb_true_iff in Hall. destruct Hall as [H1 H2].
  cbn [run fold_left]. fold (run ops (step op t)).
  rewrite (IH _ H2). apply step_globalStats. by apply negb_true_iff.
Qed.

(** X24. [endIndexingSession] counts a session into the global
    statistics each time it is called: a second call for the same
    session adds its pages, failures and chunks a second time, and
    counts it as one more session of its source. *)
Theorem ending_a_session_twice_counts_it_twice
        (sid status1 status2 : string) (now1 now2 : N) (t : State) (s : Session) :
  sessions t !! sid = Some s ->
  let g := globalStats t in
  let g2 := globalStats (endIndexingSession sid status2 now2
                           (endIndexingSession sid status1 now1 t)) in
  totalPagesIndexed g2 = totalPagesIndexed g + 2 * pagesIndexed (stats s)
  /\ totalPagesFailed g2 = totalPagesFailed g + 2 * pagesFailed (stats s)
  /\ totalChunksCreated g2 = totalChunksCreated g + 2 * chunksCreated (stats s)
  /\ exists p,
       sourcesProgress g2 !! sourceKey s = Some p
       /\ sp_sessions p
          = sp_sessions (default {| sp_sessions := 0; sp_totalPages := 0;
                                    sp_lastUpdate := None |}
                                 (sourcesProgress g !! sourceKey s)) + 2
       /\ sp_totalPages p
          = sp_totalPages (default {| sp_sessions := 0; sp_totalPages := 0;
                                      sp_lastUpdate := None |}
                                   (sourcesProgress g !! sourceKey s))
            + 2 * pagesIndexed (stats s).
Proof.
  intros Hs.
  assert (E1 : endIndexingSession sid status1 now1 t
               = {| sessions := <[sid := setEnd now1 status1 s]> (sessions t);
                    globalStats :=
                      updateGlobalStats (setEnd now1 status1 s) now1 (globalStats t);
                    currentSession :=
                      if bool_decide (currentSession t = Some sid) then None
                      else currentSession t |})
    by (unfold endIndexingSession; by rewrite Hs).
  rewrite E1. unfold endIndexingSession. cbn [sessions]. rewrite lookup_insert_eq.
  cbn [globalStats updateGlobalStats totalPagesIndexed totalPagesFailed
       totalChunksCreated sourcesProgress setEnd stats sourceKey].
  rewrite !lookup_insert_eq. cbn [default sp_sessions sp_totalPages].
  split; [lia |]. split; [lia |]. split; [lia |].
  eexists. split; [reflexivity |]. cbn. lia.
Qed.

Lemma ending_twice_witness :
  exists s,
    sessions (run sampleHistory initial) !! sampleSid = Some s
    /\ totalPagesIndexed
         (globalStats (endIndexingSession sampleSid "completed" 1700000000400
                         (endIndexingSession sampleSid "completed" 1700000000300
                            (run sampleHistory initial))))
       = 0 + 2 * pagesIndexed (stats s).
Proof.
  assert (E : exists s, sessions (run sampleHistory initial) !! sampleSid = Some s)
    by (vm_compute; eexists; reflexivity).
  destruct E as [s E]. exists s. split; [exact E |].
  exact (proj1 (ending_a_session_twice_counts_it_twice sampleSid "completed"
                  "completed" 1700000000300 1700000000400
                  (run sampleHistory initial) s E)).
Defined.

(** *** The queue *)

Lemma discoverLoop_settled u urls :
  forall d q nu,
    u ∈ d -> u ∉ q ->
    u ∈ (discoverLoop urls d q nu).1.1 /\ u ∉ (discoverLoop urls d q nu).1.2.
Proof.
  induction urls as [| url rest IH]; intros d q nu Hd Hq; cbn [discoverLoop].
  - by split.
  - destruct (set_has url d) eqn:E; [by apply IH |].
    apply set_has_false in E. apply IH.
    + apply elem_of_set_add. by right.
    + rewrite elem_of_set_add. intros [-> | H]; contradiction.
Qed.

Lemma step_settled u op t sid s :
  startsSession op = false ->
  sessions t !! sid = Some s -> settled u s ->
  exists s', sessions (step op t) !! sid = Some s' /\ settled u s'.
Proof.
  intros Hop Hs [Hd Hq]. destruct op as [| sid0 ? ? | sid0 urls | sid0 url
    | sid0 url result now | sid0 url error attempt now | sid0 url reason
    | sid0 url | sid0 url reason score now]; try discriminate; cbn [step].
  - unfold endIndexingSession. destruct (sessions t !! sid0) as [s0 |] eqn:E;
      [| by exists s].
    cbn [sessions]. rewrite lookup_insert.
    destruct (decide (sid0 = sid)) as [-> | Hne]; [| by exists s].
    rewrite Hs in E. injection E as <-. eexists. split; [reflexivity |]. by split.
  - unfold recordDiscoveredUrls. destruct (sessions t !! sid0) as [s0 |] eqn:E;
      [| by exists s].
    destruct (decide (sid0 = sid)) as [-> | Hne].
    + rewrite Hs in E. injection E as <-.
      pose proof (discoverLoop_settled u urls (discoveredUrls s) (queuedUrls s) []
                    Hd Hq) as [H1 H2].
      destruct (discoverLoop urls (discoveredUrls s) (queuedUrls s) [])
        as [[d q] nu]. cbn [snd fst] in *.
      rewrite lookup_putSession, decide_True by done.
      eexists. split; [reflexivity |]. by split.
    + destruct (discoverLoop _ _ _ _) as [[d q] nu]. cbn [snd].
      rewrite lookup_putSession, decide_False by done. by exists s.
  - unfold recordProcessingStart. destruct (sessions t !! sid0) as [s0 |] eqn:E;
      [| by exists s].
    rewrite lookup_putSession. destruct (decide (sid0 = sid)) as [-> | Hne];
      [| by exists s].
    rewrite Hs in E. injection E as <-. eexists. split; [reflexivity |].
    split; [exact Hd |]. cbn. rewrite elem_of_set_delete. tauto.
  - unfold recordProcessingSuccess. destruct (sessions t !! sid0) as [s0 |] eqn:E;
      [| by exists s].
    destruct result; cbn [snd]; rewrite lookup_putSession;
      (destruct (decide (sid0 = sid)) as [-> | Hne]; [| by exists s]);
      rewrite Hs in E; injection E as <-; (eexists; split; [reflexivity |]);
      by split.
  - unfold recordProcessingFailure. destruct (sessions t !! sid0) as [s0 |] eqn:E;
      [| by exists s].
    destruct error; cbn [snd]; rewrite lookup_putSession;
      (destruct (decide (sid0 = sid)) as [-> | Hne]; [| by exists s]);
      rewrite Hs in E; injection E as <-; (eexists; split; [reflexivity |]);
      by split.
  - unfold recordSkippedUrl. destruct (sessions t !! sid0) as [s0 |] eqn:E;
      [| by exists s].
    rewrite lookup_putSession. destruct (decide (sid0 = sid)) as [-> | Hne];
      [| by exists s].
    rewrite Hs in E. injection E as <-. eexists. split; [reflexivity |].
    split; [exact Hd |]. cbn. rewrite elem_of_set_delete. tauto.
  - unfold recordDuplicateContent. destruct (sessions t !! sid0) as [s0 |] eqn:E;
      [| by exists s].
    rewrite lookup_putSession. destruct (decide (sid0 = sid)) as [-> | Hne];
      [| by exists s].
    rewrite Hs in E. injection E as <-. eexists. split; [reflexivity |]. by split.
  - unfold recordLowQualityContent. destruct (sessions t !! sid0) as [s0 |] eqn:E;
      [| by exists s].
    rewrite lookup_putSession. destruct (decide (sid0 = sid)) as [-> | Hne];
      [| by exists s].
    rewrite Hs in E. injection E as <-. eexists. split; [reflexivity |]. by split.
Qed.

(** X25. A URL that has left the queue never comes back.  If, in a
    session, a discovered URL is not (or no longer) queued, then after
    any further tracker calls that start no session it is still
    discovered and still not queued: discovering it again does not
    queue it again. *)
Theorem settled_url_is_never_queued_again
        (history : list Op) (t : State) (sid u : string) (s : Session) :
  forallb (fun op => negb (startsSession op)) history = true ->
  sessions t !! sid = Some s ->
  u ∈ discoveredUrls s -> u ∉ queuedUrls s ->
  exists s',
    sessions (run history t) !! sid = Some s'
    /\ u ∈ discoveredUrls s' /\ u ∉ queuedUrls s'.
Proof.
  revert t s. induction history as [| op ops IH]; intros t s Hall Hs Hd Hq.
  - exists s. by repeat split.
  - cbn [forallb] in Hall. apply andb_true_iff in Hall. destruct Hall as [H1 H2].
    apply negb_true_iff in H1.
    destruct (step_settled u op t sid s H1 Hs (conj Hd Hq)) as (s1 & Hs1 & Hd1 & Hq1).
    cbn [run fold_left]. fold (run ops (step op t)). by apply (IH _ s1).
Qed.

Lemma settled_url_witness :
  let t := run sampleHistory initial in
  let u := "https://www.guimera.info/castell" in
  let again := [RecordDiscoveredUrls sampleSid [u; "https://www.guimera.info/fires"]] in
  exists s s',
    forallb (fun op => negb (startsSession op)) again = true
    /\ sessions t !! sampleSid = Some s
    /\ u ∈ discoveredUrls s /\ (u ∉ queuedUrls s)
    /\ sessions (run again t) !! sampleSid = Some s'
    /\ u ∈ discoveredUrls s' /\ u ∉ queuedUrls s'.
Proof.
  intros t u again.
  assert (E : exists s, sessions t !! sampleSid = Some s
                        /\ discoveredUrls s
                           = ["https://www.guimera.info/";
                              "https://www.guimera.info/castell";
                              "https://www.guimera.info/museu"]
                        /\ queuedUrls s = [])
    by (vm_compute; eexists; repeat split; reflexivity).
  destruct E as (s & Hs & Ed & Eq).
  assert (H1 : forallb (fun op => negb (startsSession op)) again = true)
    by reflexivity.
  assert (Hd : u ∈ discoveredUrls s).
  { rewrite Ed. apply list_elem_of_In. cbn [In]. right. left. reflexivity. }
  assert (Hq : u ∉ queuedUrls s).
  { rewrite Eq. apply not_elem_of_nil. }
  destruct (settled_url_is_never_queued_again again t sampleSid u s H1 Hs Hd Hq)
    as (s' & Hs' & Hd' & Hq').
  exists s, s'. by repeat split.
Defined.

(** *** Recent errors *)

Lemma sliceFrom_suffix {A} start (arr : list A) :
  exists older, arr = older ++ sliceFrom start arr.
Proof.
  unfold sliceFrom. eexists. symmetry. apply firstn_skipn.
Qed.

(** X26. [getRecentErrors(limit)] on the current session returns an
    end piece of its [errors]: the last [limit] of them for a positive
    [limit] (all, when there are fewer); but all of them, and not none,
    for [limit] 0, since [slice(-0)] is [slice(0)]. *)
Theorem recent_errors_are_the_last_ones
        (limit : Z) (t : State) (sid : string) (s : Session) :
  currentSession t = Some sid ->
  sessions t !! sid = Some s ->
  (exists older, errors s = older ++ getRecentErrors limit t)
  /\ (0 < limit ->
      length (getRecentErrors limit t)
      = Z.to_nat (Z.min limit (Z.of_nat (length (errors s)))))
  /\ (limit = 0 -> getRecentErrors limit t = errors s).
Proof.
  intros Hc Hs. unfold getRecentErrors. rewrite Hc, Hs.
  split; [apply sliceFrom_suffix |]. split.
  - intros Hpos. unfold sliceFrom.
    assert (Z.ltb (- limit) 0 = true) as -> by (apply Z.ltb_lt; lia).
    rewrite length_skipn. lia.
  - intros ->. unfold sliceFrom. cbn [Z.opp Z.ltb Z.compare].
    rewrite Z.min_l by lia. reflexivity.
Qed.

Lemma recent_errors_witness :
  let t := snd (startIndexingSession "guimera.info" 1700000000000 initial) in
  let t1 := snd (recordProcessingFailure sampleSid "https://www.guimera.info/a"
                   (ErrString "timeout") 1 1700000000100 t) in
  let t2 := snd (recordProcessingFailure sampleSid "https://www.guimera.info/b"
                   (ErrString "404") 1 1700000000200 t1) in
  exists s,
    currentSession t2 = Some sampleSid
    /\ sessions t2 !! sampleSid = Some s
    /\ length (getRecentErrors 1 t2) = 1%nat
    /\ getRecentErrors 0 t2 = errors s
    /\ length (errors s) = 2%nat.
Proof.
  intros t t1 t2.
  assert (E : exists s, sessions t2 !! sampleSid = Some s /\ length (errors s) = 2%nat)
    by (vm_compute; eexists; split; reflexivity).
  destruct E as (s & Hs & Hlen).
  assert (Hc : currentSession t2 = Some sampleSid) by reflexivity.
  exists s. split; [exact Hc |]. split; [exact Hs |].
  destruct (recent_errors_are_the_last_ones 1 t2 sampleSid s Hc Hs) as (_ & H1 & _).
  destruct (recent_errors_are_the_last_ones 0 t2 sampleSid s Hc Hs) as (_ & _ & H0).
  split; [| split; [by apply H0 | exact Hlen]].
  rewrite H1 by lia. rewrite Hlen. reflexivity.
Defined.

(** *** The analyses of the indexed pages *)

Lemma distribution_partition (scores : list Q) :
  (length (List.filter (fun s => Qle_bool (8 # 10) s) scores)
   + length (List.filter (fun s => Qle_bool (5 # 10) s && Qltb s (8 # 10)) scores)
   + length (List.filter (fun s => Qltb s (5 # 10)) scores))%nat
  = length scores.
Proof.
  induction scores as [| x scores IH]; [reflexivity |].
  cbn [List.filter]. unfold Qltb.
  destruct (Qle_bool (8 # 10) x) eqn:E8.
  - assert (Qle_bool (5 # 10) x = true) as ->.
    { apply Qle_bool_iff. apply Qle_bool_iff in E8.
      apply Qle_trans with (8 # 10); [| exact E8]. unfold Qle. cbn. lia. }
    cbn [negb andb length]. unfold Qltb in IH. lia.
  - destruct (Qle_bool (5 # 10) x); cbn [negb andb length]; unfold Qltb in IH; lia.
Qed.

(** X27. [analyzeQualityScores] puts every numeric quality score into
    exactly one of its three classes: the counts for high, medium and
    low add up to the number of scores.  Without any score it returns
    the average 0 and no distribution. *)
Theorem quality_distribution_counts_every_score (s : Session) :
  let scores := omap ip_quality (pages s) in
  match analyzeQualityScores s with
  | (avg, Some d) =>
      scores ≠ [] /\ (high d + medium d + low d)%nat = length scores
  | (avg, None) => scores = [] /\ avg = 0%Q
  end.
Proof.
  cbn zeta. unfold analyzeQualityScores.
  destruct (omap ip_quality (pages s)) as [| x scores] eqn:E; [by split |].
  split; [discriminate |].
  cbn [high medium low]. apply distribution_partition.
Qed.

Lemma elem_of_insertAscending y x l :
  y ∈ insertAscending x l <-> y = x \/ y ∈ l.
Proof.
  induction l as [| z l IH]; cbn [insertAscending].
  - rewrite list_elem_of_singleton, elem_of_nil. tauto.
  - destruct (x <=? z); rewrite !elem_of_cons; [tauto |]. rewrite IH. tauto.
Qed.

Lemma ascending_insert x l : ascending l -> ascending (insertAscending x l).
Proof.
  induction l as [| z l IH]; intros H; cbn [insertAscending].
  - by split.
  - destruct H as [Hz Hl]. destruct (Z.leb_spec x z) as [Hle | Hgt].
    + split; [| by split]. constructor; [exact Hle |].
      eapply Forall_impl; [exact Hz |]. intros y Hy. cbn in Hy. lia.
    + split; [| by apply IH]. apply Forall_forall. intros y Hy.
      apply elem_of_insertAscending in Hy. destruct Hy as [-> | Hy]; [lia |].
      rewrite Forall_forall in Hz. by apply Hz.
Qed.

Lemma sortAscending_spec l :
  ascending (sortAscending l) /\ forall y, y ∈ sortAscending l <-> y ∈ l.
Proof.
  induction l as [| x l [IH1 IH2]]; cbn [sortAscending fold_right].
  - by split.
  - fold (sortAscending l). split; [by apply ascending_insert |].
    intros y. rewrite elem_of_insertAscending, elem_of_cons, IH2. tauto.
Qed.

Lemma ascending_lookup l :
  ascending l ->
  forall i j a b, (i <= j)%nat -> l !! i = Some a -> l !! j = Some b -> a <= b.
Proof.
  induction l as [| x l IH]; intros H i j a b Hij Ha Hb; [done |].
  destruct H as [Hx Hl]. destruct i as [| i], j as [| j]; cbn in Ha, Hb.
  - injection Ha as <-. injection Hb as <-. lia.
  - injection Ha as <-. rewrite Forall_forall in Hx. apply Hx.
    by eapply list_elem_of_lookup_2.
  - lia.
  - apply (IH Hl i j); [lia | assumption | assumption].
Qed.

(** X28. [analyzeContentDistribution] reports the chunk counts in
    order: its minimum is at most its median, its median at most its
    maximum, and the chunk count of every indexed page lies between
    minimum and maximum. *)
Theorem content_distribution_is_ordered (s : Session) :
  let d := analyzeContentDistribution s in
  cd_min d <= cd_median d <= cd_max d
  /\ forall p, p ∈ pages s -> cd_min d <= ip_chunks p <= cd_max d.
Proof.
  cbn zeta. unfold analyzeContentDistribution. cbn [cd_min cd_median cd_max].
  destruct (sortAscending_spec (map ip_chunks (pages s))) as [Hasc Hmem].
  remember (sortAscending (map ip_chunks (pages s))) as sorted eqn:E.
  clear E. destruct (decide (sorted = [])) as [-> | Hne].
  { split; [cbn; lia |]. intros p Hp. exfalso.
    assert (H : ip_chunks p ∈ @nil Z).
    { apply Hmem. apply list_elem_of_fmap. by exists p. }
    by apply elem_of_nil in H. }
  assert (Hpos : (0 < length sorted)%nat).
  { destruct sorted; [done | cbn; lia]. }
  assert (Hlast : last sorted = sorted !! (length sorted - 1)%nat)
    by (rewrite last_lookup; f_equal; lia).
  destruct (lookup_lt_is_Some_2 sorted 0%nat Hpos) as [lo Hlo].
  destruct (lookup_lt_is_Some_2 sorted (length sorted / 2)%nat) as [mid Hmid].
  { apply Nat.div_lt; lia. }
  destruct (lookup_lt_is_Some_2 sorted (length sorted - 1)%nat) as [hi Hhi]; [lia |].
  rewrite Hlast, Hlo, Hmid, Hhi. cbn [default].
  split.
  - split.
    + apply (ascending_lookup sorted Hasc 0%nat (length sorted / 2)%nat); [lia | done..].
    + apply (ascending_lookup sorted Hasc (length sorted / 2)%nat
               (length sorted - 1)%nat); [| done..].
      pose proof (Nat.div_lt (length sorted) 2 Hpos). lia.
  - intros p Hp.
    assert (H : ip_chunks p ∈ sorted).
    { apply Hmem. apply list_elem_of_fmap. by exists p. }
    apply list_elem_of_lookup in H. destruct H as [i Hi].
    pose proof (lookup_lt_Some _ _ _ Hi) as Hlt.
    split.
    + apply (ascending_lookup sorted Hasc 0%nat i); [lia | done..].
    + apply (ascending_lookup sorted Hasc i (length sorted - 1)%nat); [lia | done..].
Qed.

End TrackerMoreFacts.

(** ** Quality assurance: the summary *)
Module QASummaryFacts.
Import Js QA QAReport QASummary JsFacts QAFacts.
Local Open Scope Q_scope.

Lemma in_pushIf x cond r l :
  In x (pushIf cond r l) -> In x l \/ (cond = true /\ x = r).
Proof.
  unfold pushIf. destruct cond; [| tauto].
  intros H. apply in_app_or in H. destruct H as [H | [<- | []]]; tauto.
Qed.

Lemma in_recommendations x stats :
  In x (generateRecommendations stats) ->
  (ltN (st_avgQuality stats) (Fin (8 # 10)) = true /\ x = improveExtraction)
  \/ (ltN (tenth (st_totalChunksAnalyzed stats))
          (Fin (inject_Z (Z.of_nat (st_lowQualityCount stats)))) = true
      /\ x = filterLowQuality)
  \/ (ltN (Fin 10) (st_duplicateRate stats) = true /\ x = deduplicate)
  \/ (ltN (st_avgSearchRelevance stats) (Fin (6 # 10)) = true /\ x = reviewEmbeddings)
  \/ (Nat.ltb 0 (st_metadataIssuesCount stats) = true /\ x = improveMetadata).
Proof.
  unfold generateRecommendations. intros H.
  repeat (apply in_pushIf in H; destruct H as [H | H]; [| tauto]).
  destruct H.
Qed.

Lemma duplicateRate_none n : ltN (Fin 10) (duplicateRate 0 n) = false.
Proof.
  unfold duplicateRate. destruct n as [| n]; [reflexivity |].
  cbn [ltN]. unfold Qltb. apply negb_false_iff, Qle_bool_iff.
  change (inject_Z (Z.of_nat 0)) with 0. unfold Qdiv. rewrite !Qmult_0_l.
  unfold Qle. cbn. lia.
Qed.

(** X29. Two of the five recommendations are never given in the summary
    of a QA run.  The one about low-quality chunks compares their count
    with [stats.totalChunksAnalyzed * 0.1], a property that
    [generateQASummary] does not pass; and the one about duplicates
    needs a duplicate rate above 10, while [analyzeDuplication] finds
    no pair in the records of [verifyContentQuality]. *)
Theorem summary_never_recommends_filters_or_deduplication
        (records : list VerificationRecord) (metadataIssues : nat)
        (searchTesting : list SearchEntry) :
  let stats := summaryStats records (analyzeDuplication records)
                            metadataIssues searchTesting in
  ~ In filterLowQuality (generateRecommendations stats)
  /\ ~ In deduplicate (generateRecommendations stats)
  /\ (length (generateRecommendations stats) <= 3)%nat.
Proof.
  cbn zeta. rewrite analyzeDuplication_flags_nothing.
  set (stats := summaryStats records [] metadataIssues searchTesting).
  assert (H2 : ltN (tenth (st_totalChunksAnalyzed stats))
                   (Fin (inject_Z (Z.of_nat (st_lowQualityCount stats)))) = false)
    by reflexivity.
  assert (H3 : ltN (Fin 10) (st_duplicateRate stats) = false)
    by apply duplicateRate_none.
  split; [| split].
  - intros H. apply in_recommendations in H. rewrite H2, H3 in H.
    destruct H as [[_ H] | [[H _] | [[H _] | [[_ H] | [_ H]]]]]; discriminate.
  - intros H. apply in_recommendations in H. rewrite H2, H3 in H.
    destruct H as [[_ H] | [[H _] | [[H _] | [[_ H] | [_ H]]]]]; discriminate.
  - unfold generateRecommendations. rewrite H2, H3. clear H2 H3. unfold pushIf.
    destruct (ltN (st_avgQuality stats) (Fin (8 # 10))),
             (ltN (st_avgSearchRelevance stats) (Fin (6 # 10))),
             (Nat.ltb 0 (st_metadataIssuesCount stats)); cbn; lia.
Qed.

Lemma addN_NaN_l b : addN NaN b = NaN.
Proof. by destruct b. Qed.

Lemma fold_addN_NaN l : fold_left addN l NaN = NaN.
Proof.
  induction l as [| x l IH]; [reflexivity |].
  cbn [fold_left]. by rewrite addN_NaN_l.
Qed.

Lemma sumN_NaN l : In NaN l -> sumN l = NaN.
Proof.
  unfold sumN. generalize (Fin 0). induction l as [| x l IH]; intros acc H; [done |].
  cbn [fold_left]. destruct H as [-> | H].
  - replace (addN acc NaN) with NaN by (by destruct acc). apply fold_addN_NaN.
  - by apply IH.
Qed.

Lemma status_without_relevance q d : determineOverallStatusN q d NaN = NeedsImprovement.
Proof.
  unfold determineOverallStatusN.
  replace (geN NaN (Fin (7 # 10))) with false by reflexivity.
  replace (geN NaN (Fin (6 # 10))) with false by reflexivity.
  replace (geN NaN (Fin (5 # 10))) with false by reflexivity.
  by rewrite !andb_false_r.
Qed.

(** X30. One test query that the vector store answers with no match
    spoils the summary: its average relevance is [0 / 0], which makes
    the average search relevance of the run [NaN]; the overall status
    is then Needs Improvement whatever the quality, and the
    recommendation about search quality is not given. *)
Theorem query_without_matches_spoils_the_status
        (search : string -> option (list Metadata)) (query : string)
        (records : list VerificationRecord) (duplicates : list Duplicate)
        (metadataIssues : nat) :
  In query testQueries ->
  search query = Some [] ->
  let stats := summaryStats records duplicates metadataIssues
                            (testSearchQuality search) in
  st_avgSearchRelevance stats = NaN
  /\ overallStatus stats = NeedsImprovement
  /\ ~ In reviewEmbeddings (generateRecommendations stats).
Proof.
  intros Hq Hs. cbn zeta.
  assert (E : st_avgSearchRelevance
                (summaryStats records duplicates metadataIssues
                              (testSearchQuality search)) = NaN).
  { unfold summaryStats. cbn [st_avgSearchRelevance].
    rewrite sumN_NaN; [reflexivity |].
    apply in_map_iff. exists (testSearchQuery query []). split; [reflexivity |].
    apply filter_In. split; [| reflexivity].
    unfold testSearchQuality. apply in_map_iff. exists query.
    split; [by rewrite Hs | exact Hq]. }
  split; [exact E |]. split.
  - unfold overallStatus. rewrite E. apply status_without_relevance.
  - intros H. apply in_recommendations in H. rewrite E in H.
    destruct H as [[_ H] | [[_ H] | [[_ H] | [[H _] | [_ H]]]]]; discriminate.
Qed.

Lemma query_without_matches_witness :
  let search := fun query : string =>
                  if String.eqb query "escola" then Some []
                  else Some [metadata (QASamples.sampleMatch "a")] in
  let stats := summaryStats [] [] 0 (testSearchQuality search) in
  In "escola" testQueries
  /\ search "escola" = Some []
  /\ st_avgSearchRelevance stats = NaN
  /\ overallStatus stats = NeedsImprovement.
Proof.
  intros search stats.
  assert (H1 : In "escola" testQueries).
  { unfold testQueries. cbn [In]. do 5 right. left. reflexivity. }
  assert (H2 : search "escola" = Some []) by reflexivity.
  destruct (query_without_matches_spoils_the_status search "escola" [] [] 0 H1 H2)
    as (H3 & H4 & _).
  by repeat split.
Defined.

End QASummaryFacts.
